(** * refactordoc: the line-buffer docstring rewriter

    A shallow embedding of [base_doc.py] (class [BaseDoc] and the helper
    functions above it) and of [sectiondoc/items/or_definition_item.py]
    ([OrDefinitionItem.parse] and [OrDefinitionItem.is_item]).

    Conventions of the embedding:
    - a Python 2 [str] is a list of 8-bit characters ([str := list ascii]);
    - a Python [int] is a [Z]; list subscripts, slices and [list.insert]
      follow Python for negative and out-of-range positions;
    - the methods of [BaseDoc] run in a state-and-exception monad [M] over
      the record of the instance attributes; every assignment to an
      attribute and every edit of the line list is logged, so that a run
      also yields the sequence of states it went through;
    - [while] loops take fuel; the theorems show the fuel given by the
      callers is never exhausted;
    - the [verbose] flag only drives [print] statements and is left out. *)

From Stdlib Require Import String Ascii ZArith Lia Bool List.
Import ListNotations.
Local Open Scope list_scope.

Set Implicit Arguments.

(** ** Python strings *)

Definition str := list ascii.

(** A string literal of the source. *)
Definition lit (s : string) : str := list_ascii_of_string s.

Definition str_eqb (a b : str) : bool :=
  if list_eq_dec ascii_dec a b then true else false.

Definition chr (n : nat) : ascii := ascii_of_nat n.
Definition ord (c : ascii) : nat := nat_of_ascii c.

(** [string.whitespace], which is also the class [\s] of [re] on byte
    strings: space, [\t], [\n], [\x0b], [\x0c], [\r]. *)
Definition isspace (c : ascii) : bool :=
  (ord c =? 32)%nat || ((9 <=? ord c)%nat && (ord c <=? 13)%nat).

(** The class [[A-Za-z]]. *)
Definition isalpha (c : ascii) : bool :=
  ((65 <=? ord c)%nat && (ord c <=? 90)%nat)
  || ((97 <=? ord c)%nat && (ord c <=? 122)%nat).

Definition isdigit (c : ascii) : bool :=
  (48 <=? ord c)%nat && (ord c <=? 57)%nat.

(** The class [\w] of [re] on byte strings: [[a-zA-Z0-9_]]. *)
Definition isword (c : ascii) : bool :=
  isalpha c || isdigit c || (ord c =? 95)%nat.

Definition is_char (a c : ascii) : bool :=
  if ascii_dec a c then true else false.

(** [s.lstrip()] *)
Fixpoint lstrip (s : str) : str :=
  match s with
  | [] => []
  | c :: t => if isspace c then lstrip t else s
  end.

(** [s.rstrip()] *)
Fixpoint rstrip (s : str) : str :=
  match s with
  | [] => []
  | c :: t =>
      match rstrip t with
      | [] => if isspace c then [] else [c]
      | r => c :: r
      end
  end.

(** [s.strip()] *)
Definition strip (s : str) : str := lstrip (rstrip s).

(** [s.startswith(p)] *)
Fixpoint startswith (s p : str) : bool :=
  match p, s with
  | [], _ => true
  | _ :: _, [] => false
  | a :: p', c :: s' => is_char a c && startswith s' p'
  end.

(** [sub in s] *)
Fixpoint contains (sub s : str) : bool :=
  startswith s sub ||
  match s with
  | [] => false
  | _ :: t => contains sub t
  end.

(** [s.split(sep)] for a non-empty separator: the pieces between the
    non-overlapping occurrences of [sep], found from the left.  [skip] counts
    the characters of an occurrence still to be passed over, [cur] holds the
    current piece in reverse. *)
Fixpoint split_go (sep : str) (skip : nat) (cur : str) (s : str) : list str :=
  match s with
  | [] => [rev cur]
  | c :: t =>
      match skip with
      | S k => split_go sep k cur t
      | O =>
          if startswith s sep
          then rev cur :: split_go sep (length sep - 1) [] t
          else split_go sep 0 (c :: cur) t
      end
  end.

Definition split (s sep : str) : list str := split_go sep 0 [] s.

(** [s.strip(chars)] *)
Fixpoint lstrip_chars (chars : str) (s : str) : str :=
  match s with
  | [] => []
  | c :: t => if existsb (is_char c) chars then lstrip_chars chars t else s
  end.

Definition strip_chars (chars : str) (s : str) : str :=
  lstrip_chars chars (rev (lstrip_chars chars (rev s))).

(** [repr(s)] of a Python 2 byte string. *)
Definition hex_digit (n : nat) : ascii :=
  if (n <? 10)%nat then chr (48 + n) else chr (87 + n).

Definition repr_char (quote : ascii) (c : ascii) : str :=
  if is_char c quote || is_char c (chr 92) then [chr 92; c]
  else if is_char c (chr 9) then lit "\t"
  else if is_char c (chr 10) then lit "\n"
  else if is_char c (chr 13) then lit "\r"
  else if (ord c <? 32)%nat || (127 <=? ord c)%nat
       then lit "\x" ++ [hex_digit (ord c / 16); hex_digit (ord c mod 16)]
       else [c].

Definition repr (s : str) : str :=
  let quote :=
    if existsb (is_char (chr 39)) s && negb (existsb (is_char (chr 34)) s)
    then chr 34 else chr 39 in
  quote :: flat_map (repr_char quote) s ++ [quote].

(** ** Python lists with integer positions *)

Definition len {A} (l : list A) : Z := Z.of_nat (length l).

(** [l[i]]: [None] stands for [IndexError]. *)
Definition getitem {A} (l : list A) (i : Z) : option A :=
  if (0 <=? i)%Z then nth_error l (Z.to_nat i)
  else if (- len l <=? i)%Z then nth_error l (Z.to_nat (i + len l))
  else None.

(** The bound of a slice [l[a:b]] brought into [0 .. len l]. *)
Definition slice_bound {A} (l : list A) (i : Z) : nat :=
  if (i <? 0)%Z then Z.to_nat (Z.max 0 (i + len l))
  else Z.to_nat (Z.min i (len l)).

(** [l[a:]] *)
Definition slice_from {A} (l : list A) (a : Z) : list A :=
  skipn (slice_bound l a) l.

(** [del l[a:b]] *)
Definition del_slice {A} (l : list A) (a b : Z) : list A :=
  let a' := slice_bound l a in
  let b' := slice_bound l b in
  if (a' <? b')%nat then firstn a' l ++ skipn b' l else l.

(** [l.insert(i, x)] for a position that fits a C [ssize_t] (below
    [2 ** 63]); from there on Python raises [OverflowError] and inserts
    nothing.  Wherever a statement below has [insert] called, the position
    is within the list or below that bound. *)
Definition list_insert {A} (l : list A) (i : Z) (x : A) : list A :=
  let i' := slice_bound l i in
  firstn i' l ++ x :: skipn i' l.

(** [d.get(key, default)] on a dict given by its items. *)
Fixpoint dict_get (d : list (str * str)) (key default : str) : str :=
  match d with
  | [] => default
  | (k, v) :: d' => if str_eqb k key then v else dict_get d' key default
  end.

(** ** Regular expressions of [re]

    The patterns of the source that are matched as a whole ([re.match] on a
    pattern that ends in [\Z] or [$]) are written as regular expressions over
    character classes and decided with derivatives.  The two patterns used
    for searching ([re.sub], [re.split]) consume one to three characters and
    are written out as scans further down. *)

Module Re.

Inductive regex : Type :=
| Void
| Eps
| Cls (p : ascii -> bool)
| Cat (r1 r2 : regex)
| Alt (r1 r2 : regex)
| Star (r : regex).

(** [r+], [r?], [r{0,2}], a literal string and the classes of [re]. *)
Definition Plus (r : regex) : regex := Cat r (Star r).
Definition Opt (r : regex) : regex := Alt Eps r.
Definition Upto2 (r : regex) : regex := Opt (Cat r (Opt r)).
Definition Lit (c : ascii) : regex := Cls (is_char c).
Definition Space : regex := Cls isspace.
Definition NonSpace : regex := Cls (fun c => negb (isspace c)).
Definition Word : regex := Cls isword.
(** [.] without [re.DOTALL]: anything but a newline. *)
Definition Dot : regex := Cls (fun c => negb (is_char (chr 10) c)).

Fixpoint nullable (r : regex) : bool :=
  match r with
  | Void => false
  | Eps => true
  | Cls _ => false
  | Cat r1 r2 => nullable r1 && nullable r2
  | Alt r1 r2 => nullable r1 || nullable r2
  | Star _ => true
  end.

Fixpoint deriv (c : ascii) (r : regex) : regex :=
  match r with
  | Void => Void
  | Eps => Void
  | Cls p => if p c then Eps else Void
  | Cat r1 r2 =>
      if nullable r1
      then Alt (Cat (deriv c r1) r2) (deriv c r2)
      else Cat (deriv c r1) r2
  | Alt r1 r2 => Alt (deriv c r1) (deriv c r2)
  | Star r1 => Cat (deriv c r1) (Star r1)
  end.

(** The whole of [s] is matched by [r]. *)
Fixpoint fullmatch (r : regex) (s : str) : bool :=
  match s with
  | [] => nullable r
  | c :: t => fullmatch (deriv c r) t
  end.

(** [re.match(r + '\Z', s)]: the match object's [group()], which is then the
    whole of [s], or [None]. *)
Definition match_Z (r : regex) (s : str) : option str :=
  if fullmatch r s then Some s else None.

(** [re.match(r + '$', s) is not None]: [$] stands at the end of [s] or just
    before a newline that ends [s]. *)
Definition match_dollar (r : regex) (s : str) : bool :=
  fullmatch r s || fullmatch (Cat r (Lit (chr 10))) s.

(** The strings of a regular expression. *)
Inductive lang : regex -> str -> Prop :=
| lang_eps : lang Eps []
| lang_cls p c : p c = true -> lang (Cls p) [c]
| lang_cat r1 r2 s1 s2 :
    lang r1 s1 -> lang r2 s2 -> lang (Cat r1 r2) (s1 ++ s2)
| lang_alt_l r1 r2 s : lang r1 s -> lang (Alt r1 r2) s
| lang_alt_r r1 r2 s : lang r2 s -> lang (Alt r1 r2) s
| lang_star_nil r : lang (Star r) []
| lang_star_app r s1 s2 :
    lang r s1 -> lang (Star r) s2 -> lang (Star r) (s1 ++ s2).

End Re.

(** ** [base_doc.py]: the module-level functions *)

(** [indent_regex = re.compile(r'\s+')], [indent_regex.match(line)]: the
    run of whitespace [line] starts with, [None] when there is none. *)
Definition indent_regex_match (line : str) : option str :=
  match line with
  | c :: _ =>
      if isspace c
      then Some ((fix run (s : str) : str :=
                    match s with
                    | a :: t => if isspace a then a :: run t else []
                    | [] => []
                    end) line)
      else None
  | [] => None
  end.

Definition get_indent (line : str) : str :=
  match indent_regex_match line with
  | None => lit ""
  | Some g => g
  end.

(** [is_empty(line)]: [not line.strip()]. *)
Definition is_empty (line : str) : bool :=
  match strip line with
  | [] => true
  | _ :: _ => false
  end.

(** [remove_indent(lines)] *)
Definition remove_indent (lines : list str) : list str := map lstrip lines.

(** [add_indent(lines, indent)] *)
Definition add_indent (lines : list str) (indent : nat) : list str :=
  let indent_str := repeat (chr 32) indent in
  map (fun line => if is_empty line then line else indent_str ++ line) lines.

(** [fix_star(name)]: [name.replace('*', '\*')]. *)
Definition fix_star (name : str) : str :=
  flat_map (fun c => if is_char (chr 42) c then [chr 92; c] else [c]) name.

(** [re.sub(r'[A-Za-z\\]|\b\s', repl, s)].  Both alternatives consume
    one character, so the substitution goes character by character: a
    letter or a backslash is replaced; a whitespace character is replaced
    when a word boundary stands before it, that is when the character before
    it in [s] is a word character ([prev], [None] at the start of [s]). *)
Definition word_before (prev : option ascii) : bool :=
  match prev with
  | Some p => isword p
  | None => false
  end.

Fixpoint underline_sub (repl : ascii) (prev : option ascii) (s : str) : str :=
  match s with
  | [] => []
  | c :: t =>
      (if isalpha c || is_char (chr 92) c then repl
       else if isspace c && word_before prev then repl
       else c) :: underline_sub repl (Some c) t
  end.

(** The pattern [\s*\S+\s*] of [is_section] (followed by [\Z]). *)
Definition underline_regex : Re.regex :=
  Re.Cat (Re.Star Re.Space) (Re.Cat (Re.Plus Re.NonSpace) (Re.Star Re.Space)).

(** The test of [is_section] on the two lines it peeks at; [None] is the
    [False] of the source. *)
Definition section_header (header line2 : str) : option str :=
  match Re.match_Z underline_regex line2 with
  | None => None
  | Some group =>
      let striped_header := rstrip header in
      let expected_underline1 := underline_sub (chr 45) None striped_header in
      let expected_underline2 := underline_sub (chr 61) None striped_header in
      if str_eqb (rstrip group) expected_underline1
         || str_eqb (rstrip group) expected_underline2
      then Some (strip header)
      else None
  end.

(** [re.split('\s\:\s?', header, maxsplit=1)]: the text before the
    leftmost whitespace-colon and the text after it, a whitespace character
    right after the colon being part of the separator; [None] when the
    pattern is nowhere in [header] (the list returned has one element). *)
Fixpoint split_colon (header : str) : option (str * str) :=
  match header with
  | [] => None
  | c :: t =>
      match t with
      | c1 :: rest =>
          if isspace c && is_char (chr 58) c1
          then Some ([], match rest with
                         | c2 :: rest' => if isspace c2 then rest' else rest
                         | [] => []
                         end)
          else match split_colon t with
               | Some (a, b) => Some (c :: a, b)
               | None => None
               end
      | [] => None
      end
  end.

(** ** [base_doc.py]: class [BaseDoc] *)

(** The instance attributes: [_docstring] (read through the property
    [docstring]), [index] and [headers]. *)
Record BaseDoc : Type := mkBaseDoc {
  docstring : list str;
  index : Z;
  headers : list (str * str)
}.

Inductive exn : Type :=
| IndexError
| AttributeError
| ValueError.

(** How a method call ends: it returns [a] in state [d], it raises, or the
    fuel of a loop of the model runs out. *)
Inductive outcome (A : Type) : Type :=
| Ok (a : A) (d : BaseDoc)
| Raise (e : exn)
| OutOfFuel.

Arguments Raise {A} e.
Arguments OutOfFuel {A}.

(** A method: from the state it is called in, the states it writes, in
    order, and its outcome. *)
Definition M (A : Type) : Type := BaseDoc -> list BaseDoc * outcome A.

Definition ret {A} (a : A) : M A := fun d => ([], Ok a d).

Definition bind {A B} (m : M A) (f : A -> M B) : M B :=
  fun d =>
    match m d with
    | (t1, Ok a d1) => let (t2, r) := f a d1 in (t1 ++ t2, r)
    | (t1, Raise e) => (t1, Raise e)
    | (t1, OutOfFuel) => (t1, OutOfFuel)
    end.

Notation "x <- m ;; k" := (bind m (fun x => k))
  (at level 61, m at next level, right associativity).
Notation "m ;;; k" := (bind m (fun _ => k))
  (at level 61, right associativity).

Definition raise {A} (e : exn) : M A := fun _ => ([], Raise e).
Definition out_of_fuel {A} : M A := fun _ => ([], OutOfFuel).

Definition get_index : M Z := fun d => ([], Ok (index d) d).
Definition get_docstring : M (list str) := fun d => ([], Ok (docstring d) d).
Definition get_headers : M (list (str * str)) :=
  fun d => ([], Ok (headers d) d).

(** [self.index = i] *)
Definition set_index (i : Z) : M unit :=
  fun d =>
    let d' := mkBaseDoc (docstring d) i (headers d) in ([d'], Ok tt d').

(** An edit of the list [self._docstring] in place. *)
Definition set_docstring (l : list str) : M unit :=
  fun d =>
    let d' := mkBaseDoc l (index d) (headers d) in ([d'], Ok tt d').

(** The outcome of a call and the states written during it. *)
Definition run {A} (m : M A) (d : BaseDoc) : outcome A := snd (m d).
Definition states {A} (m : M A) (d : BaseDoc) : list BaseDoc := fst (m d).

(** [eol] *)
Definition eol : M bool :=
  i <- get_index ;;
  l <- get_docstring ;;
  ret (len l <=? i)%Z.

(** [peek(ahead)] *)
Definition peek (ahead : Z) : M str :=
  i <- get_index ;;
  let position := (i + ahead)%Z in
  l <- get_docstring ;;
  match getitem l position with
  | Some line => ret line
  | None => ret (lit "")
  end.

(** [read()] *)
Definition read : M str :=
  i <- get_index ;;
  l <- get_docstring ;;
  match getitem l i with
  | Some line => j <- get_index ;; set_index (j + 1) ;;; ret line
  | None => raise IndexError
  end.

(** [remove_lines(index, count)] *)
Definition remove_lines (idx count : Z) : M unit :=
  l <- get_docstring ;;
  set_docstring (del_slice l idx (idx + count)).

(** [insert_lines(lines, index)]: the loop over [reversed(lines)]. *)
Fixpoint insert_each (rlines : list str) (idx : Z) : M unit :=
  match rlines with
  | [] => ret tt
  | line :: t =>
      l <- get_docstring ;;
      set_docstring (list_insert l idx line) ;;;
      insert_each t idx
  end.

Definition insert_lines (lines : list str) (idx : Z) : M unit :=
  insert_each (rev lines) idx.

(** [seek_to_next_non_empty_line()]: the loop over the copy
    [docstring[self.index:]]. *)
Fixpoint seek_each (lines : list str) : M unit :=
  match lines with
  | [] => ret tt
  | line :: t =>
      if negb (is_empty line) then ret tt
      else (i <- get_index ;; set_index (i + 1) ;;; seek_each t)
  end.

Definition seek_to_next_non_empty_line : M unit :=
  l <- get_docstring ;;
  i <- get_index ;;
  seek_each (slice_from l i).

(** [is_section()] *)
Definition is_section : M (option str) :=
  e <- eol ;;
  if e then ret None
  else
    header <- peek 0 ;;
    line2 <- peek 1 ;;
    ret (section_header header line2).

(** [_refactor_header(header)] *)
Definition _refactor_header (header : str) : M (list str) :=
  idx <- get_index ;;
  line <- peek 0 ;;
  let indent := get_indent line in
  remove_lines idx 2 ;;;
  let header := strip_chars (lit "'") (repr header) in
  let descriptions := [indent ++ lit ".. rubric:: " ++ header; lit ""] in
  insert_lines descriptions idx ;;;
  i <- get_index ;;
  set_index (i + len descriptions) ;;;
  ret descriptions.

(** [_refactor(header)].  [BaseDoc] is modelled without subclasses, so the
    one attribute [getattr] finds under a name [_refactor_...] is
    [_refactor_header]; for any other name it raises [AttributeError].  The
    value of [method(header)] is dropped: [_refactor] has no [return] and
    gives [None]. *)
Definition _refactor (header : str) : M unit :=
  hs <- get_headers ;;
  let refactor_postfix := dict_get hs header (lit "header") in
  let method_name := lit "_refactor_" ++ refactor_postfix in
  if str_eqb method_name (lit "_refactor_header")
  then _refactor_header header ;;; ret tt
  else raise AttributeError.

(** [if header:] on the result of [is_section]. *)
Definition truthy (header : option str) : bool :=
  match header with
  | Some (_ :: _) => true
  | _ => false
  end.

(** The [while not self.eol] loop of [parse]. *)
Fixpoint parse_loop (fuel : nat) : M unit :=
  match fuel with
  | O => out_of_fuel
  | S fuel' =>
      e <- eol ;;
      if e then ret tt
      else
        header <- is_section ;;
        if truthy header
        then
          p2 <- peek 2 ;;
          (if is_empty p2
           then (i <- get_index ;; remove_lines (i + 2) 1)
           else ret tt) ;;;
          _refactor (match header with Some h => h | None => lit "" end) ;;;
          parse_loop fuel'
        else
          i <- get_index ;;
          set_index (i + 1) ;;;
          seek_to_next_non_empty_line ;;;
          parse_loop fuel'
  end.

(** [parse()] *)
Definition parse : M unit :=
  set_index 0 ;;;
  seek_to_next_non_empty_line ;;;
  l <- get_docstring ;;
  parse_loop (S (length l)).

(** [__init__(lines, headers)] for [lines] given as a list: the attributes
    are set and [parse] is called. *)
Definition init (lines : list str) (hs : list (str * str)) : BaseDoc :=
  mkBaseDoc lines 0 hs.

Definition BaseDoc_new (lines : list str) (hs : list (str * str))
  : list BaseDoc * outcome unit :=
  parse (init lines hs).

(** The [while not self.eol] loop of [get_next_block]. *)
Fixpoint block_loop (fuel : nat) (indent : str) (field : list str)
  : M (list str) :=
  match fuel with
  | O => out_of_fuel
  | S fuel' =>
      e <- eol ;;
      if e then ret field
      else
        peek_0 <- peek 0 ;;
        peek_1 <- peek 1 ;;
        if is_empty peek_0 && negb (startswith peek_1 indent)
        then ret field
        else if negb (is_empty peek_0) && negb (startswith peek_0 indent)
        then ret field
        else
          line <- read ;;
          block_loop fuel' indent (field ++ [rstrip line])
  end.

(** [get_next_block()] *)
Definition get_next_block : M (list str) :=
  start <- get_index ;;
  field_header <- read ;;
  let indent := get_indent field_header ++ lit " " in
  l <- get_docstring ;;
  field <- block_loop (S (length l)) indent [field_header] ;;
  remove_lines start (len field) ;;;
  set_index start ;;;
  ret field.

(** The value a function without side effects returns or the exception
    it raises. *)
Inductive result (A : Type) : Type :=
| Val (a : A)
| Err (e : exn).

Arguments Err {A} e.

(** [parse_field(lines)]: it reads no attribute but [verbose]. *)
Definition parse_field (lines : list str) : result (str * str * list str) :=
  match lines with
  | [] => Err IndexError
  | line0 :: _ =>
      let header := strip line0 in
      match
        (if contains (lit " :") header
         then match split_colon header with
              | Some (a, b) => Val (a, b)
              | None => Err ValueError
              end
         else Val (header, lit ""))
      with
      | Err e => Err e
      | Val (arg_name, arg_type) =>
          if (1 <? len lines)%Z
          then Val (strip arg_name, strip arg_type,
                    tl (map rstrip lines))
          else Val (strip arg_name, strip arg_type, [lit ""])
      end
  end.

(** ** [sectiondoc/items/or_definition_item.py] *)

(** [Item], the named tuple [(term, classifiers, definition)] of
    [sectiondoc.items.item]. *)
Record Item : Type := mkItem {
  term : str;
  classifiers : list str;
  definition : list str
}.

(** Modelled from the spec: [header_regex] of [sectiondoc/items/regex.py],
    which is not among the sources.  The spec separates the term from the
    classifiers by [" : "] and tests for the substring [" :"];
    [header_regex.split(header, maxsplit=1)] is taken to split at the
    leftmost whitespace-colon, with one whitespace character after the colon
    belonging to the separator, as [parse_field] of [base_doc.py] does. *)
Definition header_regex_split (header : str) : option (str * str) :=
  split_colon header.

Module OrDefinitionItem.

(** The character class [[\w.]]. *)
Definition word_or_dot (c : ascii) : bool := isword c || is_char (chr 46) c.

(** [\s[\w.]+(\(.*\))?]: a space, dot separated words and maybe a
    signature. *)
Definition dotted_words : Re.regex :=
  Re.Cat Re.Space
    (Re.Cat (Re.Plus (Re.Cls word_or_dot))
       (Re.Opt (Re.Cat (Re.Lit (chr 40))
                  (Re.Cat (Re.Star Re.Dot) (Re.Lit (chr 41)))))).

(** [definition_regex], without the closing [$]. *)
Definition definition_regex : Re.regex :=
  Re.Cat (Re.Upto2 (Re.Lit (chr 42)))
    (Re.Cat (Re.Plus Re.Word)
       (Re.Cat Re.Space
          (Re.Cat (Re.Lit (chr 58))
             (Re.Opt
                (Re.Alt Re.Space
                   (Re.Alt dotted_words
                      (Re.Cat dotted_words
                         (Re.Cat Re.Space
                            (Re.Cat (Re.Lit (chr 111))
                               (Re.Cat (Re.Lit (chr 114))
                                  dotted_words)))))))))).

(** [is_item(line)] *)
Definition is_item (line : str) : bool :=
  Re.match_dollar definition_regex line.

Section Parse.

(** [trim_indent] of [sectiondoc.util], which is not among the sources: it
    is only applied to the lines after the header and stays a parameter. *)
Variable trim_indent : list str -> list str.

(** [parse(lines)] *)
Definition parse (lines : list str) : result Item :=
  match lines with
  | [] => Err IndexError
  | line0 :: _ =>
      let header := strip line0 in
      match
        (if contains (lit " :") header
         then match header_regex_split header with
              | Some (a, b) => Val (a, b)
              | None => Err ValueError
              end
         else Val (header, lit ""))
      with
      | Err e => Err e
      | Val (term, classifiers) =>
          let classifiers := map strip (split classifiers (lit "or")) in
          let classifiers :=
            if list_eq_dec (list_eq_dec ascii_dec) classifiers [lit ""]
            then [] else classifiers in
          let trimed_lines :=
            if (1 <? len lines)%Z then trim_indent (tl lines)
            else [lit ""] in
          let definition := map rstrip trimed_lines in
          Val (mkItem (strip term) classifiers definition)
      end
  end.

End Parse.

End OrDefinitionItem.

(** ** Notions of the specification *)

(** The cursor invariant of the line buffer. *)
Definition cursor_inv (d : BaseDoc) : Prop :=
  (0 <= index d <= len (docstring d))%Z.

(** A character that is not whitespace: the class [\S]. *)
Definition nonspace (c : ascii) : bool := negb (isspace c).

(** A non-empty string without whitespace. *)
Definition token (s : str) : bool :=
  match s with
  | [] => false
  | _ :: _ => forallb nonspace s
  end.

(** The separator of [classifiers.split('or')]. *)
Definition or_ : str := lit "or".

(** What [parse] makes of the lines after the header. *)
Definition definition_of (trim_indent : list str -> list str)
  (rest : list str) : list str :=
  map rstrip (match rest with
              | [] => [lit ""]
              | _ :: _ => trim_indent rest
              end).

(** The line [peek(k)] returns in state [d]. *)
Definition line_at (d : BaseDoc) (k : Z) : str :=
  match getitem (docstring d) (index d + k) with
  | Some line => line
  | None => lit ""
  end.

(** A line made of one token: whitespace, a non-empty run of characters
    that are not whitespace, whitespace. *)
Definition single_token (s : str) : Prop :=
  exists w1 t w2,
    s = w1 ++ t ++ w2
    /\ forallb isspace w1 = true
    /\ token t = true
    /\ forallb isspace w2 = true.

(** The character before position [i] of [h]. *)
Definition char_before (h : str) (i : nat) : option ascii :=
  match i with
  | O => None
  | S j => nth_error h j
  end.

(** [u] is the underline expected for the header [h]: position by position,
    a letter, a backslash, and a whitespace character that follows a word
    character are replaced by [repl]; every other character stays. *)
Definition is_underline_of (repl : ascii) (h u : str) : Prop :=
  length u = length h
  /\ forall i c,
       nth_error h i = Some c ->
       nth_error u i =
       Some (if isalpha c || is_char (chr 92) c
                || (isspace c && word_before (char_before h i))
             then repl else c).

(** The two lines make a section header with its underline: the second is
    a single token that, without its trailing whitespace, is the underline
    in [-] or in [=] of the first without its trailing whitespace. *)
Definition underlined (header line2 : str) : Prop :=
  single_token line2
  /\ (is_underline_of (chr 45) (rstrip header) (rstrip line2)
      \/ is_underline_of (chr 61) (rstrip header) (rstrip line2)).

(** A section header is recognized at the cursor of [d]. *)
Definition recognized (d : BaseDoc) : Prop :=
  (index d < len (docstring d))%Z
  /\ underlined (line_at d 0) (line_at d 1).

(** The continuation rule of a block whose body indent is [indent]: a
    blank line continues the block when the line after it, [next], starts
    with [indent]; a line that is not blank when it starts with [indent]
    itself. *)
Definition continues (indent line next : str) : bool :=
  if is_empty line then startswith next indent else startswith line indent.

(** The lines that continue a block, among the lines [rest] that follow its
    header: the lines up to the first one the rule does not let in, or all
    of [rest].  The line after the last line of the buffer is read as the
    empty string. *)
Fixpoint continuation (indent : str) (rest : list str) : list str :=
  match rest with
  | [] => []
  | line :: rest' =>
      if continues indent line (hd (lit "") rest')
      then line :: continuation indent rest'
      else []
  end.

(** The number of empty lines [lines] starts with. *)
Fixpoint leading_empty (lines : list str) : nat :=
  match lines with
  | [] => O
  | line :: rest => if is_empty line then S (leading_empty rest) else O
  end.

(** The two lines [_refactor_header] puts in the place of a header written
    with the indent [indent] and of its underline. *)
Definition rubric_lines (indent header : str) : list str :=
  [indent ++ lit ".. rubric:: " ++ strip_chars (lit "'") (repr header);
   lit ""].

(** The state with the lines [l] and the cursor at [n]. *)
Definition at_line (l : list str) (hs : list (str * str)) (n : nat)
  : BaseDoc :=
  mkBaseDoc l (Z.of_nat n) hs.

(** No section header is recognized at position [n] of [l]. *)
Definition no_header_at (l : list str) (n : nat) : Prop :=
  section_header (nth n l (lit "")) (nth (S n) l (lit "")) = None.

(** No adjacent pair of lines of [l] is recognized as a section header
    with its underline. *)
Definition no_header (l : list str) : Prop :=
  forall n, no_header_at l n.

(** The lines left by the constructor [BaseDoc(lines, headers)], which
    runs [parse]; [None] when the run raises. *)
Definition refactored (lines : list str) (hs : list (str * str))
  : option (list str) :=
  match run parse (init lines hs) with
  | Ok _ d => Some (docstring d)
  | _ => None
  end.

(** The lines after the removal of the line under the underline when it is
    blank. *)
Definition without_blank (l : list str) (n : nat) : list str :=
  if is_empty (nth (n + 2) l (lit ""))
  then firstn (n + 2) l ++ skipn (n + 3) l
  else l.

(** The number of tokens of a line: a token starts at a character that is
    not whitespace and stands first or after whitespace ([prev_space]). *)
Fixpoint count_tokens (prev_space : bool) (s : str) : nat :=
  match s with
  | [] => O
  | c :: t =>
      (if prev_space && nonspace c then 1 else 0)%nat
      + count_tokens (isspace c) t
  end.

(** No section header is recognized at the positions of [l] below [n]. *)
Definition header_free_below (l : list str) (n : nat) : Prop :=
  forall j, (j < n)%nat -> no_header_at l j.

(** ** The functions of the sources that no claim is about *)

(** [re.match(r, s) is not None] for a pattern without an anchor at its
    end: some prefix of [s] is matched by [r]. *)
Fixpoint re_prefixmatch (r : Re.regex) (s : str) : bool :=
  Re.nullable r ||
  match s with
  | [] => false
  | c :: t => re_prefixmatch (Re.deriv c r) t
  end.

(** The text [s] as a pattern.  It is used for the [indent] that
    [is_variable_field] and [is_method_field] put in front of their
    patterns: an indent is made of whitespace (it comes from [get_indent]),
    and in a pattern a whitespace character stands for itself. *)
Fixpoint re_text (s : str) : Re.regex :=
  match s with
  | [] => Re.Eps
  | c :: t => Re.Cat (Re.Lit c) (re_text t)
  end.

(** [indent + r'\*?\*?\w+\s:'], the pattern of [is_variable_field] before
    its last group. *)
Definition variable_field_regex (indent : str) : Re.regex :=
  Re.Cat (re_text indent)
    (Re.Cat (Re.Opt (Re.Lit (chr 42)))
       (Re.Cat (Re.Opt (Re.Lit (chr 42)))
          (Re.Cat (Re.Plus Re.Word)
             (Re.Cat Re.Space (Re.Lit (chr 58)))))).

(** [is_variable_field(line, indent)], as the truth value of the match: the
    last group [(\s+|$)] is either whitespace, anywhere, or the end of the
    line. *)
Definition is_variable_field (line indent : str) : bool :=
  re_prefixmatch (Re.Cat (variable_field_regex indent) (Re.Plus Re.Space))
    line
  || Re.match_dollar (variable_field_regex indent) line.

(** [is_method_field(line, indent)], as the truth value of the match of
    [indent + r'\w+\(.*\)\s*']. *)
Definition is_method_field (line indent : str) : bool :=
  re_prefixmatch
    (Re.Cat (re_text indent)
       (Re.Cat (Re.Plus Re.Word)
          (Re.Cat (Re.Lit (chr 40))
             (Re.Cat (Re.Star Re.Dot)
                (Re.Cat (Re.Lit (chr 41)) (Re.Star Re.Space))))))
    line.

(** [replace_at(word, line, index)]: the slice assignment
    [line_list[index:(index + word_length)] = list(word)].  Both bounds are
    brought into the list; when the second falls before the first, nothing
    is taken out and [word] goes in at the first. *)
Definition replace_at (word line : str) (idx : Z) : str :=
  let a := slice_bound line idx in
  let b := slice_bound line (idx + len word) in
  firstn a line ++ word ++ skipn (Nat.max a b) line.

(** [max(values)] of Python on a list of integers: [ValueError] on the
    empty list. *)
Definition py_max (values : list Z) : result Z :=
  match values with
  | [] => Err ValueError
  | v :: rest => Val (fold_left Z.max rest v)
  end.

(** [sep.join(pieces)] *)
Fixpoint join (sep : str) (pieces : list str) : str :=
  match pieces with
  | [] => []
  | [p] => p
  | p :: rest => p ++ sep ++ join sep rest
  end.

(** A parsed field: the tuple (name, type, description) that [parse_field]
    returns. *)
Definition field : Type := (str * str * list str)%type.

(** [max_header_length(fields)] *)
Definition max_header_length (fields : list field) : result Z :=
  py_max (map (fun f : field => len (fst (fst f))) fields).

(** [max_desc_length(fields)] *)
Definition max_desc_length (fields : list field) : result Z :=
  py_max (map (fun f : field => len (join (lit " ") (map strip (snd f))))
            fields).

(** A value or an exception of a function without side effects, inside a
    method. *)
Definition lift {A} (r : result A) : M A :=
  match r with
  | Val a => ret a
  | Err e => raise e
  end.

(** The [while] loop of [extract_fields]; [is_field] is the checking
    function chosen from [field_check]. *)
Fixpoint extract_loop (is_field : str -> str -> bool) (indent : str)
  (fuel : nat) (parameters : list field) : M (list field) :=
  match fuel with
  | O => out_of_fuel
  | S fuel' =>
      e <- eol ;;
      if e then ret parameters
      else
        p0 <- peek 0 ;;
        go <- (if is_field p0 indent then ret true
               else (p1 <- peek 1 ;; ret (is_field p1 indent))) ;;
        if negb go then ret parameters
        else
          p <- peek 0 ;;
          (if is_empty p
           then (i <- get_index ;; remove_lines i 1)
           else ret tt) ;;;
          fld <- get_next_block ;;
          parameter <- lift (parse_field fld) ;;
          extract_loop is_field indent fuel' (parameters ++ [parameter])
  end.

(** [extract_fields(indent, field_check)]: without a [field_check] the
    fields are found with [is_variable_field]. *)
Definition extract_fields (indent : str)
  (field_check : option (str -> str -> bool)) : M (list field) :=
  let is_field :=
    match field_check with
    | Some check => check
    | None => is_variable_field
    end in
  l <- get_docstring ;;
  extract_loop is_field indent (S (length l)) [].

(** The [while] loop of [get_next_paragraph]. *)
Fixpoint paragraph_loop (fuel : nat) (lines : list str) : M (list str) :=
  match fuel with
  | O => out_of_fuel
  | S fuel' =>
      e <- eol ;;
      if e then ret lines
      else
        p <- peek 0 ;;
        if is_empty p then ret lines
        else (line <- read ;; paragraph_loop fuel' (lines ++ [line]))
  end.

(** [get_next_paragraph()] *)
Definition get_next_paragraph : M (list str) :=
  l <- get_docstring ;;
  start <- get_index ;;
  lines <- paragraph_loop (S (length l)) [] ;;
  l' <- get_docstring ;;
  i <- get_index ;;
  set_docstring (del_slice l' start i) ;;;
  ret lines.

(** [l[a:b]] *)
Definition getslice {A} (l : list A) (a b : Z) : list A :=
  firstn (slice_bound l b - slice_bound l a) (skipn (slice_bound l a) l).

(** The lines of a paragraph at the head of [rest]: the lines before the
    first empty one. *)
Fixpoint paragraph (rest : list str) : list str :=
  match rest with
  | [] => []
  | line :: rest' => if is_empty line then [] else line :: paragraph rest'
  end.

(** Every value of the dict [hs] names the method [_refactor_header]; the
    empty dict is such a dict. *)
Definition default_headers (hs : list (str * str)) : Prop :=
  forall key, dict_get hs key (lit "header") = lit "header".

(** * Properties *)

Example ex_parse_field :
  parse_field [lit "x : int"; lit "    The x value.  "]
  = Val (lit "x", lit "int", [lit "    The x value."]).
Proof. reflexivity. Qed.

Example ex_or_parse :
  OrDefinitionItem.parse (fun l => l) [lit "x : int or float"]
  = Val (mkItem (lit "x") [lit "int"; lit "float"] [lit ""]).
Proof. reflexivity. Qed.

Example ex_is_item :
  OrDefinitionItem.is_item (lit "x : int or float") = true
  /\ OrDefinitionItem.is_item (lit "**kw : numpy.array(3) or None") = true
  /\ OrDefinitionItem.is_item (lit "x :") = true
  /\ OrDefinitionItem.is_item (lit "x : a or b or c") = false
  /\ OrDefinitionItem.is_item (lit "x: int") = false.
Proof. repeat split; reflexivity. Qed.

Example ex_section_header :
  section_header (lit "  Raises\*  ") (lit "  -------*") = Some (lit "Raises\*")
  /\ section_header (lit "Two words") (lit "=========") = Some (lit "Two words")
  /\ section_header (lit "a  b") (lit "-- -") = None
  /\ section_header (lit "Name") (lit " ----") = None.
Proof. repeat split; reflexivity. Qed.

Example ex_parse :
  run parse (init [lit ""; lit "Notes"; lit "-----"; lit ""; lit "text"] [])
  = Ok tt
      (mkBaseDoc [lit ""; lit ".. rubric:: Notes"; lit ""; lit "text"] 4 []).
Proof. vm_compute. reflexivity. Qed.

(** ** The monad *)

Lemma run_bind A B (m : M A) (f : A -> M B) d :
  run (bind m f) d =
  match run m d with
  | Ok a d1 => run (f a) d1
  | Raise e => Raise e
  | OutOfFuel => OutOfFuel
  end.
Proof.
  unfold run, bind. destruct (m d) as [t1 [a d1|e|]]; simpl; auto.
  destruct (f a d1); reflexivity.
Qed.

Lemma states_bind A B (m : M A) (f : A -> M B) d :
  states (bind m f) d =
  states m d ++
  match run m d with
  | Ok a d1 => states (f a) d1
  | _ => []
  end.
Proof.
  unfold states, run, bind. destruct (m d) as [t1 [a d1|e|]]; simpl;
    try (rewrite app_nil_r; reflexivity).
  destruct (f a d1); reflexivity.
Qed.

Lemma M_eta A (m : M A) d : m d = (states m d, run m d).
Proof. unfold states, run. destruct (m d); reflexivity. Qed.

(** ** Python lists *)

Lemma getitem_nonneg A (l : list A) i :
  (0 <= i)%Z -> getitem l i = nth_error l (Z.to_nat i).
Proof.
  intros H. unfold getitem. destruct (0 <=? i)%Z eqn:E; auto.
  apply Z.leb_gt in E. lia.
Qed.

Lemma getitem_beyond A (l : list A) i :
  (len l <= i)%Z -> getitem l i = None.
Proof.
  intros H. unfold len in *. rewrite getitem_nonneg by lia.
  apply nth_error_None. lia.
Qed.

Lemma getitem_within A (l : list A) i :
  (0 <= i < len l)%Z -> exists x, getitem l i = Some x.
Proof.
  intros H. unfold len in *. rewrite getitem_nonneg by lia.
  destruct (nth_error l (Z.to_nat i)) eqn:E; eauto.
  apply nth_error_None in E. lia.
Qed.

(** ** The line buffer: [read] and [peek] *)

(** C7.  In a state whose cursor is not negative, [read] raises [IndexError]
    (the out-of-range error) and writes nothing when [index >= length];
    otherwise it returns the line at position [index], the one state it
    writes has [index] increased by exactly 1, and the lines and the
    headers are unchanged. *)
Theorem read_spec : forall d : BaseDoc,
  (0 <= index d)%Z ->
  ((len (docstring d) <= index d)%Z /\ read d = ([], Raise IndexError))
  \/
  ((index d < len (docstring d))%Z /\
   exists line,
     nth_error (docstring d) (Z.to_nat (index d)) = Some line /\
     let d' := mkBaseDoc (docstring d) (index d + 1) (headers d) in
     read d = ([d'], Ok line d')).
Proof.
  intros d H0.
  destruct (Z_le_gt_dec (len (docstring d)) (index d)) as [Hge|Hlt].
  - left. split; auto.
    unfold read, bind, get_index, get_docstring. simpl.
    rewrite getitem_beyond by assumption. reflexivity.
  - right. split; [lia|].
    destruct (getitem_within (docstring d) (i:=index d)) as [line Hline];
      [lia|].
    exists line. split.
    + rewrite getitem_nonneg in Hline by assumption. exact Hline.
    + unfold read, bind, get_index, get_docstring. simpl.
      rewrite Hline. reflexivity.
Qed.

Lemma read_spec_witness :
  let d := mkBaseDoc [lit "a"; lit "b"] 1 [] in
  read d = ([mkBaseDoc [lit "a"; lit "b"] 2 []],
            Ok (lit "b") (mkBaseDoc [lit "a"; lit "b"] 2 [])).
Proof.
  intro d.
  destruct (@read_spec d) as [[Hge _]|[_ [line [Hl Hr]]]].
  - simpl. lia.
  - exfalso. vm_compute in Hge. apply Hge. reflexivity.
  - vm_compute in Hl. injection Hl as <-. exact Hr.
Defined.

(** C8.  For a cursor and an offset that are not negative, [peek] never
    raises and writes no state: it returns in the state it was called in,
    with the line at [index + offset] when that position is inside the
    buffer and with the empty string when it is at or beyond the end. *)
Theorem peek_spec : forall (d : BaseDoc) (ahead : Z),
  (0 <= index d)%Z -> (0 <= ahead)%Z ->
  exists line,
    peek ahead d = ([], Ok line d) /\
    (((index d + ahead < len (docstring d))%Z /\
      nth_error (docstring d) (Z.to_nat (index d + ahead)) = Some line)
     \/
     ((len (docstring d) <= index d + ahead)%Z /\ line = lit "")).
Proof.
  intros d ahead Hi Ha.
  unfold peek, bind, get_index, get_docstring. simpl.
  destruct (Z_le_gt_dec (len (docstring d)) (index d + ahead)) as [Hge|Hlt].
  - rewrite getitem_beyond by assumption.
    exists (lit ""). split; [reflexivity|]. right. split; auto.
  - destruct (getitem_within (docstring d) (i:=index d + ahead))
      as [line Hline]; [lia|].
    rewrite Hline. exists line. split; [reflexivity|].
    left. split; [lia|].
    rewrite getitem_nonneg in Hline by lia. exact Hline.
Qed.

Lemma peek_spec_witness :
  exists line,
    peek 1 (mkBaseDoc [lit "a"; lit "b"] 1 []) =
      ([], Ok line (mkBaseDoc [lit "a"; lit "b"] 1 []))
    /\ line = lit "".
Proof.
  destruct (@peek_spec (mkBaseDoc [lit "a"; lit "b"] 1 []) 1)
    as [line [Hp [[Hlt _]|[_ He]]]].
  - simpl. lia.
  - lia.
  - exfalso. vm_compute in Hlt. discriminate Hlt.
  - exists line. split; assumption.
Defined.

(** ** Strings *)

Lemma is_char_true a c : is_char a c = true <-> a = c.
Proof. unfold is_char. destruct (ascii_dec a c); split; congruence. Qed.

Lemma is_char_refl a : is_char a a = true.
Proof. apply is_char_true. reflexivity. Qed.

Lemma str_eqb_true a b : str_eqb a b = true <-> a = b.
Proof.
  unfold str_eqb. destruct (list_eq_dec ascii_dec a b); split; congruence.
Qed.

Lemma startswith_nil s : startswith s [] = true.
Proof. destruct s; reflexivity. Qed.

Lemma startswith_app s sub w :
  startswith s sub = true -> startswith (s ++ w) sub = true.
Proof.
  revert s. induction sub as [|a sub IH]; intros s H.
  - apply startswith_nil.
  - destruct s as [|c s]; simpl in *; [discriminate|].
    apply andb_true_iff in H as [H1 H2].
    rewrite H1, (IH _ H2). reflexivity.
Qed.

Lemma startswith_self_app p s : startswith (p ++ s) p = true.
Proof.
  induction p as [|a p IH]; simpl.
  - apply startswith_nil.
  - rewrite is_char_refl, IH. reflexivity.
Qed.

Lemma startswith_split s p :
  startswith s p = true -> exists t, s = p ++ t.
Proof.
  revert s. induction p as [|a p IH]; intros s H.
  - exists s. reflexivity.
  - destruct s as [|c s]; simpl in H; [discriminate|].
    apply andb_true_iff in H as [H1 H2].
    apply is_char_true in H1. subst c.
    destruct (IH _ H2) as [t ->]. exists t. reflexivity.
Qed.

Lemma contains_cons sub c s :
  contains sub (c :: s) = startswith (c :: s) sub || contains sub s.
Proof. reflexivity. Qed.

Lemma contains_app_l sub s w :
  contains sub s = true -> contains sub (s ++ w) = true.
Proof.
  induction s as [|c s IH]; intros H.
  - simpl in H. rewrite orb_false_r in H. destruct sub; [|discriminate].
    simpl app. destruct w; reflexivity.
  - rewrite contains_cons in H.
    change ((c :: s) ++ w) with (c :: (s ++ w)). rewrite contains_cons.
    apply orb_true_iff in H as [H|H].
    + change (c :: s ++ w) with ((c :: s) ++ w).
      rewrite (startswith_app _ _ w H). reflexivity.
    + rewrite (IH H). apply orb_true_r.
Qed.

Lemma contains_app_r sub p s :
  contains sub s = true -> contains sub (p ++ s) = true.
Proof.
  intros H. induction p as [|c p IH]; [exact H|].
  change ((c :: p) ++ s) with (c :: (p ++ s)).
  rewrite contains_cons, IH. apply orb_true_r.
Qed.

Lemma contains_occurrence sub s :
  contains sub s = true <-> exists p t, s = p ++ sub ++ t.
Proof.
  split.
  - induction s as [|c s IH]; intros H.
    + simpl in H. rewrite orb_false_r in H. destruct sub; [|discriminate].
      exists [], []. reflexivity.
    + rewrite contains_cons in H. apply orb_true_iff in H as [H|H].
      * apply startswith_split in H as [t Ht]. exists [], t. exact Ht.
      * destruct (IH H) as [p [t ->]]. exists (c :: p), t. reflexivity.
  - intros [p [t ->]]. apply contains_app_r.
    pose proof (startswith_self_app sub t) as H.
    destruct (sub ++ t) as [|c l].
    + change (contains sub []) with (startswith [] sub || false).
      rewrite H. reflexivity.
    + rewrite contains_cons, H. reflexivity.
Qed.

Lemma lstrip_suffix s : exists w, s = w ++ lstrip s.
Proof.
  induction s as [|c s [w IH]]; simpl.
  - exists []. reflexivity.
  - destruct (isspace c).
    + exists (c :: w). simpl. rewrite <- IH. reflexivity.
    + exists []. reflexivity.
Qed.

Lemma rstrip_prefix s :
  exists w, s = rstrip s ++ w /\ forallb isspace w = true.
Proof.
  induction s as [|c s [w [IH Hw]]]; simpl.
  - exists []. split; reflexivity.
  - destruct (rstrip s) as [|r rs] eqn:E.
    + destruct (isspace c) eqn:Ec.
      * exists (c :: w). simpl in *. subst w. rewrite Ec, Hw.
        split; reflexivity.
      * exists w. simpl in *. subst w. split; auto.
    + exists w. split; auto. simpl. f_equal. exact IH.
Qed.

Lemma contains_lstrip sub s :
  contains sub s = false -> contains sub (lstrip s) = false.
Proof.
  intros H. destruct (contains sub (lstrip s)) eqn:E; auto.
  destruct (lstrip_suffix s) as [w Hs]. rewrite Hs in H.
  rewrite contains_app_r in H by assumption. discriminate.
Qed.

Lemma contains_rstrip sub s :
  contains sub s = false -> contains sub (rstrip s) = false.
Proof.
  intros H. destruct (contains sub (rstrip s)) eqn:E; auto.
  destruct (rstrip_prefix s) as [w [Hs _]]. rewrite Hs in H.
  rewrite contains_app_l in H by assumption. discriminate.
Qed.

Lemma contains_strip sub s :
  contains sub s = false -> contains sub (strip s) = false.
Proof. intros H. apply contains_lstrip, contains_rstrip, H. Qed.

Lemma lstrip_idem s : lstrip (lstrip s) = lstrip s.
Proof.
  induction s as [|c s IH]; simpl; auto.
  destruct (isspace c) eqn:E; auto. simpl. rewrite E. reflexivity.
Qed.

Lemma rstrip_idem s : rstrip (rstrip s) = rstrip s.
Proof.
  induction s as [|c s IH]; simpl; auto.
  destruct (rstrip s) as [|r rs] eqn:E.
  - destruct (isspace c) eqn:Ec; simpl; auto. rewrite Ec. reflexivity.
  - simpl in *. simpl. rewrite IH. reflexivity.
Qed.

Lemma rstrip_lstrip s : rstrip (lstrip s) = lstrip (rstrip s).
Proof.
  induction s as [|c s IH]; simpl; auto.
  destruct (isspace c) eqn:Ec.
  - rewrite IH. destruct (rstrip s) eqn:E; simpl; rewrite ?Ec; auto.
  - simpl. destruct (rstrip s) eqn:E; simpl; rewrite Ec; reflexivity.
Qed.

Lemma strip_idem s : strip (strip s) = strip s.
Proof.
  unfold strip. rewrite rstrip_lstrip, rstrip_idem, lstrip_idem.
  reflexivity.
Qed.

Lemma strip_empty : strip (lit "") = lit "".
Proof. reflexivity. Qed.

Lemma split_colon_cons c c1 rest :
  split_colon (c :: c1 :: rest) =
  if isspace c && is_char (chr 58) c1
  then Some ([], match rest with
                 | c2 :: rest' => if isspace c2 then rest' else rest
                 | [] => []
                 end)
  else match split_colon (c1 :: rest) with
       | Some (a, b) => Some (c :: a, b)
       | None => None
       end.
Proof. reflexivity. Qed.

(** [split_colon] finds a separator wherever [" :"] occurs. *)
Lemma split_colon_some header :
  contains (lit " :") header = true ->
  exists a b, split_colon header = Some (a, b).
Proof.
  induction header as [|c t IH]; intros H.
  - discriminate.
  - rewrite contains_cons in H.
    destruct t as [|c1 rest].
    + simpl in H. rewrite andb_false_r in H. discriminate.
    + rewrite split_colon_cons.
      destruct (isspace c && is_char (chr 58) c1) eqn:E; [eauto|].
      apply orb_true_iff in H as [H|H].
      * exfalso. simpl in H.
        apply andb_true_iff in H as [H1 H2].
        apply andb_true_iff in H2 as [H2 _].
        apply is_char_true in H1, H2. subst c c1.
        discriminate E.
      * destruct (IH H) as [a [b Hab]]. rewrite Hab. eauto.
Qed.

Lemma lstrip_nonspace c s : isspace c = false -> lstrip (c :: s) = c :: s.
Proof. intros H. simpl. rewrite H. reflexivity. Qed.

Lemma rstrip_cons c s :
  rstrip (c :: s) =
  match rstrip s with
  | [] => if isspace c then [] else [c]
  | r => c :: r
  end.
Proof. reflexivity. Qed.

Lemma rstrip_app_spaces s w :
  forallb isspace w = true -> rstrip (s ++ w) = rstrip s.
Proof.
  intros Hw. induction s as [|c s IH].
  - simpl app. induction w as [|a w IHw]; [reflexivity|].
    simpl in Hw. apply andb_true_iff in Hw as [Ha Hw].
    rewrite rstrip_cons, (IHw Hw), Ha. reflexivity.
  - change ((c :: s) ++ w) with (c :: (s ++ w)).
    rewrite !rstrip_cons, IH. reflexivity.
Qed.

Lemma rstrip_nonspaces s :
  forallb nonspace s = true -> rstrip s = s.
Proof.
  induction s as [|c s IH]; intros H; [reflexivity|].
  simpl in H. apply andb_true_iff in H as [Hc Hs].
  rewrite rstrip_cons, (IH Hs).
  unfold nonspace in Hc. apply negb_true_iff in Hc. rewrite Hc.
  destruct s; reflexivity.
Qed.

Lemma rstrip_app_fixed s t :
  t <> [] -> rstrip t = t -> rstrip (s ++ t) = s ++ t.
Proof.
  intros Hne Ht. induction s as [|c s IH]; [exact Ht|].
  change ((c :: s) ++ t) with (c :: (s ++ t)).
  rewrite rstrip_cons, IH.
  destruct (s ++ t) eqn:E; [|reflexivity].
  apply app_eq_nil in E. tauto.
Qed.

Lemma lstrip_spaces_app w s :
  forallb isspace w = true -> lstrip (w ++ s) = lstrip s.
Proof.
  induction w as [|a w IH]; intros H; [reflexivity|].
  simpl in H. apply andb_true_iff in H as [Ha Hw].
  simpl. rewrite Ha. auto.
Qed.

Lemma token_nonspaces s : token s = true -> forallb nonspace s = true.
Proof. destruct s; [discriminate|auto]. Qed.

Lemma token_nonnil s : token s = true -> s <> [].
Proof. destruct s; [discriminate|congruence]. Qed.

Lemma lstrip_token_app s t : token s = true -> lstrip (s ++ t) = s ++ t.
Proof.
  destruct s as [|c s]; [discriminate|]. simpl. intros H.
  apply andb_true_iff in H as [Hc _].
  unfold nonspace in Hc. apply negb_true_iff in Hc. rewrite Hc.
  reflexivity.
Qed.

Lemma strip_token s : token s = true -> strip s = s.
Proof.
  intros H. unfold strip.
  rewrite (rstrip_nonspaces _ (token_nonspaces _ H)).
  pose proof (lstrip_token_app s [] H) as L.
  rewrite app_nil_r in L. exact L.
Qed.

Lemma strip_padded w1 s w2 :
  forallb isspace w1 = true -> forallb isspace w2 = true ->
  token s = true -> strip (w1 ++ s ++ w2) = s.
Proof.
  intros H1 H2 Hs. unfold strip.
  rewrite app_assoc, rstrip_app_spaces by assumption.
  rewrite rstrip_app_fixed;
    [| apply token_nonnil; assumption
     | apply rstrip_nonspaces, token_nonspaces; assumption].
  rewrite lstrip_spaces_app by assumption.
  pose proof (lstrip_token_app s [] Hs) as L.
  rewrite app_nil_r in L. exact L.
Qed.

(** [split_colon] on a whitespace-free term followed by [" : "]. *)
Lemma split_colon_token t x :
  forallb nonspace t = true ->
  split_colon (t ++ lit " : " ++ x) = Some (t, x).
Proof.
  induction t as [|a t IH]; intros H.
  - reflexivity.
  - simpl in H. apply andb_true_iff in H as [Ha Ht].
    unfold nonspace in Ha. apply negb_true_iff in Ha.
    change ((a :: t) ++ lit " : " ++ x) with (a :: (t ++ lit " : " ++ x)).
    destruct (t ++ lit " : " ++ x) as [|c1 rest] eqn:E.
    + apply app_eq_nil in E as [_ E]. discriminate E.
    + rewrite split_colon_cons, Ha. cbn [andb].
      rewrite (IH Ht). reflexivity.
Qed.

(** [s.split('or')] *)

Lemma split_go_or_free p cur :
  contains or_ p = false -> split_go or_ 0 cur p = [rev cur ++ p].
Proof.
  revert cur. induction p as [|a p IH]; intros cur H.
  - simpl. rewrite app_nil_r. reflexivity.
  - rewrite contains_cons in H. apply orb_false_iff in H as [H1 H2].
    cbn [split_go]. rewrite H1, (IH _ H2). cbn [rev].
    rewrite <- app_assoc. reflexivity.
Qed.

Lemma startswith_or a s :
  startswith (a :: s) or_ =
  is_char (chr 111) a &&
  match s with
  | b :: _ => is_char (chr 114) b
  | [] => false
  end.
Proof.
  unfold or_. cbn. destruct s as [|b s]; [reflexivity|].
  cbn. rewrite startswith_nil, andb_true_r. reflexivity.
Qed.

Lemma startswith_or_app a p rest :
  startswith (a :: p) or_ = false ->
  startswith (a :: p ++ or_ ++ rest) or_ = false.
Proof.
  rewrite !startswith_or. destruct (is_char (chr 111) a); [|reflexivity].
  destruct p as [|b p]; [reflexivity|]. exact (fun H => H).
Qed.

Lemma split_go_or_app p cur rest :
  contains or_ p = false ->
  split_go or_ 0 cur (p ++ or_ ++ rest)
  = (rev cur ++ p) :: split_go or_ 0 [] rest.
Proof.
  revert cur. induction p as [|a p IH]; intros cur H.
  - cbn. rewrite app_nil_r. rewrite startswith_nil. reflexivity.
  - rewrite contains_cons in H. apply orb_false_iff in H as [H1 H2].
    change ((a :: p) ++ or_ ++ rest) with (a :: p ++ or_ ++ rest).
    cbn [split_go]. rewrite (@startswith_or_app a p rest H1), (IH _ H2).
    cbn [rev]. rewrite <- app_assoc. reflexivity.
Qed.

Lemma contains_or_space_r s :
  contains or_ s = false -> contains or_ (s ++ lit " ") = false.
Proof.
  induction s as [|a s IH]; intros H; [reflexivity|].
  rewrite contains_cons in H. apply orb_false_iff in H as [H1 H2].
  change ((a :: s) ++ lit " ") with (a :: (s ++ lit " ")).
  rewrite contains_cons, (IH H2), orb_false_r.
  rewrite startswith_or in *.
  destruct (is_char (chr 111) a); [|reflexivity].
  destruct s as [|b s]; [reflexivity|]. exact H1.
Qed.

Lemma contains_or_space_l s :
  contains or_ s = false -> contains or_ (lit " " ++ s) = false.
Proof.
  intros H. change (lit " " ++ s) with (chr 32 :: s).
  rewrite contains_cons, H. reflexivity.
Qed.

(** ** The item parser *)

Section ItemParser.

Variable trim_indent : list str -> list str.

Lemma len_gt_1 A (x : A) (rest : list A) :
  (1 <? len (x :: rest))%Z = match rest with [] => false | _ => true end.
Proof.
  unfold len. destruct rest; simpl length.
  - reflexivity.
  - apply Z.ltb_lt. lia.
Qed.

Lemma parse_no_colon line0 rest :
  contains (lit " :") line0 = false ->
  OrDefinitionItem.parse trim_indent (line0 :: rest)
  = Val (mkItem (strip line0) [] (definition_of trim_indent rest)).
Proof.
  intros H. unfold OrDefinitionItem.parse.
  rewrite (contains_strip _ _ H), strip_idem, len_gt_1.
  unfold definition_of. destruct rest; reflexivity.
Qed.

Lemma parse_field_no_colon line0 rest :
  contains (lit " :") line0 = false ->
  parse_field (line0 :: rest)
  = Val (strip line0, lit "",
         match rest with [] => [lit ""] | _ :: _ => map rstrip rest end).
Proof.
  intros H. unfold parse_field.
  rewrite (contains_strip _ _ H), strip_idem, len_gt_1.
  destruct rest; reflexivity.
Qed.

(** C6.  A block whose header line has no substring [" :"] parses to the
    stripped header as the term and to an empty list of classifiers; the
    word [or] in the header does not split anything.  [parse_field] of
    [base_doc.py] likewise returns the stripped header and an empty type. *)
Theorem header_without_space_colon : forall (line0 : str) (rest : list str),
  contains (lit " :") line0 = false ->
  OrDefinitionItem.parse trim_indent (line0 :: rest)
  = Val (mkItem (strip line0) [] (definition_of trim_indent rest))
  /\ parse_field (line0 :: rest)
     = Val (strip line0, lit "",
            match rest with [] => [lit ""] | _ :: _ => map rstrip rest end).
Proof.
  intros line0 rest H. split.
  - apply parse_no_colon, H.
  - apply parse_field_no_colon, H.
Qed.

(** [OrDefinitionItem.parse] raises nothing on a block that has a header
    line: the one exception it can raise is the [IndexError] of [lines[0]]
    on an empty block. *)
Lemma parse_total line0 rest :
  exists item, OrDefinitionItem.parse trim_indent (line0 :: rest) = Val item.
Proof.
  unfold OrDefinitionItem.parse, header_regex_split.
  destruct (contains (lit " :") (strip line0)) eqn:E.
  - destruct (split_colon_some _ E) as [a [b ->]]. eauto.
  - eauto.
Qed.

(** A classifier list that is not empty comes from a header line in which
    a space stands right before a colon. *)
Lemma classifiers_need_space_colon line0 rest item :
  OrDefinitionItem.parse trim_indent (line0 :: rest) = Val item ->
  classifiers item <> [] ->
  exists i, nth_error line0 i = Some (chr 32)
            /\ nth_error line0 (S i) = Some (chr 58).
Proof.
  intros Hp Hc.
  destruct (contains (lit " :") line0) eqn:E.
  - apply contains_occurrence in E as [p [t ->]].
    exists (length p). split.
    + rewrite nth_error_app2 by lia. rewrite Nat.sub_diag. reflexivity.
    + rewrite nth_error_app2 by lia.
      replace (S (length p) - length p)%nat with 1%nat by lia. reflexivity.
  - rewrite (parse_no_colon _ rest E) in Hp. injection Hp as <-.
    exfalso. apply Hc. reflexivity.
Qed.

Lemma no_space_colon line0 :
  (forall i, nth_error line0 i = Some (chr 32) ->
             nth_error line0 (S i) <> Some (chr 58)) ->
  contains (lit " :") line0 = false.
Proof.
  intros H. destruct (contains (lit " :") line0) eqn:E; auto.
  exfalso. apply contains_occurrence in E as [p [t ->]].
  apply (H (length p)).
  - rewrite nth_error_app2 by lia. rewrite Nat.sub_diag. reflexivity.
  - rewrite nth_error_app2 by lia.
    replace (S (length p) - length p)%nat with 1%nat by lia. reflexivity.
Qed.

(** C10, as amended.  When no colon of the header line stands right after
    a space, the test for [" :"] fails and the whole stripped header, colons
    included, is the term, with no classifiers ([parse]) and an empty type
    ([parse_field]).  This covers a colon after a word ([x: int]) and a
    colon after a tab. *)
Theorem colon_without_space : forall (line0 : str) (rest : list str),
  (forall i, nth_error line0 i = Some (chr 32) ->
             nth_error line0 (S i) <> Some (chr 58)) ->
  OrDefinitionItem.parse trim_indent (line0 :: rest)
  = Val (mkItem (strip line0) [] (definition_of trim_indent rest))
  /\ parse_field (line0 :: rest)
     = Val (strip line0, lit "",
            match rest with [] => [lit ""] | _ :: _ => map rstrip rest end).
Proof.
  intros line0 rest H.
  split; [apply parse_no_colon | apply parse_field_no_colon];
    apply no_space_colon, H.
Qed.

End ItemParser.

Lemma header_without_space_colon_witness :
  OrDefinitionItem.parse (fun l => l) [lit "Returns or"]
  = Val (mkItem (lit "Returns or") [] [lit ""])
  /\ parse_field [lit "Returns or"]
     = Val (lit "Returns or", lit "", [lit ""]).
Proof.
  exact (@header_without_space_colon (fun l => l) (lit "Returns or") []
           eq_refl).
Defined.

(** C10 as it is stated fails: the header [x: int : float] contains a colon
    that no whitespace precedes, and yet its second colon, which follows a
    space, splits it into the term [x: int] and the classifier [float]. *)
Lemma colon_without_space_counterexample :
  ~ (forall (line0 : str) (rest : list str),
       (exists i c, nth_error line0 i = Some c /\ isspace c = false
                    /\ nth_error line0 (S i) = Some (chr 58)) ->
       OrDefinitionItem.parse (fun l => l) (line0 :: rest)
       = Val (mkItem (strip line0) [] (definition_of (fun l => l) rest))).
Proof.
  intros H.
  specialize (H (lit "x: int : float") []).
  assert (Hp : OrDefinitionItem.parse (fun l => l) [lit "x: int : float"]
               = Val (mkItem (lit "x: int") [lit "float"] [lit ""]))
    by reflexivity.
  rewrite Hp in H.
  assert (Hex : exists i c,
             nth_error (lit "x: int : float") i = Some c
             /\ isspace c = false
             /\ nth_error (lit "x: int : float") (S i) = Some (chr 58)).
  { exists 0%nat, (chr 120). repeat split. }
  specialize (H Hex). discriminate H.
Qed.

Lemma colon_without_space_witness :
  OrDefinitionItem.parse (fun l => l) [lit "x: int"]
  = Val (mkItem (lit "x: int") [] [lit ""])
  /\ parse_field [lit "x: int"] = Val (lit "x: int", lit "", [lit ""]).
Proof.
  apply (@colon_without_space (fun l => l) (lit "x: int") []).
  intros i Hi Hc.
  do 6 (destruct i as [|i]; [cbn in Hi, Hc; congruence|]).
  cbn in Hi. destruct i; discriminate Hi.
Defined.

(** C4.  [classifiers.split('or')] cuts at every occurrence of the two
    letters, inside words too: the single classifier [torch.Tensor] comes
    out as the three classifiers [t], [ch.Tens] and the empty string. *)
Theorem or_split_inside_words : forall trim_indent : list str -> list str,
  OrDefinitionItem.parse trim_indent [lit "x : torch.Tensor"]
  = Val (mkItem (lit "x") [lit "t"; lit "ch.Tens"; lit ""] [lit ""]).
Proof. intros trim_indent. reflexivity. Qed.

(** C5.  The code on a header with a third classifier after a second
    [or]: [is_item] accepts the line [x : f(a) or g(b) or c], the signature
    of the first classifier taking in [" or g(b)"], and [parse] returns the
    three classifiers [f(a)], [g(b)] and [c] without any error, whatever
    [trim_indent] is.  The class docstring has only two classifiers
    accepted. *)
Theorem three_classifiers_accepted :
  OrDefinitionItem.is_item (lit "x : f(a) or g(b) or c") = true
  /\ forall trim_indent : list str -> list str,
       OrDefinitionItem.parse trim_indent [lit "x : f(a) or g(b) or c"]
       = Val (mkItem (lit "x") [lit "f(a)"; lit "g(b)"; lit "c"] [lit ""]).
Proof. split; [reflexivity | intros trim_indent; reflexivity]. Qed.

(** [parse] has no check on the number of classifiers: any header
    [term : c1 or c2 or c3] whose term and three segments are non-empty and
    free of whitespace, no segment containing the letters [or], is parsed
    without an error into the term and the three classifiers [c1], [c2],
    [c3]. *)
Lemma three_classifiers_parse :
  forall (trim_indent : list str -> list str) (t c1 c2 c3 : str)
         (rest : list str),
  token t = true ->
  token c1 = true -> token c2 = true -> token c3 = true ->
  contains or_ c1 = false -> contains or_ c2 = false ->
  contains or_ c3 = false ->
  OrDefinitionItem.parse trim_indent
    ((t ++ lit " : " ++ c1 ++ lit " or " ++ c2 ++ lit " or " ++ c3) :: rest)
  = Val (mkItem t [c1; c2; c3] (definition_of trim_indent rest)).
Proof.
  intros trim_indent t c1 c2 c3 rest Ht H1 H2 H3 F1 F2 F3.
  set (cls := c1 ++ lit " or " ++ c2 ++ lit " or " ++ c3).
  assert (Hstrip : strip (t ++ lit " : " ++ cls) = t ++ lit " : " ++ cls).
  { unfold strip.
    replace (t ++ lit " : " ++ cls)
      with ((t ++ lit " : " ++ c1 ++ lit " or " ++ c2 ++ lit " or ") ++ c3)
      by (unfold cls; rewrite <- !app_assoc; reflexivity).
    rewrite rstrip_app_fixed;
      [| apply token_nonnil; assumption
       | apply rstrip_nonspaces, token_nonspaces; assumption].
    rewrite <- app_assoc. apply lstrip_token_app, Ht. }
  assert (Hcontains : contains (lit " :") (t ++ lit " : " ++ cls) = true).
  { apply contains_occurrence. exists t, (lit " " ++ cls). reflexivity. }
  assert (Hsplit :
            split cls or_
            = [c1 ++ lit " "; lit " " ++ c2 ++ lit " "; lit " " ++ c3]).
  { unfold split, cls.
    replace (c1 ++ lit " or " ++ c2 ++ lit " or " ++ c3)
      with ((c1 ++ lit " ") ++ or_
            ++ ((lit " " ++ c2 ++ lit " ") ++ or_ ++ (lit " " ++ c3)))
      by (rewrite <- !app_assoc; reflexivity).
    rewrite split_go_or_app by (apply contains_or_space_r, F1).
    rewrite split_go_or_app
      by (apply contains_or_space_l, contains_or_space_r, F2).
    rewrite split_go_or_free by (apply contains_or_space_l, F3).
    reflexivity. }
  unfold OrDefinitionItem.parse, header_regex_split.
  rewrite Hstrip, Hcontains.
  rewrite (split_colon_token t cls (token_nonspaces _ Ht)).
  fold or_. rewrite Hsplit, len_gt_1. cbn [map].
  pose proof (strip_padded [] c1 (lit " ") eq_refl eq_refl H1) as S1.
  pose proof (strip_padded (lit " ") c2 (lit " ") eq_refl eq_refl H2) as S2.
  pose proof (strip_padded (lit " ") c3 [] eq_refl eq_refl H3) as S3.
  rewrite app_nil_r in S3. cbn [app] in S1. rewrite S1, S2, S3.
  rewrite (strip_token _ Ht).
  destruct (list_eq_dec (list_eq_dec ascii_dec) [c1; c2; c3] [lit ""])
    as [Heq|_]; [discriminate Heq|].
  unfold definition_of. destruct rest; reflexivity.
Qed.

Lemma three_classifiers_parse_witness :
  OrDefinitionItem.parse (fun l => l) [lit "x : int or float or None"]
  = Val (mkItem (lit "x") [lit "int"; lit "float"; lit "None"] [lit ""]).
Proof.
  exact (@three_classifiers_parse (fun l => l) (lit "x") (lit "int")
           (lit "float") (lit "None") []
           eq_refl eq_refl eq_refl eq_refl eq_refl eq_refl eq_refl).
Defined.

(** ** Regular expressions: derivatives decide the language *)

Module ReFacts.
Import Re.

Lemma nullable_lang r : nullable r = true <-> lang r [].
Proof.
  split.
  - induction r; simpl; intros H; try discriminate.
    + constructor.
    + apply andb_true_iff in H as [H1 H2].
      apply (lang_cat (IHr1 H1) (IHr2 H2)).
    + apply orb_true_iff in H as [H|H].
      * apply lang_alt_l; auto.
      * apply lang_alt_r; auto.
    + constructor.
  - induction r; simpl; intros H; auto.
    + inversion H.
    + inversion H.
    + inversion H; subst.
      match goal with E : _ ++ _ = [] |- _ =>
        apply app_eq_nil in E as [-> ->] end.
      rewrite IHr1, IHr2 by assumption. reflexivity.
    + inversion H; subst.
      * rewrite IHr1 by assumption. reflexivity.
      * rewrite IHr2 by assumption. apply orb_true_r.
Qed.

Lemma star_cons r c s :
  lang (Star r) (c :: s) ->
  exists s1 s2, s = s1 ++ s2 /\ lang r (c :: s1) /\ lang (Star r) s2.
Proof.
  intros H. remember (Star r) as r' eqn:Er. remember (c :: s) as s' eqn:Es.
  revert s Es.
  induction H; intros s0 Es; try discriminate.
  injection Er as ->.
  destruct s1 as [|a s1].
  - simpl in Es. apply IHlang2; auto.
  - simpl in Es. injection Es as -> <-.
    exists s1, s2. auto.
Qed.

Lemma deriv_lang c r s : lang (deriv c r) s <-> lang r (c :: s).
Proof.
  split.
  - revert s. induction r; simpl; intros s H.
    + inversion H.
    + inversion H.
    + destruct (p c) eqn:E; inversion H; subst. constructor. exact E.
    + destruct (nullable r1) eqn:N.
      * inversion H; subst.
        -- match goal with L : lang (Cat _ _) _ |- _ =>
             inversion L; subst end.
           change (c :: s1 ++ s2) with ((c :: s1) ++ s2).
           apply lang_cat; auto.
        -- change (c :: s) with ([] ++ c :: s).
           apply lang_cat; auto. apply nullable_lang, N.
      * inversion H; subst.
        change (c :: s1 ++ s2) with ((c :: s1) ++ s2).
        apply lang_cat; auto.
    + inversion H; subst.
      * apply lang_alt_l; auto.
      * apply lang_alt_r; auto.
    + inversion H; subst.
      change (c :: s1 ++ s2) with ((c :: s1) ++ s2).
      apply lang_star_app; auto.
  - revert s. induction r; simpl; intros s H.
    + inversion H.
    + inversion H.
    + inversion H; subst.
      match goal with E : p c = true |- _ => rewrite E end. constructor.
    + inversion H; subst.
      destruct s1 as [|a s1].
      * simpl in *. subst.
        match goal with L : lang r1 [] |- _ =>
          apply nullable_lang in L; rewrite L end.
        apply lang_alt_r; auto.
      * match goal with E : (_ :: _) ++ _ = _ :: _ |- _ =>
          simpl in E; injection E as -> <- end.
        assert (L : lang (Cat (deriv c r1) r2) (s1 ++ s2))
          by (apply lang_cat; auto).
        destruct (nullable r1); [apply lang_alt_l|]; exact L.
    + inversion H; subst.
      * apply lang_alt_l; auto.
      * apply lang_alt_r; auto.
    + apply star_cons in H as [s1 [s2 [-> [H1 H2]]]].
      apply lang_cat; auto.
Qed.

Lemma fullmatch_lang r s : fullmatch r s = true <-> lang r s.
Proof.
  revert r. induction s as [|c s IH]; intros r; simpl.
  - apply nullable_lang.
  - rewrite IH. apply deriv_lang.
Qed.

Lemma star_cls p s : lang (Star (Cls p)) s <-> forallb p s = true.
Proof.
  split.
  - intros H. remember (Star (Cls p)) as r eqn:Er.
    induction H; try discriminate; [reflexivity|].
    injection Er as ->.
    match goal with L : lang (Cls p) _ |- _ => inversion L; subst end.
    simpl. apply andb_true_iff. split; auto.
  - induction s as [|c s IH]; simpl; intros H.
    + constructor.
    + apply andb_true_iff in H as [Hc Hs].
      change (c :: s) with ([c] ++ s).
      apply lang_star_app; [constructor; exact Hc | auto].
Qed.

End ReFacts.

(** ** The section detector *)

Lemma underline_regex_single_token s :
  Re.fullmatch underline_regex s = true <-> single_token s.
Proof.
  rewrite ReFacts.fullmatch_lang. unfold underline_regex, single_token.
  split.
  - intros H. inversion H as [| |r1 r2 w1 x H1 H2| | | |]; subst.
    inversion H2 as [| |r1 r2 t w2 Ht Hw2| | | |]; subst.
    inversion Ht as [| |r1 r2 t1 t2 Ht1 Ht2| | | |]; subst.
    inversion Ht1; subst.
    apply ReFacts.star_cls in H1, Hw2, Ht2.
    exists w1, ([c] ++ t2), w2. repeat split; auto.
    simpl. apply andb_true_iff. split; assumption.
  - intros [w1 [t [w2 [-> [H1 [Ht H2]]]]]].
    apply Re.lang_cat; [apply ReFacts.star_cls, H1|].
    apply Re.lang_cat; [|apply ReFacts.star_cls, H2].
    destruct t as [|c t]; [discriminate|].
    simpl in Ht. apply andb_true_iff in Ht as [Hc Ht].
    change (c :: t) with ([c] ++ t).
    apply Re.lang_cat; [constructor; exact Hc|].
    apply ReFacts.star_cls, Ht.
Qed.

(** The substitution of [re.sub], position by position. *)
Lemma underline_sub_pointwise repl h : forall prev u,
  underline_sub repl prev h = u <->
  (length u = length h
   /\ forall i c,
        nth_error h i = Some c ->
        nth_error u i =
        Some (if isalpha c || is_char (chr 92) c
                 || (isspace c
                     && word_before (match i with
                                     | O => prev
                                     | S j => nth_error h j
                                     end))
              then repl else c)).
Proof.
  induction h as [|c0 h IH]; intros prev u.
  - simpl. split.
    + intros <-. split; [reflexivity|]. intros i c Hi.
      destruct i; discriminate Hi.
    + intros [Hl _]. destruct u; [reflexivity|discriminate Hl].
  - cbn [underline_sub]. split.
    + intros <-. split.
      * simpl. f_equal. apply (proj1 (IH (Some c0) _) eq_refl).
      * intros i c Hi. destruct i as [|i].
        -- simpl in Hi. injection Hi as ->. simpl.
           destruct (isalpha c || is_char (chr 92) c); reflexivity.
        -- simpl in Hi. cbn [nth_error].
           rewrite (proj2 (proj1 (IH (Some c0) _) eq_refl) i c Hi).
           destruct i; reflexivity.
    + intros [Hl Hp]. destruct u as [|u0 u]; [discriminate Hl|].
      f_equal.
      * specialize (Hp 0%nat c0 eq_refl). simpl in Hp.
        injection Hp as ->.
        destruct (isalpha c0 || is_char (chr 92) c0); reflexivity.
      * apply IH. split; [simpl in Hl; lia|].
        intros i c Hi. specialize (Hp (S i) c Hi). cbn [nth_error] in Hp.
        rewrite Hp. destruct i; reflexivity.
Qed.

Lemma underline_sub_spec repl h u :
  underline_sub repl None h = u <-> is_underline_of repl h u.
Proof.
  rewrite underline_sub_pointwise. unfold is_underline_of, char_before.
  reflexivity.
Qed.

Lemma section_header_spec header line2 :
  (underlined header line2
   /\ section_header header line2 = Some (strip header))
  \/ (~ underlined header line2 /\ section_header header line2 = None).
Proof.
  unfold section_header, Re.match_Z, underlined.
  destruct (Re.fullmatch underline_regex line2) eqn:Em.
  - apply underline_regex_single_token in Em.
    destruct (str_eqb (rstrip line2)
                (underline_sub (chr 45) None (rstrip header))) eqn:E1.
    + left. split; [|reflexivity]. split; [exact Em|]. left.
      apply underline_sub_spec. symmetry. apply str_eqb_true, E1.
    + destruct (str_eqb (rstrip line2)
                  (underline_sub (chr 61) None (rstrip header))) eqn:E2.
      * left. split; [|reflexivity]. split; [exact Em|]. right.
        apply underline_sub_spec. symmetry. apply str_eqb_true, E2.
      * right. split; [|reflexivity]. intros [_ [H|H]];
          apply underline_sub_spec in H; symmetry in H;
          apply str_eqb_true in H; congruence.
  - right. split; [|reflexivity]. intros [H _].
    apply underline_regex_single_token in H. congruence.
Qed.

(** The causes the underline test fails for. *)
Lemma not_underlined header line2 :
  length (rstrip line2) <> length (rstrip header)
  \/ ~ single_token line2
  \/ (exists i c,
        nth_error (rstrip header) i = Some c
        /\ nth_error (rstrip line2) i <> Some c
        /\ nth_error (rstrip line2) i <> Some (chr 45)
        /\ nth_error (rstrip line2) i <> Some (chr 61))
  -> ~ underlined header line2.
Proof.
  intros [H|[H|[i [c [Hc [H0 [H1 H2]]]]]]] [Htok Hu].
  - destruct Hu as [[L _]|[L _]]; congruence.
  - tauto.
  - destruct Hu as [[_ Hu]|[_ Hu]]; specialize (Hu i c Hc);
      destruct (isalpha c || is_char (chr 92) c
                || isspace c && word_before (char_before (rstrip header) i));
      congruence.
Qed.

Lemma peek_line_at d k : peek k d = ([], Ok (line_at d k) d).
Proof.
  unfold peek, line_at, bind, get_index, get_docstring. simpl.
  destruct (getitem (docstring d) (index d + k)); reflexivity.
Qed.

Lemma eol_eq d : eol d = ([], Ok (len (docstring d) <=? index d)%Z d).
Proof. reflexivity. Qed.

Lemma is_section_eq d :
  is_section d =
  ([], Ok (if (len (docstring d) <=? index d)%Z then None
           else section_header (line_at d 0) (line_at d 1)) d).
Proof.
  unfold is_section, bind. rewrite eol_eq.
  destruct (len (docstring d) <=? index d)%Z; [reflexivity|].
  rewrite !peek_line_at. reflexivity.
Qed.

(** C3, as amended.  [is_section] writes nothing and returns in the state
    it was called in.  It returns the stripped header line exactly when the
    cursor is inside the buffer, the next line is a single token and that
    line without its trailing whitespace is the underline, in [-] or in [=],
    expected for the header line without its trailing whitespace; in every
    other case it returns [False]. *)
Theorem is_section_spec : forall d : BaseDoc,
  exists r,
    is_section d = ([], Ok r d)
    /\ ((recognized d /\ r = Some (strip (line_at d 0)))
        \/ (~ recognized d /\ r = None)).
Proof.
  intros d. rewrite is_section_eq. eexists. split; [reflexivity|].
  unfold recognized.
  destruct (len (docstring d) <=? index d)%Z eqn:E.
  - right. split; [|reflexivity]. apply Z.leb_le in E. lia.
  - apply Z.leb_gt in E.
    destruct (section_header_spec (line_at d 0) (line_at d 1))
      as [[H ->]|[H ->]]; [left|right]; tauto.
Qed.

(** C3 as it is stated fails, whether the stripped form of the next line
    is taken without its trailing whitespace or without whitespace at both
    ends.  The line under the header [a  b] is the underline expected for
    it (the second of the two spaces follows no word character and stays),
    and [is_section] returns [False], because that line is not a single
    token.  The line under the header [abc] is a single token and, stripped
    at both ends, the underline expected for it, and [is_section] returns
    [False], because the whitespace before the underline is compared too. *)
Lemma is_section_counterexample :
  ~ (forall d : BaseDoc,
       is_underline_of (chr 45) (rstrip (line_at d 0)) (rstrip (line_at d 1))
       -> run is_section d = Ok (Some (strip (line_at d 0))) d)
  /\ ~ (forall d : BaseDoc,
          single_token (line_at d 1)
          -> is_underline_of (chr 45) (rstrip (line_at d 0))
               (strip (line_at d 1))
          -> run is_section d = Ok (Some (strip (line_at d 0))) d).
Proof.
  split.
  - intros H.
    specialize (H (mkBaseDoc [lit "a  b"; lit "-- -"] 0 [])).
    assert (Hu : is_underline_of (chr 45)
                   (rstrip (line_at
                              (mkBaseDoc [lit "a  b"; lit "-- -"] 0 []) 0))
                   (rstrip (line_at
                              (mkBaseDoc [lit "a  b"; lit "-- -"] 0 []) 1))).
    { apply underline_sub_spec. reflexivity. }
    specialize (H Hu). discriminate H.
  - intros H.
    specialize (H (mkBaseDoc [lit "abc"; lit " ---"] 0 [])).
    assert (Ht : single_token
                   (line_at (mkBaseDoc [lit "abc"; lit " ---"] 0 []) 1)).
    { apply underline_regex_single_token. reflexivity. }
    assert (Hu : is_underline_of (chr 45)
                   (rstrip (line_at
                              (mkBaseDoc [lit "abc"; lit " ---"] 0 []) 0))
                   (strip (line_at
                             (mkBaseDoc [lit "abc"; lit " ---"] 0 []) 1))).
    { apply underline_sub_spec. reflexivity. }
    specialize (H Ht Hu). discriminate H.
Qed.

(** ** Positions given by natural numbers *)

Lemma slice_bound_nat A (l : list A) n :
  slice_bound l (Z.of_nat n) = Nat.min n (length l).
Proof.
  unfold slice_bound, len.
  destruct (Z.of_nat n <? 0)%Z eqn:E; [apply Z.ltb_lt in E; lia|]. lia.
Qed.

Lemma del_slice_nat A (l : list A) a c :
  del_slice l (Z.of_nat a) (Z.of_nat a + Z.of_nat c)
  = firstn a l ++ skipn (a + c) l.
Proof.
  unfold del_slice. rewrite <- Nat2Z.inj_add, !slice_bound_nat.
  destruct (Nat.min a (length l) <? Nat.min (a + c) (length l))%nat eqn:E.
  - apply Nat.ltb_lt in E.
    replace (Nat.min a (length l)) with a by lia.
    destruct (Nat.le_gt_cases (a + c) (length l)).
    + replace (Nat.min (a + c) (length l)) with (a + c)%nat by lia.
      reflexivity.
    + replace (Nat.min (a + c) (length l)) with (length l) by lia.
      rewrite !skipn_all2 by lia. reflexivity.
  - apply Nat.ltb_ge in E.
    destruct (Nat.le_gt_cases (length l) a).
    + rewrite firstn_all2, skipn_all2 by lia. symmetry. apply app_nil_r.
    + replace c with 0%nat by lia. rewrite Nat.add_0_r.
      symmetry. apply firstn_skipn.
Qed.

Lemma list_insert_nat A (l : list A) n x :
  list_insert l (Z.of_nat n) x = firstn n l ++ x :: skipn n l.
Proof.
  unfold list_insert. rewrite slice_bound_nat.
  destruct (Nat.le_gt_cases n (length l)).
  - replace (Nat.min n (length l)) with n by lia. reflexivity.
  - replace (Nat.min n (length l)) with (length l) by lia.
    rewrite !firstn_all2, !skipn_all2 by lia. reflexivity.
Qed.

Lemma slice_from_nat A (l : list A) n :
  slice_from l (Z.of_nat n) = skipn n l.
Proof.
  unfold slice_from. rewrite slice_bound_nat.
  destruct (Nat.le_gt_cases n (length l)).
  - replace (Nat.min n (length l)) with n by lia. reflexivity.
  - replace (Nat.min n (length l)) with (length l) by lia.
    rewrite !skipn_all2 by lia. reflexivity.
Qed.

Lemma getitem_nat A (l : list A) n :
  getitem l (Z.of_nat n) = nth_error l n.
Proof. rewrite getitem_nonneg by lia. rewrite Nat2Z.id. reflexivity. Qed.

Lemma skipn_cons_nth A (l : list A) n x rest :
  skipn n l = x :: rest ->
  nth_error l n = Some x /\ skipn (S n) l = rest /\ (n < length l)%nat.
Proof.
  revert l. induction n as [|n IH]; intros l H.
  - simpl in H. subst l. simpl. repeat split. lia.
  - destruct l as [|y l]; [discriminate H|].
    simpl in H. destruct (IH _ H) as [H1 [H2 H3]].
    repeat split; auto. simpl. lia.
Qed.

Lemma nth_hd_skipn A (l : list A) n x : nth n l x = hd x (skipn n l).
Proof.
  revert l. induction n as [|n IH]; intros l; destruct l; simpl; auto.
Qed.

Lemma skipn_nil_length A (l : list A) n :
  skipn n l = [] -> (length l <= n)%nat.
Proof.
  intros H. pose proof (length_skipn n l) as L. rewrite H in L.
  simpl in L. lia.
Qed.

Lemma line_at_nat l n hs k :
  line_at (mkBaseDoc l (Z.of_nat n) hs) (Z.of_nat k)
  = nth (n + k) l (lit "").
Proof.
  unfold line_at. cbn [docstring index].
  rewrite <- Nat2Z.inj_add, getitem_nat.
  destruct (nth_error l (n + k)) eqn:E.
  - symmetry. apply nth_error_nth, E.
  - symmetry. apply nth_overflow. apply nth_error_None, E.
Qed.

(** ** Runs of the methods *)

Lemma run_bind_ok A B (m : M A) (f : A -> M B) d a d1
  (H : run m d = Ok a d1) : run (bind m f) d = run (f a) d1.
Proof. rewrite run_bind, H. reflexivity. Qed.

Arguments run_bind_ok [A B m] f [d a d1] H.

Lemma run_get_index d : run get_index d = Ok (index d) d.
Proof. reflexivity. Qed.

Lemma run_get_docstring d : run get_docstring d = Ok (docstring d) d.
Proof. reflexivity. Qed.

Lemma run_set_index i d :
  run (set_index i) d = Ok tt (mkBaseDoc (docstring d) i (headers d)).
Proof. reflexivity. Qed.

Lemma run_remove_lines idx count d :
  run (remove_lines idx count) d
  = Ok tt (mkBaseDoc (del_slice (docstring d) idx (idx + count))
             (index d) (headers d)).
Proof. reflexivity. Qed.

Lemma run_ret A (a : A) d : run (ret a) d = Ok a d.
Proof. reflexivity. Qed.

Lemma run_eol d : run eol d = Ok (len (docstring d) <=? index d)%Z d.
Proof. reflexivity. Qed.

Lemma run_peek d k : run (peek k) d = Ok (line_at d k) d.
Proof. unfold run. rewrite peek_line_at. reflexivity. Qed.

Lemma read_nat l n hs line :
  nth_error l n = Some line ->
  read (mkBaseDoc l (Z.of_nat n) hs)
  = ([mkBaseDoc l (Z.of_nat (S n)) hs],
     Ok line (mkBaseDoc l (Z.of_nat (S n)) hs)).
Proof.
  intros H. unfold read, bind, get_index, get_docstring.
  cbn [docstring index]. rewrite getitem_nat, H. unfold set_index, ret.
  cbn [docstring index headers app]. rewrite Nat2Z.inj_succ.
  reflexivity.
Qed.

Lemma remove_lines_eq idx count d :
  remove_lines idx count d
  = (let d' := mkBaseDoc (del_slice (docstring d) idx (idx + count))
                 (index d) (headers d) in
     ([d'], Ok tt d')).
Proof. reflexivity. Qed.

(** ** The block extractor *)

(** [continuation] is the longest run of lines let in by the rule: the
    lines after the header are the continuation followed by a tail that is
    empty or starts with a line the rule keeps out, and every line of the
    continuation is let in, with the line after it in [rest] as its
    successor. *)
Lemma continuation_prefix indent rest :
  exists tail,
    rest = continuation indent rest ++ tail
    /\ match tail with
       | [] => True
       | line :: tail' => continues indent line (hd (lit "") tail') = false
       end.
Proof.
  induction rest as [|line rest [tail [IH Ht]]].
  - exists []. split; [reflexivity | exact I].
  - cbn [continuation].
    destruct (continues indent line (hd (lit "") rest)) eqn:E.
    + exists tail. split; [|exact Ht]. simpl. f_equal. exact IH.
    + exists (line :: rest). split; [reflexivity | exact E].
Qed.

Lemma continuation_lines indent rest k line :
  nth_error (continuation indent rest) k = Some line ->
  nth_error rest k = Some line
  /\ continues indent line (nth (S k) rest (lit "")) = true.
Proof.
  revert k. induction rest as [|l0 rest IH]; intros k H.
  - destruct k; discriminate H.
  - cbn [continuation] in H.
    destruct (continues indent l0 (hd (lit "") rest)) eqn:E.
    + destruct k as [|k].
      * simpl in H. injection H as <-. split; [reflexivity|].
        simpl. rewrite <- E. f_equal. destruct rest; reflexivity.
      * simpl in H. apply IH in H as [H1 H2]. split; assumption.
    + destruct k; discriminate H.
Qed.

Lemma block_loop_run indent : forall fuel l n hs field,
  (length (skipn n l) < fuel)%nat ->
  run (block_loop fuel indent field) (mkBaseDoc l (Z.of_nat n) hs)
  = Ok (field ++ map rstrip (continuation indent (skipn n l)))
       (mkBaseDoc l
          (Z.of_nat (n + length (continuation indent (skipn n l)))) hs).
Proof.
  induction fuel as [|fuel IH]; intros l n hs field Hfuel; [lia|].
  cbn [block_loop].
  rewrite (run_bind_ok _ (run_eol _)). cbn [docstring index].
  destruct (skipn n l) as [|line rest] eqn:E.
  - apply skipn_nil_length in E.
    replace (len l <=? Z.of_nat n)%Z with true
      by (symmetry; apply Z.leb_le; unfold len; lia).
    cbn [continuation map length]. rewrite app_nil_r, Nat.add_0_r.
    reflexivity.
  - destruct (skipn_cons_nth _ _ E) as [Hn [Hrest Hlt]].
    replace (len l <=? Z.of_nat n)%Z with false
      by (symmetry; apply Z.leb_gt; unfold len; lia).
    rewrite (run_bind_ok _ (run_peek _ _)).
    rewrite (run_bind_ok _ (run_peek _ _)).
    change 0%Z with (Z.of_nat 0). change 1%Z with (Z.of_nat 1).
    rewrite !line_at_nat, Nat.add_0_r.
    rewrite (nth_error_nth _ _ _ Hn).
    assert (Hhd : nth (n + 1) l (lit "") = hd (lit "") rest).
    { rewrite Nat.add_1_r, nth_hd_skipn, Hrest. reflexivity. }
    rewrite Hhd. cbn [continuation]. unfold continues.
    destruct (is_empty line) eqn:Ee; cbn [negb andb].
    + destruct (startswith (hd (lit "") rest) indent) eqn:Es; cbn [negb].
      * unfold run at 1. unfold bind at 1. rewrite (@read_nat l n hs line Hn).
        rewrite (M_eta _ _). cbn [snd].
        rewrite IH by (rewrite Hrest; simpl in Hfuel; lia).
        rewrite Hrest. cbn [map length]. rewrite <- app_assoc.
        rewrite Nat.add_succ_r. reflexivity.
      * cbn [map length]. rewrite app_nil_r, Nat.add_0_r. reflexivity.
    + destruct (startswith line indent) eqn:Es; cbn [negb].
      * unfold run at 1. unfold bind at 1. rewrite (@read_nat l n hs line Hn).
        rewrite (M_eta _ _). cbn [snd].
        rewrite IH by (rewrite Hrest; simpl in Hfuel; lia).
        rewrite Hrest. cbn [map length]. rewrite <- app_assoc.
        rewrite Nat.add_succ_r. reflexivity.
      * cbn [map length]. rewrite app_nil_r, Nat.add_0_r. reflexivity.
Qed.

Lemma run_read_nat l n hs line (H : nth_error l n = Some line) :
  run read (mkBaseDoc l (Z.of_nat n) hs)
  = Ok line (mkBaseDoc l (Z.of_nat (S n)) hs).
Proof. unfold run. rewrite (@read_nat l n hs line H). reflexivity. Qed.

Arguments run_read_nat [l n] hs [line] H.

Lemma get_next_block_run l n hs header :
  nth_error l n = Some header ->
  run get_next_block (mkBaseDoc l (Z.of_nat n) hs)
  = Ok (header :: map rstrip
                    (continuation (get_indent header ++ lit " ")
                       (skipn (S n) l)))
       (mkBaseDoc
          (firstn n l
           ++ skipn (S n + length (continuation
                                     (get_indent header ++ lit " ")
                                     (skipn (S n) l))) l)
          (Z.of_nat n) hs).
Proof.
  intros Hn. unfold get_next_block.
  rewrite (run_bind_ok _ (run_get_index _)). cbn [index].
  rewrite (run_bind_ok _ (run_read_nat hs Hn)).
  rewrite (run_bind_ok _ (run_get_docstring _)). cbn [docstring].
  assert (Hfuel : (length (skipn (S n) l) < S (length l))%nat)
    by (rewrite length_skipn; lia).
  rewrite (run_bind_ok _ (@block_loop_run _ _ l (S n) hs _ Hfuel)).
  set (cont := continuation (get_indent header ++ lit " ") (skipn (S n) l)).
  rewrite (run_bind_ok _ (run_remove_lines _ _ _)).
  rewrite (run_bind_ok _ (run_set_index _ _)).
  rewrite run_ret. cbn [docstring index headers].
  unfold len. cbn [length app]. rewrite length_map.
  rewrite del_slice_nat.
  replace (n + S (length cont))%nat with (S (n + length cont)) by lia.
  reflexivity.
Qed.

(** The indent of a line: [get_indent] cuts the line where its leading
    whitespace ends, and no other cut has whitespace only before it and no
    whitespace right after it. *)
Lemma get_indent_spaces line : forallb isspace (get_indent line) = true.
Proof.
  unfold get_indent, indent_regex_match.
  destruct line as [|c line]; [reflexivity|].
  destruct (isspace c) eqn:Ec; [|reflexivity].
  simpl. rewrite Ec. simpl.
  induction line as [|a line IH]; [reflexivity|].
  destruct (isspace a) eqn:Ea; [|reflexivity].
  simpl. rewrite Ea. exact IH.
Qed.

Lemma get_indent_cons c s :
  get_indent (c :: s) = if isspace c then c :: get_indent s else [].
Proof.
  unfold get_indent, indent_regex_match.
  destruct (isspace c) eqn:Ec; [|reflexivity].
  f_equal.
  destruct s as [|a s]; [reflexivity|].
  destruct (isspace a); reflexivity.
Qed.

Lemma get_indent_split line : get_indent line ++ lstrip line = line.
Proof.
  induction line as [|c s IH]; [reflexivity|].
  rewrite get_indent_cons. simpl lstrip.
  destruct (isspace c); [|reflexivity].
  simpl. f_equal. exact IH.
Qed.

Lemma lstrip_start line :
  match lstrip line with [] => True | c :: _ => isspace c = false end.
Proof.
  induction line as [|c s IH]; [exact I|].
  simpl. destruct (isspace c) eqn:E; [exact IH | exact E].
Qed.

Lemma get_indent_unique header : forall w body,
  header = w ++ body ->
  forallb isspace w = true ->
  match body with [] => True | c :: _ => isspace c = false end ->
  w = get_indent header.
Proof.
  intros w. revert header.
  induction w as [|a w IH]; intros header body -> Hw Hb.
  - destruct body as [|c body]; [reflexivity|].
    cbn [app]. rewrite get_indent_cons, Hb. reflexivity.
  - simpl in Hw. apply andb_true_iff in Hw as [Ha Hw].
    cbn [app]. rewrite get_indent_cons, Ha. f_equal.
    apply (IH (w ++ body) body eq_refl Hw Hb).
Qed.

(** C2.  Called with the cursor inside the buffer, [get_next_block] returns
    the line at the cursor as it is, followed by the lines that continue the
    block under the continuation rule for the body indent, each without its
    trailing whitespace; it leaves the buffer with exactly that span of
    lines deleted and the cursor where it was.  The body indent is the
    indent of the header line and one space, the indent [w] being the
    whitespace the header starts with: the header is [w] followed by text
    that does not start with whitespace. *)
Theorem get_next_block_spec : forall d : BaseDoc,
  (0 <= index d < len (docstring d))%Z ->
  exists header w body,
    nth_error (docstring d) (Z.to_nat (index d)) = Some header
    /\ header = w ++ body
    /\ forallb isspace w = true
    /\ match body with [] => True | c :: _ => isspace c = false end
    /\ let start := Z.to_nat (index d) in
       let cont := continuation (w ++ lit " ")
                     (skipn (S start) (docstring d)) in
       run get_next_block d
       = Ok (header :: map rstrip cont)
            (mkBaseDoc
               (firstn start (docstring d)
                ++ skipn (S start + length cont) (docstring d))
               (index d) (headers d)).
Proof.
  intros [l i hs] [H0 Hlt]. cbn [docstring index headers] in *.
  destruct (nth_error l (Z.to_nat i)) as [header|] eqn:E.
  - exists header, (get_indent header), (lstrip header).
    split; [reflexivity|].
    split; [symmetry; apply get_indent_split|].
    split; [apply get_indent_spaces|].
    split; [apply lstrip_start|]. cbv zeta.
    pose proof (@get_next_block_run l (Z.to_nat i) hs header E) as R.
    rewrite (Z2Nat.id i H0) in R. exact R.
  - apply nth_error_None in E. unfold len in Hlt. lia.
Qed.

Lemma get_next_block_spec_witness :
  run get_next_block
    (mkBaseDoc [lit "Intro"; lit "  x : int"; lit "      The x value.  ";
                lit ""; lit "      More."; lit ""; lit "  y : int"] 1 [])
  = Ok [lit "  x : int"; lit "      The x value."; lit ""; lit "      More."]
       (mkBaseDoc [lit "Intro"; lit ""; lit "  y : int"] 1 []).
Proof.
  destruct (@get_next_block_spec
              (mkBaseDoc [lit "Intro"; lit "  x : int";
                          lit "      The x value.  ";
                          lit ""; lit "      More."; lit ""; lit "  y : int"]
                 1 []))
    as [header [w [body [Hh [Hd [Hw [Hb Hr]]]]]]].
  - vm_compute. split; [discriminate | reflexivity].
  - vm_compute in Hh. injection Hh as <-.
    destruct w as [|a [|b [|c w]]].
    + cbn [app] in Hd. subst body. discriminate Hb.
    + cbn [app] in Hd. injection Hd as <- <-. discriminate Hb.
    + cbn [app] in Hd. injection Hd as <- <- _. exact Hr.
    + cbn [app] in Hd. injection Hd as <- <- <- _. discriminate Hw.
Defined.

(** ** The parse loop, one turn at a time *)

Lemma states_bind_ok A B (m : M A) (f : A -> M B) d a d1
  (H : run m d = Ok a d1) :
  states (bind m f) d = states m d ++ states (f a) d1.
Proof. rewrite states_bind, H. reflexivity. Qed.

Arguments states_bind_ok [A B m] f [d a d1] H.

Lemma states_bind_raise A B (m : M A) (f : A -> M B) d e
  (H : run m d = Raise e) :
  states (bind m f) d = states m d /\ run (bind m f) d = Raise e.
Proof.
  rewrite states_bind, run_bind, H. rewrite app_nil_r. split; reflexivity.
Qed.

Lemma run_is_section d :
  run is_section d
  = Ok (if (len (docstring d) <=? index d)%Z then None
        else section_header (line_at d 0) (line_at d 1)) d.
Proof. unfold run. rewrite is_section_eq. reflexivity. Qed.

Lemma states_is_section d : states is_section d = [].
Proof. unfold states. rewrite is_section_eq. reflexivity. Qed.

Lemma states_peek k d : states (peek k) d = [].
Proof. unfold states. rewrite peek_line_at. reflexivity. Qed.

Lemma seek_each_run l hs : forall lines n,
  run (seek_each lines) (at_line l hs n)
  = Ok tt (at_line l hs (n + leading_empty lines))
  /\ states (seek_each lines) (at_line l hs n)
     = map (at_line l hs) (seq (S n) (leading_empty lines)).
Proof.
  induction lines as [|line rest IH]; intros n.
  - cbn. rewrite Nat.add_0_r. split; reflexivity.
  - cbn [seek_each leading_empty].
    destruct (is_empty line); cbn [negb].
    + destruct (IH (S n)) as [Hr Hs].
      assert (Hset : run (set_index (Z.of_nat n + 1)) (at_line l hs n)
                     = Ok tt (at_line l hs (S n))).
      { rewrite run_set_index. unfold at_line. cbn [docstring headers].
        rewrite Nat2Z.inj_succ. reflexivity. }
      split.
      * rewrite (run_bind_ok _ (run_get_index _)).
        rewrite (run_bind_ok _ Hset), Hr.
        rewrite Nat.add_succ_r. reflexivity.
      * rewrite (states_bind_ok _ (run_get_index _)).
        rewrite (states_bind_ok _ Hset), Hs.
        cbn [seq map]. unfold states at 1 2. cbn.
        unfold at_line at 2. rewrite Nat2Z.inj_succ. reflexivity.
    + cbn. rewrite Nat.add_0_r. split; reflexivity.
Qed.

Lemma seek_run l hs n :
  run seek_to_next_non_empty_line (at_line l hs n)
  = Ok tt (at_line l hs (n + leading_empty (skipn n l)))
  /\ states seek_to_next_non_empty_line (at_line l hs n)
     = map (at_line l hs) (seq (S n) (leading_empty (skipn n l))).
Proof.
  unfold seek_to_next_non_empty_line.
  rewrite (run_bind_ok _ (run_get_docstring _)).
  rewrite (run_bind_ok _ (run_get_index _)).
  rewrite (states_bind_ok _ (run_get_docstring _)).
  rewrite (states_bind_ok _ (run_get_index _)).
  cbn [at_line docstring index]. rewrite slice_from_nat.
  destruct (seek_each_run l hs (skipn n l) n) as [Hr Hs].
  unfold at_line in *. rewrite Hr, Hs. split; reflexivity.
Qed.

Lemma leading_empty_le (lines : list str) :
  (leading_empty lines <= length lines)%nat.
Proof.
  induction lines as [|line rest IH]; simpl; [lia|].
  destruct (is_empty line); lia.
Qed.

Lemma leading_empty_skipn l n :
  (n <= length l -> n + leading_empty (skipn n l) <= length l)%nat.
Proof.
  intros H. pose proof (leading_empty_le (skipn n l)) as L.
  rewrite length_skipn in L. lia.
Qed.

Lemma leading_empty_nth (lines : list str) j :
  (j < leading_empty lines)%nat -> is_empty (nth j lines (lit "")) = true.
Proof.
  revert j. induction lines as [|line rest IH]; intros j H; simpl in H.
  - lia.
  - destruct (is_empty line) eqn:E; [|lia].
    destruct j as [|j]; [exact E|]. simpl. apply IH. lia.
Qed.

Lemma firstn_app_exact A (a b : list A) n :
  n = length a -> firstn n (a ++ b) = a /\ skipn n (a ++ b) = b.
Proof.
  intros ->. split.
  - rewrite firstn_app, Nat.sub_diag, firstn_all. simpl. apply app_nil_r.
  - rewrite skipn_app, Nat.sub_diag, skipn_all. reflexivity.
Qed.

Lemma refactor_header_eq l hs n h :
  (n + 2 <= length l)%nat ->
  let indent := get_indent (nth n l (lit "")) in
  let l2 := firstn n l ++ skipn (n + 2) l in
  let l3 := firstn n l ++ lit "" :: skipn (n + 2) l in
  let l5 := firstn n l ++ rubric_lines indent h ++ skipn (n + 2) l in
  _refactor_header h (at_line l hs n)
  = ([at_line l2 hs n; at_line l3 hs n; at_line l5 hs n;
      at_line l5 hs (n + 2)],
     Ok (rubric_lines indent h) (at_line l5 hs (n + 2))).
Proof.
  intros Hlen indent l2 l3 l5.
  assert (Hf : length (firstn n l) = n) by (rewrite length_firstn; lia).
  assert (Hline : line_at (at_line l hs n) 0 = nth n l (lit "")).
  { change 0%Z with (Z.of_nat 0). unfold at_line.
    rewrite line_at_nat, Nat.add_0_r. reflexivity. }
  assert (E2 : del_slice l (Z.of_nat n) (Z.of_nat n + 2) = l2).
  { change 2%Z with (Z.of_nat 2). apply del_slice_nat. }
  assert (E3 : list_insert l2 (Z.of_nat n) (lit "") = l3).
  { rewrite list_insert_nat. unfold l2, l3.
    destruct (firstn_app_exact (firstn n l) (skipn (n + 2) l)
                (eq_sym Hf)) as [-> ->].
    reflexivity. }
  assert (E5 : list_insert l3 (Z.of_nat n)
                 (indent ++ lit ".. rubric:: "
                  ++ strip_chars (lit "'") (repr h)) = l5).
  { rewrite list_insert_nat. unfold l3, l5, rubric_lines.
    destruct (firstn_app_exact (firstn n l) (lit "" :: skipn (n + 2) l)
                (eq_sym Hf)) as [-> ->].
    reflexivity. }
  unfold _refactor_header, insert_lines. cbn [rev app insert_each].
  unfold bind at 1. unfold get_index at 1.
  unfold bind at 1. rewrite peek_line_at, Hline. fold indent.
  unfold remove_lines.
  unfold bind, get_docstring, set_docstring, get_index, set_index, ret.
  cbn [fst snd docstring index headers app at_line].
  rewrite E2, E3, E5. unfold at_line, rubric_lines, len. cbn [length].
  rewrite Nat2Z.inj_add. reflexivity.
Qed.

Lemma bind_pair_ok A B (m : M A) (f : A -> M B) d t1 a d1
  (H : m d = (t1, Ok a d1)) :
  bind m f d = (t1 ++ states (f a) d1, run (f a) d1).
Proof.
  unfold bind, states, run. rewrite H. destruct (f a d1); reflexivity.
Qed.

Arguments bind_pair_ok [A B m] f [d t1 a d1] H.

Lemma bind_pair_raise A B (m : M A) (f : A -> M B) d t1 e
  (H : m d = (t1, Raise e)) :
  bind m f d = (t1, Raise e).
Proof. unfold bind. rewrite H. reflexivity. Qed.

Arguments bind_pair_raise [A B m] f [d t1 e] H.

Lemma pair_eta A (m : M A) d t r :
  states m d = t -> run m d = r -> m d = (t, r).
Proof. intros <- <-. apply M_eta. Qed.

Lemma eol_at_line l hs n :
  eol (at_line l hs n) = ([], Ok (length l <=? n)%nat (at_line l hs n)).
Proof.
  rewrite eol_eq. unfold at_line, len. cbn [docstring index].
  repeat f_equal.
  destruct (length l <=? n)%nat eqn:E.
  - apply Nat.leb_le in E. apply Z.leb_le. lia.
  - apply Nat.leb_gt in E. apply Z.leb_gt. lia.
Qed.

Lemma is_section_at_line l hs n :
  (n < length l)%nat ->
  is_section (at_line l hs n)
  = ([], Ok (section_header (nth n l (lit "")) (nth (S n) l (lit "")))
          (at_line l hs n)).
Proof.
  intros H. rewrite is_section_eq.
  change 0%Z with (Z.of_nat 0). change 1%Z with (Z.of_nat 1).
  unfold at_line. rewrite !line_at_nat, Nat.add_0_r, Nat.add_1_r.
  cbn [docstring index].
  replace (len l <=? Z.of_nat n)%Z with false
    by (symmetry; apply Z.leb_gt; unfold len; lia).
  reflexivity.
Qed.

Lemma turn_eol f l hs n :
  (length l <= n)%nat ->
  parse_loop (S f) (at_line l hs n) = ([], Ok tt (at_line l hs n)).
Proof.
  intros H. cbn [parse_loop].
  rewrite (bind_pair_ok _ (eol_at_line _ _ _)).
  apply Nat.leb_le in H. rewrite H. reflexivity.
Qed.

Lemma turn_plain f l hs n :
  (n < length l)%nat ->
  truthy (section_header (nth n l (lit "")) (nth (S n) l (lit ""))) = false ->
  parse_loop (S f) (at_line l hs n)
  = (map (at_line l hs)
       (seq (S n) (S (leading_empty (skipn (S n) l))))
     ++ states (parse_loop f)
          (at_line l hs (S n + leading_empty (skipn (S n) l))),
     run (parse_loop f)
       (at_line l hs (S n + leading_empty (skipn (S n) l)))).
Proof.
  intros Hlt Hno. cbn [parse_loop].
  rewrite (bind_pair_ok _ (eol_at_line _ _ _)).
  assert (Hlt' : (length l <=? n)%nat = false) by (apply Nat.leb_gt, Hlt).
  rewrite Hlt'. cbn [app].
  f_equal.
  - rewrite (states_bind_ok _ (f_equal snd (@is_section_at_line l hs n Hlt))).
    rewrite states_is_section, Hno. cbn [app].
    rewrite (states_bind_ok _ (run_get_index _)).
    assert (Hset : run (set_index (index (at_line l hs n) + 1))
                     (at_line l hs n) = Ok tt (at_line l hs (S n))).
    { rewrite run_set_index. unfold at_line. cbn [docstring headers index].
      rewrite Nat2Z.inj_succ. reflexivity. }
    rewrite (states_bind_ok _ Hset).
    destruct (seek_run l hs (S n)) as [Hr Hs].
    rewrite (states_bind_ok _ Hr), Hs.
    unfold states at 1 2. cbn [get_index set_index fst app].
    cbn [seq map]. rewrite <- app_comm_cons. f_equal.
    unfold at_line. cbn [index]. rewrite Nat2Z.inj_succ. reflexivity.
  - rewrite (run_bind_ok _ (f_equal snd (@is_section_at_line l hs n Hlt))).
    rewrite Hno.
    rewrite (run_bind_ok _ (run_get_index _)).
    assert (Hset : run (set_index (index (at_line l hs n) + 1))
                     (at_line l hs n) = Ok tt (at_line l hs (S n))).
    { rewrite run_set_index. unfold at_line. cbn [docstring headers index].
      rewrite Nat2Z.inj_succ. reflexivity. }
    rewrite (run_bind_ok _ Hset).
    destruct (seek_run l hs (S n)) as [Hr Hs].
    rewrite (run_bind_ok _ Hr). reflexivity.
Qed.

Lemma cursor_inv_at_line l hs n :
  cursor_inv (at_line l hs n) <-> (n <= length l)%nat.
Proof. unfold cursor_inv, at_line, len. cbn [docstring index]. lia. Qed.

Lemma refactor_eq h d :
  _refactor h d
  = if str_eqb (lit "_refactor_" ++ dict_get (headers d) h (lit "header"))
         (lit "_refactor_header")
    then (states (_refactor_header h) d,
          match run (_refactor_header h) d with
          | Ok _ d' => Ok tt d'
          | Raise e => Raise e
          | OutOfFuel => OutOfFuel
          end)
    else ([], Raise AttributeError).
Proof.
  unfold _refactor, bind, get_headers, states, run, ret.
  destruct (str_eqb _ _); [|reflexivity].
  destruct (_refactor_header h d) as [t [a d1|e|]]; cbn [fst snd app];
    rewrite ?app_nil_r; reflexivity.
Qed.

Lemma without_blank_length l n :
  (n + 2 <= length l)%nat ->
  (n + 2 <= length (without_blank l n) <= length l)%nat.
Proof.
  intros H. unfold without_blank.
  destruct (is_empty _); [|lia].
  rewrite length_app, length_firstn, length_skipn. lia.
Qed.

Lemma without_blank_nth l n k :
  (k < n + 2)%nat -> (n + 2 <= length l)%nat ->
  nth k (without_blank l n) (lit "") = nth k l (lit "").
Proof.
  intros Hk Hl. unfold without_blank.
  destruct (is_empty _); [|reflexivity].
  rewrite app_nth1 by (rewrite length_firstn; lia).
  rewrite nth_firstn.
  replace (k <? n + 2)%nat with true by (symmetry; apply Nat.ltb_lt; lia).
  reflexivity.
Qed.

Lemma remove_blank_eq l hs n :
  (if is_empty (line_at (at_line l hs n) 2)
   then (i <- get_index ;; remove_lines (i + 2) 1)
   else ret tt) (at_line l hs n)
  = ((if is_empty (nth (n + 2) l (lit ""))
      then [at_line (without_blank l n) hs n] else []),
     Ok tt (at_line (without_blank l n) hs n)).
Proof.
  change 2%Z with (Z.of_nat 2). unfold at_line at 1.
  rewrite line_at_nat. unfold without_blank.
  destruct (is_empty (nth (n + 2) l (lit ""))); [|reflexivity].
  unfold remove_lines.
  unfold bind, get_index, get_docstring, set_docstring.
  cbn [fst snd app at_line docstring index headers].
  change 1%Z with (Z.of_nat 1).
  rewrite <- (Nat2Z.inj_add n 2), del_slice_nat.
  replace (n + 2 + 1)%nat with (n + 3)%nat by lia. reflexivity.
Qed.

Lemma turn_header f l hs n h :
  (S n < length l)%nat ->
  section_header (nth n l (lit "")) (nth (S n) l (lit "")) = Some h ->
  truthy (Some h) = true ->
  let l1 := without_blank l n in
  let l5 := firstn n l1
            ++ rubric_lines (get_indent (nth n l (lit ""))) h
            ++ skipn (n + 2) l1 in
  exists t,
    Forall cursor_inv t
    /\ parse_loop (S f) (at_line l hs n)
       = if str_eqb (lit "_refactor_" ++ dict_get hs h (lit "header"))
              (lit "_refactor_header")
         then (t ++ states (parse_loop f) (at_line l5 hs (n + 2)),
               run (parse_loop f) (at_line l5 hs (n + 2)))
         else (t, Raise AttributeError).
Proof.
  intros Hlt Hh Ht l1 l5.
  assert (Hl1 : (n + 2 <= length l1 <= length l)%nat)
    by (apply without_blank_length; lia).
  assert (Hn1 : nth n l1 (lit "") = nth n l (lit ""))
    by (apply without_blank_nth; lia).
  cbn [parse_loop].
  rewrite (bind_pair_ok _ (eol_at_line _ _ _)).
  replace (length l <=? n)%nat with false
    by (symmetry; apply Nat.leb_gt; lia).
  cbn [app].
  assert (Hlt0 : (n < length l)%nat) by lia.
  rewrite <- M_eta.
  rewrite (bind_pair_ok _ (@is_section_at_line l hs n Hlt0)).
  rewrite Hh, Ht. cbn [app]. rewrite <- M_eta.
  rewrite (bind_pair_ok _ (peek_line_at _ _)). cbn [app].
  rewrite <- M_eta.
  rewrite (bind_pair_ok _ (remove_blank_eq l hs n)). fold l1.
  pose proof (@refactor_header_eq l1 hs n h (proj1 Hl1)) as R.
  cbv zeta in R. rewrite Hn1 in R. fold l5 in R.
  destruct (str_eqb (lit "_refactor_" ++ dict_get hs h (lit "header"))
              (lit "_refactor_header")) eqn:Em.
  - assert (Hr : _refactor h (at_line l1 hs n)
                 = ([at_line (firstn n l1 ++ skipn (n + 2) l1) hs n;
                     at_line (firstn n l1 ++ lit "" :: skipn (n + 2) l1) hs n;
                     at_line l5 hs n; at_line l5 hs (n + 2)],
                    Ok tt (at_line l5 hs (n + 2)))).
    { rewrite refactor_eq. cbn [at_line headers]. rewrite Em.
      unfold states, run. rewrite R. reflexivity. }
    unfold states at 1, run at 1. rewrite (bind_pair_ok _ Hr).
    cbn [fst snd].
    exists ((if is_empty (nth (n + 2) l (lit ""))
             then [at_line l1 hs n] else [])
            ++ [at_line (firstn n l1 ++ skipn (n + 2) l1) hs n;
                at_line (firstn n l1 ++ lit "" :: skipn (n + 2) l1) hs n;
                at_line l5 hs n; at_line l5 hs (n + 2)]).
    split.
    + apply Forall_app. split.
      * destruct (is_empty _); constructor; [|constructor].
        apply cursor_inv_at_line. lia.
      * repeat constructor; apply cursor_inv_at_line;
          unfold l5, rubric_lines;
          rewrite ?length_app, ?length_firstn, ?length_skipn; simpl length;
          rewrite ?length_skipn; lia.
    + rewrite <- !app_assoc. reflexivity.
  - exists (if is_empty (nth (n + 2) l (lit ""))
            then [at_line l1 hs n] else []).
    split.
    + destruct (is_empty _); constructor; [|constructor].
      apply cursor_inv_at_line. lia.
    + assert (Hraise : _refactor h (at_line l1 hs n)
                       = ([], Raise AttributeError)).
      { rewrite refactor_eq. cbn [at_line headers]. rewrite Em.
        reflexivity. }
      unfold states at 1, run at 1. rewrite (bind_pair_raise _ Hraise).
      cbn [fst snd]. rewrite app_nil_r. reflexivity.
Qed.

(** ** What is and what is not a section header *)

Lemma lstrip_nil s : lstrip s = [] -> forallb isspace s = true.
Proof.
  induction s as [|c s IH]; simpl; auto.
  destruct (isspace c); [auto|discriminate].
Qed.

Lemma rstrip_spaces s : forallb isspace s = true -> rstrip s = [].
Proof. intros H. apply (rstrip_app_spaces [] s H). Qed.

Lemma rstrip_nil s : rstrip s = [] -> forallb isspace s = true.
Proof.
  induction s as [|c s IH]; simpl; auto.
  destruct (rstrip s); [|discriminate].
  destruct (isspace c); [auto|discriminate].
Qed.

Lemma strip_nil_rstrip s : strip s = [] <-> rstrip s = [].
Proof.
  unfold strip. split.
  - intros H. apply lstrip_nil, rstrip_spaces in H.
    rewrite rstrip_idem in H. exact H.
  - intros ->. reflexivity.
Qed.

Lemma is_empty_rstrip s : is_empty s = true <-> rstrip s = [].
Proof.
  unfold is_empty. rewrite <- strip_nil_rstrip.
  destruct (strip s); split; congruence.
Qed.

Lemma underline_sub_length repl s : forall prev,
  length (underline_sub repl prev s) = length s.
Proof. induction s as [|c s IH]; intros prev; simpl; auto. Qed.

Lemma single_token_rstrip s : single_token s -> rstrip s <> [].
Proof.
  intros [w1 [t [w2 [-> [_ [Ht H2]]]]]] H.
  apply rstrip_nil in H. rewrite !forallb_app in H.
  apply andb_true_iff in H as [_ H]. apply andb_true_iff in H as [H _].
  destruct t as [|c t]; [discriminate|].
  simpl in Ht, H. unfold nonspace in Ht.
  destruct (isspace c); discriminate.
Qed.

(** A recognized header is not blank, so the value [is_section] returns
    for it is true in a test. *)
Lemma section_header_some header line2 h :
  section_header header line2 = Some h ->
  h = strip header /\ h <> [] /\ line2 <> [].
Proof.
  intros H.
  destruct (section_header_spec header line2) as [[Hu Hs]|[_ Hs]];
    [|congruence].
  rewrite Hs in H. injection H as <-.
  destruct Hu as [Htok Hu]. split; [reflexivity|].
  pose proof (single_token_rstrip Htok) as Hne.
  split.
  - intros Hstrip. apply strip_nil_rstrip in Hstrip.
    assert (L : length (rstrip line2) = length (rstrip header))
      by (destruct Hu as [[L _]|[L _]]; exact L).
    rewrite Hstrip in L. destruct (rstrip line2); [congruence|discriminate].
  - intros ->. apply Hne. reflexivity.
Qed.

Lemma truthy_section_header header line2 :
  truthy (section_header header line2) = false ->
  section_header header line2 = None.
Proof.
  destruct (section_header header line2) as [h|] eqn:E; [|reflexivity].
  destruct (section_header_some _ _ E) as [_ [Hne _]].
  destruct h; [congruence|discriminate].
Qed.

Lemma section_header_blank header line2 :
  is_empty header = true -> section_header header line2 = None.
Proof.
  intros H. destruct (section_header header line2) as [h|] eqn:E; auto.
  destruct (section_header_some _ _ E) as [-> [Hne _]].
  exfalso. apply Hne. apply strip_nil_rstrip, is_empty_rstrip, H.
Qed.

Lemma section_header_no_underline header :
  section_header header (lit "") = None.
Proof. reflexivity. Qed.

(** Counting tokens *)

Lemma count_tokens_spaces w : forall prev,
  forallb isspace w = true -> count_tokens prev w = 0%nat.
Proof.
  induction w as [|c w IH]; intros prev H; [reflexivity|].
  simpl in H. apply andb_true_iff in H as [Hc Hw].
  simpl. unfold nonspace. rewrite Hc, andb_false_r. simpl. apply IH, Hw.
Qed.

Lemma count_tokens_spaces_app w s :
  forallb isspace w = true ->
  count_tokens true (w ++ s) = count_tokens true s.
Proof.
  induction w as [|c w IH]; intros H; [reflexivity|].
  simpl in H. apply andb_true_iff in H as [Hc Hw].
  simpl. unfold nonspace. rewrite Hc. simpl. apply IH, Hw.
Qed.

Lemma count_tokens_nonspaces_app t s :
  forallb nonspace t = true ->
  count_tokens false (t ++ s) = count_tokens false s.
Proof.
  induction t as [|c t IH]; intros H; [reflexivity|].
  simpl in H. apply andb_true_iff in H as [Hc Ht].
  simpl. unfold nonspace in Hc. apply negb_true_iff in Hc. rewrite Hc.
  apply IH, Ht.
Qed.

Lemma single_token_count s : single_token s -> count_tokens true s = 1%nat.
Proof.
  intros [w1 [t [w2 [-> [H1 [Ht H2]]]]]].
  rewrite count_tokens_spaces_app by assumption.
  destruct t as [|c t]; [discriminate|].
  simpl in Ht. apply andb_true_iff in Ht as [Hc Ht].
  simpl. rewrite Hc. simpl. unfold nonspace in Hc.
  apply negb_true_iff in Hc. rewrite Hc.
  rewrite count_tokens_nonspaces_app by assumption.
  rewrite count_tokens_spaces by assumption. reflexivity.
Qed.

(** The rubric line has at least two tokens, whatever the header: it is
    never taken for an underline. *)
Lemma rubric_not_underline header indent h :
  forallb isspace indent = true ->
  section_header header
    (indent ++ lit ".. rubric:: " ++ strip_chars (lit "'") (repr h)) = None.
Proof.
  intros Hi.
  destruct (section_header_spec header
              (indent ++ lit ".. rubric:: "
               ++ strip_chars (lit "'") (repr h)))
    as [[[Htok _] _]|[_ Hs]]; [|exact Hs].
  apply single_token_count in Htok.
  rewrite count_tokens_spaces_app in Htok by assumption.
  set (x := strip_chars (lit "'") (repr h)) in Htok.
  unfold lit in Htok. simpl in Htok. lia.
Qed.

(** ** The whole run of [parse] *)

Lemma parse_eq l hs :
  parse (init l hs)
  = (at_line l hs 0
     :: map (at_line l hs) (seq 1 (leading_empty l))
     ++ states (parse_loop (S (length l))) (at_line l hs (leading_empty l)),
     run (parse_loop (S (length l))) (at_line l hs (leading_empty l))).
Proof.
  unfold parse.
  assert (H0 : set_index 0 (init l hs)
               = ([at_line l hs 0], Ok tt (at_line l hs 0))) by reflexivity.
  rewrite (bind_pair_ok _ H0).
  destruct (seek_run l hs 0) as [Hr Hs]. cbn [skipn Nat.add] in Hr, Hs.
  unfold states at 1, run at 1.
  rewrite (bind_pair_ok _ (pair_eta _ _ Hs Hr)). cbn [fst snd].
  unfold states at 1, run at 1.
  rewrite (bind_pair_ok _ (d:=at_line l hs (leading_empty l))
             (t1:=[]) (a:=l) (d1:=at_line l hs (leading_empty l)) eq_refl).
  cbn [fst snd app]. reflexivity.
Qed.

Lemma Forall_map_at_line l hs a k :
  (a + k <= S (length l))%nat ->
  Forall cursor_inv (map (at_line l hs) (seq a k)).
Proof.
  intros H. apply Forall_forall. intros d Hd.
  apply in_map_iff in Hd as [j [<- Hj]]. apply in_seq in Hj.
  apply cursor_inv_at_line. lia.
Qed.

(** Every turn of the loop keeps the cursor inside the buffer, and the
    loop ends before its fuel does: at the end of the buffer, or with the
    [AttributeError] of [_refactor]. *)
Lemma parse_loop_inv hs : forall f l n,
  (n <= length l)%nat -> (length l - n < f)%nat ->
  Forall cursor_inv (states (parse_loop f) (at_line l hs n))
  /\ ((exists l', run (parse_loop f) (at_line l hs n)
                  = Ok tt (at_line l' hs (length l')))
      \/ run (parse_loop f) (at_line l hs n) = Raise AttributeError).
Proof.
  induction f as [|f IH]; intros l n Hn Hf; [lia|].
  destruct (Nat.eq_dec n (length l)) as [->|Hne].
  - unfold states, run. rewrite turn_eol by lia. cbn [fst snd].
    split; [constructor|]. left. exists l. reflexivity.
  - assert (Hlt : (n < length l)%nat) by lia.
    destruct (truthy (section_header (nth n l (lit ""))
                        (nth (S n) l (lit "")))) eqn:Et.
    + destruct (section_header (nth n l (lit "")) (nth (S n) l (lit "")))
        as [h|] eqn:Eh; [|discriminate Et].
      destruct (section_header_some _ _ Eh) as [_ [_ Hl2]].
      assert (Hlt2 : (S n < length l)%nat).
      { destruct (Nat.lt_ge_cases (S n) (length l)); auto.
        exfalso. apply Hl2. apply nth_overflow. lia. }
      destruct (@turn_header f l hs n h Hlt2 Eh Et) as [t [Ht Hp]].
      pose proof (without_blank_length l n) as Hl1.
      unfold states, run. rewrite Hp.
      destruct (str_eqb _ _); cbn [fst snd].
      * match goal with
        | |- context [at_line ?l5 hs (n + 2)] =>
            destruct (IH l5 (n + 2)%nat) as [IHs IHr]
        end.
        -- unfold rubric_lines.
           rewrite !length_app, length_firstn, length_skipn.
           simpl length. lia.
        -- unfold rubric_lines.
           rewrite !length_app, length_firstn, length_skipn.
           simpl length. lia.
        -- split; [apply Forall_app; split; assumption | exact IHr].
      * split; [exact Ht | right; reflexivity].
    + pose proof (@leading_empty_skipn l (S n) Hlt) as Hk.
      unfold states, run. rewrite turn_plain by assumption. cbn [fst snd].
      destruct (IH l (S n + leading_empty (skipn (S n) l))%nat)
        as [IHs IHr]; [lia | lia |].
      split; [|exact IHr].
      apply Forall_app. split; [|exact IHs].
      apply Forall_map_at_line. lia.
Qed.

(** ** The states [get_next_block] goes through *)

Lemma continuation_length indent rest :
  (length (continuation indent rest) <= length rest)%nat.
Proof.
  induction rest as [|line rest IH]; simpl; [lia|].
  destruct (continues indent line _); simpl; lia.
Qed.

Lemma states_read_nat l n hs line (H : nth_error l n = Some line) :
  states read (mkBaseDoc l (Z.of_nat n) hs) = [at_line l hs (S n)].
Proof. unfold states. rewrite (@read_nat l n hs line H). reflexivity. Qed.

Arguments states_read_nat [l n] hs [line] H.

Lemma states_eol d : states eol d = [].
Proof. reflexivity. Qed.

Lemma block_loop_states indent : forall fuel l n hs field,
  (length (skipn n l) < fuel)%nat ->
  states (block_loop fuel indent field) (mkBaseDoc l (Z.of_nat n) hs)
  = map (at_line l hs)
      (seq (S n) (length (continuation indent (skipn n l)))).
Proof.
  induction fuel as [|fuel IH]; intros l n hs field Hfuel; [lia|].
  cbn [block_loop].
  rewrite (states_bind_ok _ (run_eol _)), states_eol.
  cbn [docstring index app].
  destruct (skipn n l) as [|line rest] eqn:E.
  - apply skipn_nil_length in E.
    replace (len l <=? Z.of_nat n)%Z with true
      by (symmetry; apply Z.leb_le; unfold len; lia).
    reflexivity.
  - destruct (skipn_cons_nth _ _ E) as [Hn [Hrest Hlt]].
    replace (len l <=? Z.of_nat n)%Z with false
      by (symmetry; apply Z.leb_gt; unfold len; lia).
    rewrite (states_bind_ok _ (run_peek _ _)), states_peek.
    rewrite (states_bind_ok _ (run_peek _ _)), states_peek.
    cbn [app].
    change 0%Z with (Z.of_nat 0). change 1%Z with (Z.of_nat 1).
    rewrite !line_at_nat, Nat.add_0_r.
    rewrite (nth_error_nth _ _ _ Hn).
    assert (Hhd : nth (n + 1) l (lit "") = hd (lit "") rest).
    { rewrite Nat.add_1_r, nth_hd_skipn, Hrest. reflexivity. }
    rewrite Hhd. cbn [continuation]. unfold continues.
    destruct (is_empty line) eqn:Ee; cbn [negb andb].
    + destruct (startswith (hd (lit "") rest) indent) eqn:Es; cbn [negb].
      * rewrite (states_bind_ok _ (run_read_nat hs Hn)).
        rewrite (states_read_nat hs Hn).
        rewrite IH by (rewrite Hrest; simpl in Hfuel; lia).
        rewrite Hrest. reflexivity.
      * reflexivity.
    + destruct (startswith line indent) eqn:Es; cbn [negb].
      * rewrite (states_bind_ok _ (run_read_nat hs Hn)).
        rewrite (states_read_nat hs Hn).
        rewrite IH by (rewrite Hrest; simpl in Hfuel; lia).
        rewrite Hrest. reflexivity.
      * reflexivity.
Qed.

Lemma get_next_block_states l n hs header :
  nth_error l n = Some header ->
  let cont := continuation (get_indent header ++ lit " ") (skipn (S n) l) in
  let l' := firstn n l ++ skipn (S n + length cont) l in
  states get_next_block (at_line l hs n)
  = map (at_line l hs) (seq (S n) (S (length cont)))
    ++ [at_line l' hs (S n + length cont); at_line l' hs n].
Proof.
  intros Hn cont l'. unfold get_next_block, at_line at 1.
  rewrite (states_bind_ok _ (run_get_index _)). cbn [index].
  rewrite (states_bind_ok _ (run_read_nat hs Hn)).
  rewrite (states_read_nat hs Hn).
  rewrite (states_bind_ok _ (run_get_docstring _)). cbn [docstring].
  assert (Hfuel : (length (skipn (S n) l) < S (length l))%nat)
    by (rewrite length_skipn; lia).
  rewrite (states_bind_ok _ (@block_loop_run _ _ l (S n) hs _ Hfuel)).
  rewrite (block_loop_states _ l (S n) hs _ Hfuel). fold cont.
  rewrite (states_bind_ok _ (run_remove_lines _ _ _)).
  rewrite (states_bind_ok _ (run_set_index _ _)).
  cbn [docstring index headers].
  unfold len. cbn [length app]. rewrite length_map.
  rewrite del_slice_nat.
  replace (n + S (length cont))%nat with (S n + length cont)%nat by lia.
  fold l'. unfold states, remove_lines.
  unfold bind, get_index, get_docstring, set_docstring, set_index, ret.
  cbn [fst snd app docstring index headers].
  rewrite del_slice_nat.
  replace (n + S (length cont))%nat with (S n + length cont)%nat by lia.
  fold l'. cbn [seq map]. rewrite <- app_comm_cons. f_equal.
Qed.

(** ** The cursor invariant *)

(** C1, as amended.  In a run of [parse] started by the constructor on any
    list of lines, every state the run goes through (the one it starts in
    and the one after each assignment to [index] and each edit of the line
    list made by [seek_to_next_non_empty_line], [remove_lines],
    [insert_lines] and the default header rewrite) has
    [0 <= index <= length]; the run ends, either at [index = length] or with
    the [AttributeError] of a header registered for a method [BaseDoc] does
    not have; so a state at the end of input always has [index = length].
    [get_next_block], called with the invariant and the cursor inside the
    buffer, returns with the invariant; the states it writes satisfy it too
    but for one, [mid], written by its [remove_lines]: there the lines are
    already removed and [index] still stands after the block that was read,
    until the next statement puts it back to the start. *)
Theorem cursor_invariant :
  (forall (lines : list str) (hs : list (str * str)),
     Forall cursor_inv (init lines hs :: states parse (init lines hs))
     /\ ((exists d', run parse (init lines hs) = Ok tt d'
                     /\ index d' = len (docstring d'))
         \/ run parse (init lines hs) = Raise AttributeError)
     /\ (forall d, In d (init lines hs :: states parse (init lines hs)) ->
                   (len (docstring d) <= index d)%Z ->
                   index d = len (docstring d)))
  /\ (forall d : BaseDoc,
        cursor_inv d -> (index d < len (docstring d))%Z ->
        exists pre mid field d',
          get_next_block d = (pre ++ [mid; d'], Ok field d')
          /\ Forall cursor_inv pre
          /\ cursor_inv d'
          /\ docstring mid = docstring d'
          /\ index mid = (index d + len field)%Z).
Proof.
  split.
  - intros lines hs.
    assert (Hall : Forall cursor_inv
                     (init lines hs :: states parse (init lines hs))).
    { constructor.
      - unfold cursor_inv, init, len. cbn [docstring index]. lia.
      - unfold states. rewrite parse_eq. cbn [fst].
        pose proof (leading_empty_le lines) as Hk.
        constructor; [apply cursor_inv_at_line; lia|].
        apply Forall_app. split; [apply Forall_map_at_line; lia|].
        apply parse_loop_inv; lia. }
    split; [exact Hall|]. split.
    + unfold run. rewrite parse_eq. cbn [snd].
      pose proof (leading_empty_le lines) as Hk.
      destruct (@parse_loop_inv hs (S (length lines)) lines
                  (leading_empty lines)) as [_ [[l' Hr]|Hr]]; [lia|lia| |].
      * left. exists (at_line l' hs (length l')). split; [exact Hr|].
        reflexivity.
      * right. exact Hr.
    + intros d Hd He. rewrite Forall_forall in Hall.
      specialize (Hall d Hd). unfold cursor_inv in Hall. lia.
  - intros [l i hs] [H0 _] Hlt. cbn [docstring index] in *.
    destruct (nth_error l (Z.to_nat i)) as [header|] eqn:E.
    2:{ apply nth_error_None in E. unfold len in Hlt. lia. }
    pose proof (@get_next_block_states l (Z.to_nat i) hs header E) as Hs.
    pose proof (@get_next_block_run l (Z.to_nat i) hs header E) as Hr.
    cbv zeta in Hs. unfold at_line at 1 in Hs.
    rewrite (Z2Nat.id i H0) in Hs, Hr.
    set (cont := continuation (get_indent header ++ lit " ")
                   (skipn (S (Z.to_nat i)) l)) in *.
    set (l' := firstn (Z.to_nat i) l
               ++ skipn (S (Z.to_nat i) + length cont) l) in *.
    exists (map (at_line l hs) (seq (S (Z.to_nat i)) (S (length cont)))),
           (at_line l' hs (S (Z.to_nat i) + length cont)),
           (header :: map rstrip cont),
           (mkBaseDoc l' i hs).
    assert (Hc : (length cont <= length (skipn (S (Z.to_nat i)) l))%nat)
      by apply continuation_length.
    rewrite length_skipn in Hc. unfold len in Hlt.
    split; [|split; [|split; [|split]]].
    + rewrite (M_eta get_next_block), Hs, Hr.
      unfold at_line at 3. rewrite (Z2Nat.id i H0). reflexivity.
    + apply Forall_map_at_line. lia.
    + unfold cursor_inv, len. cbn [docstring index]. unfold l'.
      rewrite length_app, length_firstn, length_skipn. lia.
    + reflexivity.
    + unfold at_line, len. cbn [index length]. rewrite length_map. lia.
Qed.

Lemma cursor_invariant_witness :
  Forall cursor_inv
    (init [lit "Notes"; lit "-----"; lit ""; lit "text"] []
     :: states parse (init [lit "Notes"; lit "-----"; lit ""; lit "text"] []))
  /\ exists pre mid field d',
       get_next_block (mkBaseDoc [lit "x : int"; lit "    The x."] 0 [])
       = (pre ++ [mid; d'], Ok field d')
       /\ Forall cursor_inv pre
       /\ cursor_inv d'
       /\ docstring mid = docstring d'
       /\ index mid = (0 + len field)%Z.
Proof.
  destruct cursor_invariant as [Hparse Hblock]. split.
  - apply Hparse.
  - apply (Hblock (mkBaseDoc [lit "x : int"; lit "    The x."] 0 [])).
    + unfold cursor_inv. vm_compute. split; discriminate.
    + vm_compute. reflexivity.
Defined.

(** C1 as it is stated fails inside [get_next_block]: on the one-line
    buffer [a] the block is the whole buffer, and after [remove_lines] the
    state has no lines and [index = 1]. *)
Lemma cursor_invariant_counterexample :
  ~ (forall d : BaseDoc,
       cursor_inv d -> (index d < len (docstring d))%Z ->
       Forall cursor_inv (states get_next_block d)).
Proof.
  intros H.
  specialize (H (mkBaseDoc [lit "a"] 0 [])).
  assert (Hs : states get_next_block (mkBaseDoc [lit "a"] 0 [])
               = [mkBaseDoc [lit "a"] 1 []; mkBaseDoc [] 1 [];
                  mkBaseDoc [] 0 []]) by reflexivity.
  rewrite Hs in H.
  assert (Hinv : cursor_inv (mkBaseDoc [lit "a"] 0 []))
    by (unfold cursor_inv; vm_compute; split; discriminate).
  specialize (H Hinv eq_refl).
  inversion H as [|? ? _ H1]; subst.
  inversion H1 as [|? ? Hbad _]; subst.
  unfold cursor_inv in Hbad. vm_compute in Hbad.
  destruct Hbad as [_ Hbad]. apply Hbad. reflexivity.
Qed.

(** ** Lines without section headers *)

(** [no_header_at] says what [is_section] answers with the cursor at the
    position. *)
Lemma no_header_at_is_section l hs n :
  no_header_at l n <->
  run is_section (at_line l hs n) = Ok None (at_line l hs n).
Proof.
  unfold no_header_at.
  destruct (Nat.lt_ge_cases n (length l)) as [Hlt|Hge].
  - unfold run. rewrite (@is_section_at_line l hs n Hlt). cbn [snd].
    split; [intros ->; reflexivity | intros H; injection H as H].
    exact H.
  - rewrite run_is_section. unfold at_line at 1 2. cbn [docstring index].
    replace (len l <=? Z.of_nat n)%Z with true
      by (symmetry; apply Z.leb_le; unfold len; lia).
    split; [reflexivity | intros _].
    rewrite (nth_overflow l (lit "") Hge).
    apply section_header_blank. reflexivity.
Qed.

Lemma no_header_beyond l j : (length l <= j)%nat -> no_header_at l j.
Proof.
  intros H. unfold no_header_at. rewrite (nth_overflow l (lit "") H).
  apply section_header_blank. reflexivity.
Qed.

Lemma header_free_all l : header_free_below l (length l) -> no_header l.
Proof.
  intros H n. destruct (Nat.lt_ge_cases n (length l)).
  - apply H. assumption.
  - apply no_header_beyond. assumption.
Qed.

Lemma leading_empty_skipn_nth l a j :
  (a <= j < a + leading_empty (skipn a l))%nat ->
  is_empty (nth j l (lit "")) = true.
Proof.
  intros H.
  replace j with (a + (j - a))%nat by lia. rewrite <- nth_skipn.
  apply leading_empty_nth. lia.
Qed.

Lemma header_free_plain l n :
  header_free_below l n ->
  truthy (section_header (nth n l (lit "")) (nth (S n) l (lit ""))) = false ->
  header_free_below l (S n + leading_empty (skipn (S n) l)).
Proof.
  intros Hb Ht j Hj.
  destruct (Nat.lt_ge_cases j n) as [Hlt|Hge]; [apply Hb, Hlt|].
  destruct (Nat.eq_dec j n) as [->|Hne].
  - apply truthy_section_header, Ht.
  - apply section_header_blank.
    apply (@leading_empty_skipn_nth l (S n) j). lia.
Qed.

Lemma header_free_rewritten l n indent h rest :
  header_free_below l n ->
  forallb isspace indent = true ->
  (n <= length l)%nat ->
  header_free_below (firstn n l ++ rubric_lines indent h ++ rest) (n + 2).
Proof.
  intros Hb Hi Hn j Hj.
  assert (Hf : length (firstn n l) = n) by (rewrite length_firstn; lia).
  assert (Hlow : forall k, (k < n)%nat ->
            nth k (firstn n l ++ rubric_lines indent h ++ rest) (lit "")
            = nth k l (lit "")).
  { intros k Hk. rewrite app_nth1 by lia. rewrite nth_firstn.
    replace (k <? n)%nat with true by (symmetry; apply Nat.ltb_lt; lia).
    reflexivity. }
  assert (Hat : forall k,
            nth (n + k) (firstn n l ++ rubric_lines indent h ++ rest) (lit "")
            = nth k (rubric_lines indent h ++ rest) (lit "")).
  { intros k. rewrite app_nth2 by lia. f_equal. lia. }
  unfold no_header_at.
  destruct (Nat.lt_ge_cases (S j) n) as [Hlt|Hge].
  - rewrite !Hlow by lia. apply Hb. lia.
  - destruct (Nat.eq_dec (S j) n) as [E|Hne].
    + rewrite Hlow by lia.
      replace (S j) with (n + 0)%nat by lia. rewrite Hat.
      apply rubric_not_underline, Hi.
    + destruct (Nat.eq_dec j n) as [->|Hne2].
      * replace (S n) with (n + 1)%nat by lia. rewrite Hat.
        apply section_header_no_underline.
      * replace j with (n + 1)%nat by lia. rewrite Hat.
        apply section_header_blank. reflexivity.
Qed.

Lemma header_free_without_blank l n :
  (n + 2 <= length l)%nat ->
  header_free_below l n -> header_free_below (without_blank l n) n.
Proof.
  intros Hl Hb j Hj. unfold no_header_at.
  rewrite !without_blank_nth by lia. apply Hb, Hj.
Qed.

(** The lines left by a run of the loop that ends without an exception hold
    no section header, when the lines before the cursor held none. *)
Lemma parse_loop_header_free hs : forall f l n d',
  (n <= length l)%nat -> (length l - n < f)%nat ->
  header_free_below l n ->
  run (parse_loop f) (at_line l hs n) = Ok tt d' ->
  no_header (docstring d').
Proof.
  induction f as [|f IH]; intros l n d' Hn Hf Hb Hr; [lia|].
  destruct (Nat.eq_dec n (length l)) as [->|Hne].
  - unfold run in Hr. rewrite turn_eol in Hr by lia. cbn [snd] in Hr.
    injection Hr as <-. apply header_free_all, Hb.
  - assert (Hlt : (n < length l)%nat) by lia.
    destruct (truthy (section_header (nth n l (lit ""))
                        (nth (S n) l (lit "")))) eqn:Et.
    + destruct (section_header (nth n l (lit "")) (nth (S n) l (lit "")))
        as [h|] eqn:Eh; [|discriminate Et].
      destruct (section_header_some _ _ Eh) as [_ [_ Hl2]].
      assert (Hlt2 : (S n < length l)%nat).
      { destruct (Nat.lt_ge_cases (S n) (length l)); auto.
        exfalso. apply Hl2. apply nth_overflow. lia. }
      destruct (@turn_header f l hs n h Hlt2 Eh Et) as [t [_ Hp]].
      pose proof (without_blank_length l n) as Hl1.
      unfold run in Hr. rewrite Hp in Hr.
      destruct (str_eqb _ _); cbn [snd] in Hr; [|discriminate Hr].
      apply IH in Hr; [exact Hr| | |].
      * unfold rubric_lines.
        rewrite !length_app, length_firstn, length_skipn.
        simpl length. lia.
      * unfold rubric_lines.
        rewrite !length_app, length_firstn, length_skipn.
        simpl length. lia.
      * apply header_free_rewritten; [|apply get_indent_spaces|lia].
        apply header_free_without_blank; [lia|exact Hb].
    + pose proof (@leading_empty_skipn l (S n) Hlt) as Hk.
      unfold run in Hr. rewrite turn_plain in Hr by assumption.
      cbn [snd] in Hr.
      apply IH in Hr; [exact Hr|lia|lia|].
      apply header_free_plain; assumption.
Qed.

(** On lines without a section header the loop only moves the cursor. *)
Lemma parse_loop_no_header hs l :
  no_header l ->
  forall f n,
    (n <= length l)%nat -> (length l - n < f)%nat ->
    run (parse_loop f) (at_line l hs n) = Ok tt (at_line l hs (length l)).
Proof.
  intros Hno. induction f as [|f IH]; intros n Hn Hf; [lia|].
  destruct (Nat.eq_dec n (length l)) as [->|Hne].
  - unfold run. rewrite turn_eol by lia. reflexivity.
  - assert (Hlt : (n < length l)%nat) by lia.
    pose proof (@leading_empty_skipn l (S n) Hlt) as Hk.
    unfold run. rewrite turn_plain.
    + cbn [snd]. apply IH; lia.
    + exact Hlt.
    + rewrite (Hno n). reflexivity.
Qed.

Lemma header_free_leading l : header_free_below l (leading_empty l).
Proof.
  intros j Hj. apply section_header_blank.
  apply leading_empty_nth, Hj.
Qed.

Lemma refactored_no_header lines hs :
  no_header lines -> refactored lines hs = Some lines.
Proof.
  intros Hno. unfold refactored, run. rewrite parse_eq. cbn [snd].
  pose proof (leading_empty_le lines) as Hk.
  unfold run in *.
  pose proof (@parse_loop_no_header hs lines Hno (S (length lines))
                (leading_empty lines)) as R.
  unfold run in R. rewrite R by lia. reflexivity.
Qed.

Lemma refactored_header_free lines hs out :
  refactored lines hs = Some out -> no_header out.
Proof.
  unfold refactored, run. rewrite parse_eq. cbn [snd].
  destruct (run (parse_loop (S (length lines)))
              (at_line lines hs (leading_empty lines)))
    as [[] d'| |] eqn:E; try discriminate.
  intros H. injection H as <-.
  pose proof (leading_empty_le lines) as Hk.
  apply (@parse_loop_header_free hs (S (length lines)) lines
           (leading_empty lines) d'); [lia|lia| |exact E].
  apply header_free_leading.
Qed.

(** C9.  On a list of lines in which no two adjacent lines are recognized
    as a section header with its underline, the constructor leaves the
    lines as they are; the lines left by a run that raised nothing are such
    a list, so running the constructor on them again leaves them as they
    are. *)
Theorem refactor_idempotent :
  (forall (lines : list str) (hs : list (str * str)),
     no_header lines -> refactored lines hs = Some lines)
  /\ (forall (lines : list str) (hs : list (str * str)) (out : list str),
        refactored lines hs = Some out ->
        no_header out /\ refactored out hs = Some out).
Proof.
  split.
  - apply refactored_no_header.
  - intros lines hs out H.
    pose proof (refactored_header_free _ _ H) as Hno.
    split; [exact Hno|]. apply refactored_no_header, Hno.
Qed.

Lemma refactor_idempotent_witness :
  refactored [lit ""; lit "Notes"; lit "====="; lit ""; lit "text"] []
  = Some [lit ""; lit ".. rubric:: Notes"; lit ""; lit "text"]
  /\ refactored [lit ""; lit ".. rubric:: Notes"; lit ""; lit "text"] []
     = Some [lit ""; lit ".. rubric:: Notes"; lit ""; lit "text"].
Proof.
  assert (H : refactored
                [lit ""; lit "Notes"; lit "====="; lit ""; lit "text"] []
              = Some [lit ""; lit ".. rubric:: Notes"; lit ""; lit "text"])
    by (vm_compute; reflexivity).
  split; [exact H|].
  destruct refactor_idempotent as [Hfix Hidem].
  destruct (Hidem _ _ _ H) as [Hno Hagain].
  exact (Hfix _ [] Hno).
Defined.

(** * The rest of the code *)

(** ** Indentation and empty lines *)

(** X1.  A line is its indent followed by the line without its leading
    whitespace: [get_indent(line) + line.lstrip() == line].  The indent is
    made of whitespace only, and what follows it does not start with
    whitespace. *)
Theorem get_indent_lstrip : forall line : str,
  get_indent line ++ lstrip line = line
  /\ forallb isspace (get_indent line) = true
  /\ match lstrip line with
     | [] => True
     | c :: _ => isspace c = false
     end.
Proof.
  intros line. split; [|split].
  - induction line as [|c s IH]; [reflexivity|].
    rewrite get_indent_cons. simpl lstrip.
    destruct (isspace c); [|reflexivity].
    simpl. f_equal. exact IH.
  - apply get_indent_spaces.
  - induction line as [|c s IH]; [exact I|].
    simpl. destruct (isspace c) eqn:E; [exact IH | exact E].
Qed.

Lemma is_empty_forallb line : is_empty line = forallb isspace line.
Proof.
  destruct (forallb isspace line) eqn:E.
  - apply is_empty_rstrip, rstrip_spaces, E.
  - destruct (is_empty line) eqn:Ee; [|reflexivity].
    apply is_empty_rstrip, rstrip_nil in Ee. congruence.
Qed.

(** X2.  [is_empty] holds exactly of the lines made of whitespace only,
    the line without characters among them. *)
Theorem is_empty_spaces : forall line : str,
  is_empty line = forallb isspace line.
Proof. exact is_empty_forallb. Qed.

Lemma repeat_spaces n : forallb isspace (repeat (chr 32) n) = true.
Proof. induction n; simpl; auto. Qed.

(** X3.  [add_indent] keeps the number of lines and leaves empty lines
    empty and lines with text with text; taking all indentation off
    afterwards gives what taking it off the original lines gives. *)
Theorem remove_add_indent : forall (lines : list str) (indent : nat),
  length (add_indent lines indent) = length lines
  /\ map is_empty (add_indent lines indent) = map is_empty lines
  /\ remove_indent (add_indent lines indent) = remove_indent lines.
Proof.
  intros lines indent. unfold add_indent, remove_indent.
  split; [apply length_map|]. rewrite !map_map. split.
  - apply map_ext. intros line. destruct (is_empty line) eqn:E; [exact E|].
    rewrite !is_empty_forallb in *. rewrite forallb_app, E.
    apply andb_false_r.
  - apply map_ext. intros line. destruct (is_empty line); [reflexivity|].
    apply lstrip_spaces_app, repeat_spaces.
Qed.

(** ** [fix_star] *)

Lemma fix_star_cons c name :
  fix_star (c :: name)
  = (if is_char (chr 42) c then [chr 92; c] else [c]) ++ fix_star name.
Proof. reflexivity. Qed.

(** X4.  In the text [fix_star] returns every star stands right after a
    backslash, and the text is longer than the name by the number of stars
    in the name (a name without stars comes back as long as it was). *)
Theorem fix_star_escapes : forall name : str,
  (forall i, nth_error (fix_star name) i = Some (chr 42) ->
             exists j, i = S j /\ nth_error (fix_star name) j = Some (chr 92))
  /\ length (fix_star name)
     = (length name + count_occ ascii_dec name (chr 42))%nat.
Proof.
  intros name. split.
  - induction name as [|c name IH]; intros i Hi.
    + destruct i; discriminate Hi.
    + rewrite fix_star_cons in *.
      destruct (is_char (chr 42) c) eqn:Ec.
      * destruct i as [|[|i]].
        -- discriminate Hi.
        -- exists 0%nat. split; reflexivity.
        -- simpl in Hi. destruct (IH i Hi) as [j [-> Hj]].
           exists (S (S j)). split; [reflexivity | exact Hj].
      * destruct i as [|i].
        -- simpl in Hi. injection Hi as ->.
           rewrite is_char_refl in Ec. discriminate Ec.
        -- simpl in Hi. destruct (IH i Hi) as [j [-> Hj]].
           exists (S j). split; [reflexivity | exact Hj].
  - induction name as [|c name IH]; [reflexivity|].
    rewrite fix_star_cons, length_app, IH. cbn [count_occ length].
    unfold is_char. destruct (ascii_dec (chr 42) c) as [<-|Hne].
    + destruct (ascii_dec (chr 42) (chr 42)); [simpl; lia | congruence].
    + destruct (ascii_dec c (chr 42)); [congruence | simpl; lia].
Qed.

(** ** [replace_at] *)

(** X5.  When the word fits in the line from the position onwards,
    [replace_at] writes it over the characters there: the line keeps its
    length, the characters before the position and after the word stay. *)
Theorem replace_at_inside : forall (word line : str) (idx : Z),
  (0 <= idx)%Z -> (idx + len word <= len line)%Z ->
  replace_at word line idx
  = firstn (Z.to_nat idx) line ++ word
    ++ skipn (Z.to_nat idx + length word) line
  /\ length (replace_at word line idx) = length line.
Proof.
  intros word line idx H0 Hfit. unfold len in Hfit.
  assert (E : replace_at word line idx
              = firstn (Z.to_nat idx) line ++ word
                ++ skipn (Z.to_nat idx + length word) line).
  { unfold replace_at.
    remember (Z.to_nat idx) as n eqn:En.
    assert (Hn : idx = Z.of_nat n) by lia. rewrite Hn in *. clear En Hn.
    unfold len. rewrite <- Nat2Z.inj_add, !slice_bound_nat.
    replace (Nat.min n (length line)) with n by lia.
    replace (Nat.min (n + length word) (length line))
      with (n + length word)%nat by lia.
    replace (Nat.max n (n + length word)) with (n + length word)%nat
      by lia.
    reflexivity. }
  split; [exact E|].
  rewrite E, !length_app, length_firstn, length_skipn. lia.
Qed.

Lemma replace_at_inside_witness :
  replace_at (lit "ab") (lit "hello") 1 = lit "hablo".
Proof.
  apply (@replace_at_inside (lit "ab") (lit "hello") 1); vm_compute;
    discriminate.
Defined.

(** X6.  When the word does not fit, [replace_at] cuts the line at the
    position and puts the word there, so a position at or beyond the end
    appends the word: the result has the length of the part that is kept
    and of the word, which is never less than the length of the line, and
    more when the position is inside the line. *)
Theorem replace_at_overflow : forall (word line : str) (idx : Z),
  (0 <= idx)%Z -> (len line < idx + len word)%Z ->
  replace_at word line idx = firstn (Z.to_nat idx) line ++ word
  /\ length (replace_at word line idx)
     = (Nat.min (Z.to_nat idx) (length line) + length word)%nat
  /\ (length line <= length (replace_at word line idx))%nat
  /\ ((idx <= len line)%Z ->
      (length line < length (replace_at word line idx))%nat).
Proof.
  intros word line idx H0 Hover. unfold len in Hover.
  assert (E : replace_at word line idx
              = firstn (Z.to_nat idx) line ++ word).
  { unfold replace_at.
    remember (Z.to_nat idx) as n eqn:En.
    assert (Hn : idx = Z.of_nat n) by lia. rewrite Hn in *. clear En Hn.
    unfold len. rewrite <- Nat2Z.inj_add, !slice_bound_nat.
    replace (Nat.min (n + length word) (length line))
      with (length line) by lia.
    rewrite (skipn_all2 line) by lia. rewrite app_nil_r.
    destruct (Nat.le_gt_cases n (length line)).
    - replace (Nat.min n (length line)) with n by lia.
      reflexivity.
    - replace (Nat.min n (length line)) with (length line) by lia.
      rewrite !firstn_all2 by lia. reflexivity. }
  split; [exact E|].
  rewrite E, length_app, length_firstn. unfold len. lia.
Qed.

Lemma replace_at_overflow_witness :
  replace_at (lit "ab") (lit "hello") 4 = lit "hellab".
Proof.
  apply (@replace_at_overflow (lit "ab") (lit "hello") 4); vm_compute;
    congruence.
Defined.

(** ** [max_header_length] *)

Lemma fold_max_ge (rest : list Z) : forall v,
  (v <= fold_left Z.max rest v)%Z
  /\ (forall x, In x rest -> (x <= fold_left Z.max rest v)%Z)
  /\ (fold_left Z.max rest v = v \/ In (fold_left Z.max rest v) rest).
Proof.
  induction rest as [|y rest IH]; intros v; simpl.
  - repeat split; [lia | tauto | auto].
  - destruct (IH (Z.max v y)) as [H1 [H2 H3]]. repeat split.
    + lia.
    + intros x [<-|Hx]; [lia | auto].
    + destruct H3 as [H3|H3]; [|auto].
      rewrite H3. destruct (Z.max_spec v y) as [[_ ->]|[_ ->]]; auto.
Qed.

(** X7.  [max_header_length] raises [ValueError] on an empty list of
    fields; on any other list it returns the length of the name of one of
    the fields, and no field has a longer name. *)
Theorem max_header_length_spec : forall fields : list field,
  match max_header_length fields with
  | Err e => fields = [] /\ e = ValueError
  | Val m =>
      (exists f, In f fields /\ m = len (fst (fst f)))
      /\ (forall f, In f fields -> (len (fst (fst f)) <= m)%Z)
  end.
Proof.
  intros fields. unfold max_header_length.
  destruct fields as [|f0 fields]; [split; reflexivity|].
  cbn [map py_max].
  destruct (fold_max_ge
              (map (fun f : field => len (fst (fst f))) fields)
              (len (fst (fst f0)))) as [H1 [H2 H3]].
  split.
  - destruct H3 as [H3|H3].
    + exists f0. split; [left; reflexivity | exact H3].
    + apply in_map_iff in H3 as [f [Hf Hin]].
      exists f. split; [right; exact Hin | symmetry; exact Hf].
  - intros f [<-|Hin]; [exact H1|].
    apply H2. apply in_map_iff. exists f. split; [reflexivity | exact Hin].
Qed.

(** ** Edits of the line buffer *)

Lemma del_slice_Z A (l : list A) idx count :
  (0 <= idx)%Z -> (0 <= count)%Z ->
  del_slice l idx (idx + count)
  = firstn (Z.to_nat idx) l ++ skipn (Z.to_nat idx + Z.to_nat count) l.
Proof.
  intros Hi Hc.
  pose proof (del_slice_nat l (Z.to_nat idx) (Z.to_nat count)) as H.
  rewrite !Z2Nat.id in H by assumption. exact H.
Qed.

(** X8.  For a position and a count that are not negative, [remove_lines]
    raises nothing, writes one state and touches neither [index] nor
    [headers]; the lines become those before the position followed by
    those from [position + count] on, so at most [count] lines go, and none
    when the position is at or beyond the end. *)
Theorem remove_lines_spec : forall (d : BaseDoc) (idx count : Z),
  (0 <= idx)%Z -> (0 <= count)%Z ->
  let l' := firstn (Z.to_nat idx) (docstring d)
            ++ skipn (Z.to_nat idx + Z.to_nat count) (docstring d) in
  let d' := mkBaseDoc l' (index d) (headers d) in
  remove_lines idx count d = ([d'], Ok tt d')
  /\ length l'
     = (length (docstring d)
        - Nat.min (Z.to_nat count) (length (docstring d) - Z.to_nat idx))%nat.
Proof.
  intros d idx count Hi Hc l' d'. split.
  - rewrite remove_lines_eq. cbv zeta. unfold d', l'.
    rewrite del_slice_Z by assumption. reflexivity.
  - unfold l'. rewrite length_app, length_firstn, length_skipn. lia.
Qed.

Lemma remove_lines_spec_witness :
  remove_lines 1 2 (mkBaseDoc [lit "a"; lit "b"; lit "c"; lit "d"] 3 [])
  = ([mkBaseDoc [lit "a"; lit "d"] 3 []],
     Ok tt (mkBaseDoc [lit "a"; lit "d"] 3 [])).
Proof.
  apply (@remove_lines_spec
           (mkBaseDoc [lit "a"; lit "b"; lit "c"; lit "d"] 3 []) 1 2);
    vm_compute; discriminate.
Defined.

Lemma insert_each_run hs i n : forall rlines l,
  (n <= length l)%nat ->
  run (insert_each rlines (Z.of_nat n)) (mkBaseDoc l i hs)
  = Ok tt (mkBaseDoc (firstn n l ++ rev rlines ++ skipn n l) i hs).
Proof.
  induction rlines as [|x rlines IH]; intros l Hn.
  - cbn [insert_each rev app]. rewrite firstn_skipn. reflexivity.
  - cbn [insert_each].
    rewrite (run_bind_ok _ (run_get_docstring _)). cbn [docstring].
    assert (Hset : run (set_docstring (list_insert l (Z.of_nat n) x))
                     (mkBaseDoc l i hs)
                   = Ok tt (mkBaseDoc (firstn n l ++ x :: skipn n l) i hs)).
    { unfold run, set_docstring. cbn [snd index headers].
      rewrite list_insert_nat. reflexivity. }
    rewrite (run_bind_ok _ Hset).
    assert (Hf : length (firstn n l) = n) by (rewrite length_firstn; lia).
    rewrite IH by (rewrite length_app, Hf; simpl; lia).
    destruct (firstn_app_exact (firstn n l) (x :: skipn n l) (eq_sym Hf))
      as [-> ->].
    cbn [rev]. rewrite <- !app_assoc. reflexivity.
Qed.

(** X9.  With a position inside the buffer or at its end, [insert_lines]
    puts the lines there in the order they are given, although it inserts
    them one by one from the last; [index] and [headers] stay. *)
Theorem insert_lines_spec : forall (d : BaseDoc) (lines : list str) (idx : Z),
  (0 <= idx <= len (docstring d))%Z ->
  run (insert_lines lines idx) d
  = Ok tt (mkBaseDoc
             (firstn (Z.to_nat idx) (docstring d) ++ lines
              ++ skipn (Z.to_nat idx) (docstring d))
             (index d) (headers d)).
Proof.
  intros [l i hs] lines idx [H0 Hle]. cbn [docstring index headers] in *.
  unfold insert_lines, len in *.
  pose proof (@insert_each_run hs i (Z.to_nat idx) (rev lines) l) as H.
  rewrite (Z2Nat.id idx H0), rev_involutive in H. apply H. lia.
Qed.

Lemma insert_lines_spec_witness :
  run (insert_lines [lit "x"; lit "y"] 1)
    (mkBaseDoc [lit "a"; lit "b"] 0 [])
  = Ok tt (mkBaseDoc [lit "a"; lit "x"; lit "y"; lit "b"] 0 []).
Proof.
  apply (@insert_lines_spec (mkBaseDoc [lit "a"; lit "b"] 0 [])
           [lit "x"; lit "y"] 1).
  vm_compute. split; discriminate.
Defined.

Lemma insert_each_beyond hs i idx : forall rlines l,
  (len l + len rlines <= idx)%Z ->
  run (insert_each rlines idx) (mkBaseDoc l i hs)
  = Ok tt (mkBaseDoc (l ++ rlines) i hs).
Proof.
  induction rlines as [|x rlines IH]; intros l H.
  - cbn [insert_each]. rewrite app_nil_r. reflexivity.
  - unfold len in H. cbn [length] in H. cbn [insert_each].
    rewrite (run_bind_ok _ (run_get_docstring _)). cbn [docstring].
    assert (Hset : run (set_docstring (list_insert l idx x))
                     (mkBaseDoc l i hs)
                   = Ok tt (mkBaseDoc (l ++ [x]) i hs)).
    { unfold run, set_docstring. cbn [snd index headers].
      replace idx with (Z.of_nat (Z.to_nat idx)) by lia.
      rewrite list_insert_nat.
      rewrite firstn_all2, skipn_all2 by lia. reflexivity. }
    rewrite (run_bind_ok _ Hset).
    rewrite IH by (unfold len; rewrite length_app; simpl; lia).
    rewrite <- app_assoc. reflexivity.
Qed.

(** X10.  With a position beyond the end of the buffer by at least the
    number of lines, and below [2 ** 63] so that [list.insert] takes it,
    every [insert] of the loop appends, and the lines end up after the
    buffer in reverse order. *)
Theorem insert_lines_beyond_end :
  forall (d : BaseDoc) (lines : list str) (idx : Z),
  (len (docstring d) + len lines <= idx)%Z ->
  (idx < 2 ^ 63)%Z ->
  run (insert_lines lines idx) d
  = Ok tt (mkBaseDoc (docstring d ++ rev lines) (index d) (headers d)).
Proof.
  intros [l i hs] lines idx H _. cbn [docstring index headers] in *.
  unfold insert_lines. apply insert_each_beyond.
  unfold len in *. rewrite length_rev. exact H.
Qed.

Lemma insert_lines_beyond_end_witness :
  run (insert_lines [lit "x"; lit "y"] 5) (mkBaseDoc [lit "a"] 0 [])
  = Ok tt (mkBaseDoc [lit "a"; lit "y"; lit "x"] 0 []).
Proof.
  apply (@insert_lines_beyond_end (mkBaseDoc [lit "a"] 0 [])
           [lit "x"; lit "y"] 5).
  - vm_compute. discriminate.
  - reflexivity.
Defined.

Lemma getslice_nat A (l : list A) a c :
  getslice l (Z.of_nat a) (Z.of_nat a + Z.of_nat c)
  = firstn c (skipn a l).
Proof.
  unfold getslice. rewrite <- Nat2Z.inj_add, !slice_bound_nat.
  destruct (Nat.le_gt_cases a (length l)).
  - replace (Nat.min a (length l)) with a by lia.
    destruct (Nat.le_gt_cases (a + c) (length l)).
    + replace (Nat.min (a + c) (length l)) with (a + c)%nat by lia.
      f_equal. lia.
    + replace (Nat.min (a + c) (length l)) with (length l) by lia.
      rewrite !firstn_all2 by (rewrite length_skipn; lia). reflexivity.
  - replace (Nat.min a (length l)) with (length l) by lia.
    rewrite !skipn_all2 by lia. rewrite !firstn_nil. reflexivity.
Qed.

(** X11.  Putting back at a position what [remove_lines] took out there
    gives the buffer back: [remove_lines(i, c)] followed by
    [insert_lines(removed, i)], with [removed] the slice [docstring[i:i+c]]
    taken beforehand, ends in the state it started in. *)
Theorem remove_insert_roundtrip : forall (d : BaseDoc) (idx count : Z),
  (0 <= idx)%Z -> (0 <= count)%Z ->
  let removed := getslice (docstring d) idx (idx + count) in
  run (remove_lines idx count ;;; insert_lines removed idx) d = Ok tt d.
Proof.
  intros [l i hs] idx count Hi Hc removed.
  cbn [docstring] in removed.
  rewrite (run_bind_ok _ (run_remove_lines _ _ _)).
  cbn [docstring index headers].
  rewrite del_slice_Z by assumption.
  assert (Hrem : removed
                 = firstn (Z.to_nat count) (skipn (Z.to_nat idx) l)).
  { pose proof (getslice_nat l (Z.to_nat idx) (Z.to_nat count)) as H.
    rewrite !Z2Nat.id in H by assumption. exact H. }
  rewrite Hrem. clear Hrem removed.
  pose proof (Z2Nat.id idx Hi) as Hidx.
  set (n := Z.to_nat idx) in *. set (c := Z.to_nat count).
  rewrite <- Hidx.
  destruct (Nat.le_gt_cases n (length l)) as [Hle|Hgt].
  - unfold insert_lines.
    assert (Hf : length (firstn n l) = n) by (rewrite length_firstn; lia).
    rewrite insert_each_run by (rewrite length_app, Hf; lia).
    destruct (firstn_app_exact (firstn n l) (skipn (n + c) l) (eq_sym Hf))
      as [-> ->].
    rewrite rev_involutive.
    replace (skipn (n + c) l) with (skipn c (skipn n l))
      by (rewrite skipn_skipn; f_equal; lia).
    rewrite firstn_skipn, firstn_skipn. reflexivity.
  - rewrite (skipn_all2 l (n:=n)) by lia. rewrite firstn_nil.
    rewrite firstn_all2, skipn_all2 by lia. rewrite app_nil_r.
    reflexivity.
Qed.

Lemma remove_insert_roundtrip_witness :
  run (remove_lines 1 2 ;;; insert_lines [lit "b"; lit "c"] 1)
    (mkBaseDoc [lit "a"; lit "b"; lit "c"; lit "d"] 0 [])
  = Ok tt (mkBaseDoc [lit "a"; lit "b"; lit "c"; lit "d"] 0 []).
Proof.
  apply (@remove_insert_roundtrip
           (mkBaseDoc [lit "a"; lit "b"; lit "c"; lit "d"] 0 []) 1 2);
    vm_compute; discriminate.
Defined.

(** ** Moving over empty lines and paragraphs *)

Lemma leading_empty_stop (lines : list str) :
  (leading_empty lines < length lines)%nat ->
  is_empty (nth (leading_empty lines) lines (lit "")) = false.
Proof.
  induction lines as [|line rest IH]; simpl; intros H; [lia|].
  destruct (is_empty line) eqn:E; [apply IH; lia | exact E].
Qed.

(** X12.  [seek_to_next_non_empty_line], called with the cursor inside the
    buffer or at its end, only moves the cursor forward: over empty lines
    and no others, up to the first line that is not empty or to the end of
    the buffer. *)
Theorem seek_spec : forall d : BaseDoc,
  cursor_inv d ->
  exists k : nat,
    run seek_to_next_non_empty_line d
    = Ok tt (mkBaseDoc (docstring d) (index d + Z.of_nat k) (headers d))
    /\ (index d + Z.of_nat k <= len (docstring d))%Z
    /\ (forall j, (Z.to_nat (index d) <= j < Z.to_nat (index d) + k)%nat ->
                  is_empty (nth j (docstring d) (lit "")) = true)
    /\ ((index d + Z.of_nat k = len (docstring d))%Z
        \/ is_empty (nth (Z.to_nat (index d) + k) (docstring d) (lit ""))
           = false).
Proof.
  intros [l i hs] [H0 Hle]. cbn [docstring index headers] in *.
  unfold len in *.
  pose proof (Z2Nat.id i H0) as Hi. set (n := Z.to_nat i) in *.
  assert (Hn : (n <= length l)%nat) by lia.
  exists (leading_empty (skipn n l)).
  pose proof (@leading_empty_skipn l n Hn) as Hk.
  destruct (seek_run l hs n) as [Hr _]. unfold at_line in Hr.
  rewrite Hi, Nat2Z.inj_add, Hi in Hr.
  split; [exact Hr|]. split; [lia|]. split.
  - intros j Hj. apply (@leading_empty_skipn_nth l n j). lia.
  - destruct (Nat.eq_dec (n + leading_empty (skipn n l)) (length l))
      as [E|Hne]; [left; lia|].
    right. rewrite <- nth_skipn. apply leading_empty_stop.
    rewrite length_skipn. lia.
Qed.

Lemma seek_spec_witness :
  exists k : nat,
    run seek_to_next_non_empty_line
      (mkBaseDoc [lit ""; lit "  "; lit "text"] 0 [])
    = Ok tt (mkBaseDoc [lit ""; lit "  "; lit "text"] (0 + Z.of_nat k) []).
Proof.
  destruct (@seek_spec (mkBaseDoc [lit ""; lit "  "; lit "text"] 0 []))
    as [k [Hr _]].
  - unfold cursor_inv. vm_compute. split; discriminate.
  - exists k. exact Hr.
Defined.

Lemma paragraph_loop_run : forall fuel l n hs lines,
  (length (skipn n l) < fuel)%nat ->
  run (paragraph_loop fuel lines) (mkBaseDoc l (Z.of_nat n) hs)
  = Ok (lines ++ paragraph (skipn n l))
       (mkBaseDoc l (Z.of_nat (n + length (paragraph (skipn n l)))) hs).
Proof.
  induction fuel as [|fuel IH]; intros l n hs lines Hfuel; [lia|].
  cbn [paragraph_loop].
  rewrite (run_bind_ok _ (run_eol _)). cbn [docstring index].
  destruct (skipn n l) as [|line rest] eqn:E.
  - apply skipn_nil_length in E.
    replace (len l <=? Z.of_nat n)%Z with true
      by (symmetry; apply Z.leb_le; unfold len; lia).
    cbn [paragraph length]. rewrite app_nil_r, Nat.add_0_r. reflexivity.
  - destruct (skipn_cons_nth _ _ E) as [Hn [Hrest Hlt]].
    replace (len l <=? Z.of_nat n)%Z with false
      by (symmetry; apply Z.leb_gt; unfold len; lia).
    rewrite (run_bind_ok _ (run_peek _ _)).
    change 0%Z with (Z.of_nat 0). rewrite line_at_nat, Nat.add_0_r.
    rewrite (nth_error_nth _ _ _ Hn). cbn [paragraph].
    destruct (is_empty line).
    + cbn [length]. rewrite app_nil_r, Nat.add_0_r. reflexivity.
    + rewrite (run_bind_ok _ (run_read_nat hs Hn)).
      rewrite IH by (rewrite Hrest; simpl in Hfuel; lia).
      rewrite Hrest. cbn [length]. rewrite <- app_assoc.
      rewrite Nat.add_succ_r. reflexivity.
Qed.

Lemma paragraph_length rest : (length (paragraph rest) <= length rest)%nat.
Proof.
  induction rest as [|line rest IH]; simpl; [lia|].
  destruct (is_empty line); simpl; lia.
Qed.

(** X13.  [get_next_paragraph] returns the lines from the cursor up to the
    first empty line or the end of the buffer and deletes them from the
    buffer, but it leaves [index] where reading them brought it, after the
    deleted lines: the cursor ends that many lines further in the shorter
    buffer, and past its end unless at least as many lines as were returned
    follow the paragraph. *)
Theorem get_next_paragraph_spec : forall d : BaseDoc,
  cursor_inv d ->
  let n := Z.to_nat (index d) in
  let lines := paragraph (skipn n (docstring d)) in
  let d' := mkBaseDoc
              (firstn n (docstring d)
               ++ skipn (n + length lines) (docstring d))
              (index d + len lines) (headers d) in
  run get_next_paragraph d = Ok lines d'
  /\ (cursor_inv d'
      <-> (2 * length lines <= length (docstring d) - n)%nat).
Proof.
  intros [l i hs] [H0 Hle]. cbn [docstring index headers] in *.
  unfold len in Hle.
  pose proof (Z2Nat.id i H0) as Hi. set (n := Z.to_nat i) in *.
  cbv zeta. set (lines := paragraph (skipn n l)).
  assert (Hlen : (length lines <= length l - n)%nat).
  { unfold lines. pose proof (paragraph_length (skipn n l)) as H.
    rewrite length_skipn in H. exact H. }
  split.
  - unfold get_next_paragraph.
    rewrite (run_bind_ok _ (run_get_docstring _)).
    rewrite (run_bind_ok _ (run_get_index _)). cbn [docstring index].
    assert (Hfuel : (length (skipn n l) < S (length l))%nat)
      by (rewrite length_skipn; lia).
    pose proof (@paragraph_loop_run (S (length l)) l n hs [] Hfuel) as Hp.
    rewrite Hi in Hp. cbn [app] in Hp. fold lines in Hp.
    rewrite (run_bind_ok _ Hp).
    rewrite (run_bind_ok _ (run_get_docstring _)).
    rewrite (run_bind_ok _ (run_get_index _)). cbn [docstring index].
    assert (Hdel : del_slice l i (Z.of_nat (n + length lines))
                   = firstn n l ++ skipn (n + length lines) l).
    { rewrite <- Hi, Nat2Z.inj_add. apply del_slice_nat. }
    unfold run, bind, set_docstring, ret.
    cbn [fst snd docstring index headers]. rewrite Hdel.
    unfold len. rewrite Nat2Z.inj_add, Hi. reflexivity.
  - unfold cursor_inv, len. cbn [docstring index].
    rewrite length_app, length_firstn, length_skipn. lia.
Qed.

Lemma get_next_paragraph_spec_witness :
  run get_next_paragraph
    (mkBaseDoc [lit "a"; lit "b"; lit ""; lit "c"] 0 [])
  = Ok [lit "a"; lit "b"] (mkBaseDoc [lit ""; lit "c"] 2 []).
Proof.
  apply (@get_next_paragraph_spec
           (mkBaseDoc [lit "a"; lit "b"; lit ""; lit "c"] 0 [])).
  unfold cursor_inv. vm_compute. split; discriminate.
Defined.

(** X14.  At the end of the buffer [get_next_block] raises the
    [IndexError] of its first [read] and writes nothing. *)
Theorem get_next_block_at_eol : forall d : BaseDoc,
  (len (docstring d) <= index d)%Z ->
  get_next_block d = ([], Raise IndexError).
Proof.
  intros d H. unfold get_next_block.
  assert (Hread : read d = ([], Raise IndexError)).
  { unfold read, bind, get_index, get_docstring. simpl.
    rewrite getitem_beyond by assumption. reflexivity. }
  rewrite (bind_pair_ok _ (d:=d) (t1:=[]) (a:=index d) (d1:=d) eq_refl).
  unfold states at 1, run at 1.
  rewrite (bind_pair_raise _ Hread). reflexivity.
Qed.

Lemma get_next_block_at_eol_witness :
  get_next_block (mkBaseDoc [lit "a"] 1 []) = ([], Raise IndexError).
Proof.
  apply (@get_next_block_at_eol (mkBaseDoc [lit "a"] 1 [])).
  vm_compute. discriminate.
Defined.

(** ** The header rewrite and its dispatch *)

Lemma refactor_header_run l hs n h :
  (n <= length l)%nat ->
  run (_refactor_header h) (at_line l hs n)
  = Ok (rubric_lines (get_indent (nth n l (lit ""))) h)
       (at_line (firstn n l
                 ++ rubric_lines (get_indent (nth n l (lit ""))) h
                 ++ skipn (n + 2) l) hs (n + 2)).
Proof.
  intros Hlen.
  set (indent := get_indent (nth n l (lit ""))).
  set (l2 := firstn n l ++ skipn (n + 2) l).
  set (l3 := firstn n l ++ lit "" :: skipn (n + 2) l).
  set (l5 := firstn n l ++ rubric_lines indent h ++ skipn (n + 2) l).
  assert (Hf : length (firstn n l) = n) by (rewrite length_firstn; lia).
  assert (Hline : line_at (at_line l hs n) 0 = nth n l (lit "")).
  { change 0%Z with (Z.of_nat 0). unfold at_line.
    rewrite line_at_nat, Nat.add_0_r. reflexivity. }
  assert (E2 : del_slice l (Z.of_nat n) (Z.of_nat n + 2) = l2).
  { change 2%Z with (Z.of_nat 2). apply del_slice_nat. }
  assert (E3 : list_insert l2 (Z.of_nat n) (lit "") = l3).
  { rewrite list_insert_nat. unfold l2, l3.
    destruct (firstn_app_exact (firstn n l) (skipn (n + 2) l)
                (eq_sym Hf)) as [-> ->].
    reflexivity. }
  assert (E5 : list_insert l3 (Z.of_nat n)
                 (indent ++ lit ".. rubric:: "
                  ++ strip_chars (lit "'") (repr h)) = l5).
  { rewrite list_insert_nat. unfold l3, l5, rubric_lines.
    destruct (firstn_app_exact (firstn n l) (lit "" :: skipn (n + 2) l)
                (eq_sym Hf)) as [-> ->].
    reflexivity. }
  unfold run, _refactor_header, insert_lines. cbn [rev app insert_each].
  unfold bind at 1. unfold get_index at 1.
  unfold bind at 1. rewrite peek_line_at, Hline. fold indent.
  unfold remove_lines.
  unfold bind, get_docstring, set_docstring, get_index, set_index, ret.
  cbn [fst snd docstring index headers app at_line].
  rewrite E2, E3, E5. unfold at_line, rubric_lines, len. cbn [length].
  rewrite Nat2Z.inj_add. reflexivity.
Qed.

(** X15.  [_refactor_header], called with the cursor inside the buffer or
    at its end, puts the rubric line, written with the indent of the line
    at the cursor, and an empty line in the place of the two lines at the
    cursor (of the lines that are there, when fewer than two are left),
    moves the cursor past the two new lines and returns them; the cursor
    stays inside the buffer, and the buffer keeps its length when two lines
    were there. *)
Theorem refactor_header_spec : forall (d : BaseDoc) (header : str),
  cursor_inv d ->
  let n := Z.to_nat (index d) in
  let new := rubric_lines (get_indent (nth n (docstring d) (lit ""))) header in
  let d' := mkBaseDoc
              (firstn n (docstring d) ++ new ++ skipn (n + 2) (docstring d))
              (index d + 2) (headers d) in
  run (_refactor_header header) d = Ok new d'
  /\ cursor_inv d'
  /\ ((index d + 2 <= len (docstring d))%Z ->
      length (docstring d') = length (docstring d)).
Proof.
  intros [l i hs] header [H0 Hle]. cbn [docstring index headers] in *.
  unfold len in Hle.
  pose proof (Z2Nat.id i H0) as Hi. set (n := Z.to_nat i) in *.
  cbv zeta. split; [|split].
  - pose proof (@refactor_header_run l hs n header) as H.
    unfold at_line in H. rewrite Nat2Z.inj_add, Hi in H. apply H. lia.
  - unfold cursor_inv, len, rubric_lines. cbn [docstring index].
    rewrite !length_app, length_firstn, length_skipn. simpl length. lia.
  - intros Hfit. unfold len in Hfit. cbn [docstring]. unfold rubric_lines.
    rewrite !length_app, length_firstn, length_skipn. simpl length. lia.
Qed.

Lemma refactor_header_spec_witness :
  run (_refactor_header (lit "Notes"))
    (mkBaseDoc [lit "  Notes"; lit "  -----"; lit "text"] 0 [])
  = Ok [lit "  .. rubric:: Notes"; lit ""]
       (mkBaseDoc [lit "  .. rubric:: Notes"; lit ""; lit "text"] 2 []).
Proof.
  apply (@refactor_header_spec
           (mkBaseDoc [lit "  Notes"; lit "  -----"; lit "text"] 0 [])
           (lit "Notes")).
  unfold cursor_inv. vm_compute. split; discriminate.
Defined.

Lemma dict_get_missing hs key default :
  (forall v, ~ In (key, v) hs) -> dict_get hs key default = default.
Proof.
  induction hs as [|[k v] hs IH]; intros H; [reflexivity|].
  simpl. destruct (str_eqb k key) eqn:E.
  - apply str_eqb_true in E. subst k. exfalso. apply (H v). left.
    reflexivity.
  - apply IH. intros v' Hin. apply (H v'). right. exact Hin.
Qed.

Lemma refactor_method_name postfix :
  str_eqb (lit "_refactor_" ++ postfix) (lit "_refactor_header") = true
  <-> postfix = lit "header".
Proof.
  rewrite str_eqb_true.
  change (lit "_refactor_header") with (lit "_refactor_" ++ lit "header").
  split; [apply app_inv_head | intros ->; reflexivity].
Qed.

(** X16.  A header that is not a key of [headers] is refactored by the
    default method: [_refactor] writes the states that [_refactor_header]
    writes and ends in the state it ends in; it returns [None] where
    [_refactor_header] returns the two lines it has put in. *)
Theorem refactor_missing_key : forall (d : BaseDoc) (header : str),
  (forall v, ~ In (header, v) (headers d)) ->
  states (_refactor header) d = states (_refactor_header header) d
  /\ run (_refactor header) d
     = match run (_refactor_header header) d with
       | Ok _ d' => Ok tt d'
       | Raise e => Raise e
       | OutOfFuel => OutOfFuel
       end.
Proof.
  intros d header H. unfold states at 1, run at 1. rewrite refactor_eq.
  rewrite dict_get_missing by exact H.
  replace (str_eqb (lit "_refactor_" ++ lit "header")
             (lit "_refactor_header")) with true by reflexivity.
  split; reflexivity.
Qed.

Lemma refactor_missing_key_witness :
  run (_refactor (lit "Notes"))
    (mkBaseDoc [lit "  Notes"; lit "  -----"; lit "text"] 0
       [(lit "Methods", lit "method")])
  = Ok tt (mkBaseDoc [lit "  .. rubric:: Notes"; lit ""; lit "text"] 2
             [(lit "Methods", lit "method")]).
Proof.
  apply (@refactor_missing_key
           (mkBaseDoc [lit "  Notes"; lit "  -----"; lit "text"] 0
              [(lit "Methods", lit "method")])
           (lit "Notes")).
  intros v [H|[]]. discriminate H.
Defined.

(** X17.  A header that [headers] sends to a postfix other than [header]
    makes [_refactor] raise [AttributeError], for [BaseDoc] has no method
    of that name; nothing is written before. *)
Theorem refactor_unknown_method : forall (d : BaseDoc) (header : str),
  dict_get (headers d) header (lit "header") <> lit "header" ->
  _refactor header d = ([], Raise AttributeError).
Proof.
  intros d header H. rewrite refactor_eq.
  destruct (str_eqb _ _) eqn:E; [|reflexivity].
  apply refactor_method_name in E. contradiction.
Qed.

Lemma refactor_unknown_method_witness :
  _refactor (lit "Methods")
    (mkBaseDoc [lit "Methods"; lit "-------"] 0
       [(lit "Methods", lit "method")])
  = ([], Raise AttributeError).
Proof.
  apply refactor_unknown_method. vm_compute. discriminate.
Defined.

(** ** [parse] with the default method only *)

Lemma parse_loop_default hs :
  default_headers hs ->
  forall f l n,
    (n <= length l)%nat -> (length l - n < f)%nat ->
    exists l',
      run (parse_loop f) (at_line l hs n) = Ok tt (at_line l' hs (length l'))
      /\ (length l' <= length l)%nat.
Proof.
  intros Hd. induction f as [|f IH]; intros l n Hn Hf; [lia|].
  destruct (Nat.eq_dec n (length l)) as [->|Hne].
  - exists l. unfold run. rewrite turn_eol by lia. split; [reflexivity|lia].
  - assert (Hlt : (n < length l)%nat) by lia.
    destruct (truthy (section_header (nth n l (lit ""))
                        (nth (S n) l (lit "")))) eqn:Et.
    + destruct (section_header (nth n l (lit "")) (nth (S n) l (lit "")))
        as [h|] eqn:Eh; [|discriminate Et].
      destruct (section_header_some _ _ Eh) as [_ [_ Hl2]].
      assert (Hlt2 : (S n < length l)%nat).
      { destruct (Nat.lt_ge_cases (S n) (length l)); auto.
        exfalso. apply Hl2. apply nth_overflow. lia. }
      destruct (@turn_header f l hs n h Hlt2 Eh Et) as [t [_ Hp]].
      pose proof (without_blank_length l n) as Hl1.
      rewrite (Hd h) in Hp.
      replace (str_eqb (lit "_refactor_" ++ lit "header")
                 (lit "_refactor_header")) with true in Hp by reflexivity.
      unfold run at 1. rewrite Hp. cbn [snd].
      match goal with
      | |- context [at_line ?l5 hs (n + 2)] =>
          assert (H5 : length l5 = length (without_blank l n))
      end.
      { unfold rubric_lines.
        rewrite !length_app, length_firstn, length_skipn.
        simpl length. lia. }
      match goal with
      | |- context [at_line ?l5 hs (n + 2)] =>
          destruct (IH l5 (n + 2)%nat) as [l' [Hr Hl']]
      end; [lia | lia |].
      exists l'. split; [exact Hr | lia].
    + pose proof (@leading_empty_skipn l (S n) Hlt) as Hk.
      unfold run at 1. rewrite turn_plain by assumption. cbn [snd].
      apply IH; lia.
Qed.

(** X18.  When every header is refactored by the default method (no
    headers are registered, or only for the postfix [header]), the
    constructor raises nothing on any list of lines, and the lines it
    leaves are not more than it was given. *)
Theorem refactored_default : forall (lines : list str) (hs : list (str * str)),
  default_headers hs ->
  exists out,
    refactored lines hs = Some out /\ (length out <= length lines)%nat.
Proof.
  intros lines hs Hd. unfold refactored, run. rewrite parse_eq. cbn [snd].
  pose proof (leading_empty_le lines) as Hk.
  destruct (@parse_loop_default hs Hd (S (length lines)) lines
              (leading_empty lines)) as [l' [Hr Hl']]; [lia | lia |].
  rewrite Hr. exists l'. split; [reflexivity | exact Hl'].
Qed.

Lemma refactored_default_witness :
  exists out,
    refactored [lit "Notes"; lit "-----"; lit ""; lit "text"] [] = Some out
    /\ (length out <= 4)%nat.
Proof.
  apply (@refactored_default [lit "Notes"; lit "-----"; lit ""; lit "text"]
           []).
  intros key. reflexivity.
Defined.

(** ** The field checks *)

Lemma re_prefixmatch_lang s : forall r,
  re_prefixmatch r s = true <-> exists p t, s = p ++ t /\ Re.lang r p.
Proof.
  induction s as [|c s IH]; intros r; cbn [re_prefixmatch].
  - rewrite orb_false_r, ReFacts.nullable_lang. split.
    + intros H. exists [], []. auto.
    + intros [p [t [E H]]]. symmetry in E.
      apply app_eq_nil in E as [-> _]. exact H.
  - rewrite orb_true_iff, IH, ReFacts.nullable_lang. split.
    + intros [H | [p [t [-> H]]]].
      * exists [], (c :: s). auto.
      * exists (c :: p), t. split; [reflexivity|].
        apply ReFacts.deriv_lang, H.
    + intros [p [t [E H]]]. destruct p as [|a p].
      * left. exact H.
      * simpl in E. injection E as <- ->. right. exists p, t.
        split; [reflexivity|]. apply ReFacts.deriv_lang, H.
Qed.

Lemma lang_lit c p : Re.lang (Re.Lit c) p <-> p = [c].
Proof.
  unfold Re.Lit. split.
  - intros H. inversion H as [|q a Ha| | | | |]; subst.
    apply is_char_true in Ha. subst a. reflexivity.
  - intros ->. constructor. apply is_char_refl.
Qed.

Lemma lang_text s : forall p, Re.lang (re_text s) p <-> p = s.
Proof.
  induction s as [|c s IH]; intros p; cbn [re_text].
  - split; [intros H; inversion H; reflexivity | intros ->; constructor].
  - split.
    + intros H. inversion H as [| |r1 r2 s1 s2 H1 H2| | | |]; subst.
      apply lang_lit in H1. apply IH in H2. subst. reflexivity.
    + intros ->. change (c :: s) with ([c] ++ s).
      apply Re.lang_cat; [apply lang_lit | apply IH]; reflexivity.
Qed.

Lemma lang_opt_lit c p :
  Re.lang (Re.Opt (Re.Lit c)) p <-> p = [] \/ p = [c].
Proof.
  unfold Re.Opt. split.
  - intros H. inversion H as [| | |r1 r2 s H1|r1 r2 s H1| |]; subst.
    + inversion H1. left. reflexivity.
    + apply lang_lit in H1. right. exact H1.
  - intros [-> | ->].
    + apply Re.lang_alt_l. constructor.
    + apply Re.lang_alt_r, lang_lit. reflexivity.
Qed.

Lemma lang_plus_cls q p :
  Re.lang (Re.Plus (Re.Cls q)) p <-> p <> [] /\ forallb q p = true.
Proof.
  unfold Re.Plus. split.
  - intros H. inversion H as [| |r1 r2 s1 s2 H1 H2| | | |]; subst.
    inversion H1 as [|q' a Ha| | | | |]; subst.
    apply ReFacts.star_cls in H2. split; [discriminate|].
    simpl. rewrite Ha, H2. reflexivity.
  - intros [Hne H]. destruct p as [|a p]; [contradiction|].
    simpl in H. apply andb_true_iff in H as [Ha Hp].
    change (a :: p) with ([a] ++ p).
    apply Re.lang_cat; [constructor; exact Ha|].
    apply ReFacts.star_cls, Hp.
Qed.

Lemma variable_field_lang indent p :
  Re.lang (variable_field_regex indent) p <->
  exists k name sp,
    (k <= 2)%nat /\ name <> [] /\ forallb isword name = true
    /\ isspace sp = true
    /\ p = indent ++ repeat (chr 42) k ++ name ++ [sp; chr 58].
Proof.
  unfold variable_field_regex. split.
  - intros H.
    inversion H as [| |r1 r2 i x Hi Hx| | | |]; subst.
    inversion Hx as [| |r1 r2 a y Ha Hy| | | |]; subst.
    inversion Hy as [| |r1 r2 b z Hb Hz| | | |]; subst.
    inversion Hz as [| |r1 r2 name w Hn Hw| | | |]; subst.
    inversion Hw as [| |r1 r2 s c Hs Hc| | | |]; subst.
    apply lang_text in Hi. subst i.
    apply lang_opt_lit in Ha, Hb.
    apply lang_plus_cls in Hn as [Hne Hn].
    apply lang_lit in Hc. subst c.
    inversion Hs as [|q sp Hsp| | | | |]; subst.
    exists (length a + length b)%nat, name, sp.
    repeat split; try assumption.
    + destruct Ha as [-> | ->], Hb as [-> | ->]; simpl; lia.
    + destruct Ha as [-> | ->], Hb as [-> | ->]; reflexivity.
  - intros [k [name [sp [Hk [Hne [Hn [Hsp ->]]]]]]].
    apply Re.lang_cat; [apply lang_text; reflexivity|].
    assert (Hrest : Re.lang
              (Re.Cat (Re.Plus Re.Word) (Re.Cat Re.Space (Re.Lit (chr 58))))
              (name ++ [sp; chr 58])).
    { apply Re.lang_cat; [apply lang_plus_cls; auto|].
      change [sp; chr 58] with ([sp] ++ [chr 58]).
      apply Re.lang_cat; [constructor; exact Hsp | apply lang_lit].
      reflexivity. }
    destruct k as [|[|[|k]]]; [| | |lia].
    + change (repeat (chr 42) 0 ++ name ++ [sp; chr 58])
        with ([] ++ [] ++ name ++ [sp; chr 58]).
      apply Re.lang_cat; [apply lang_opt_lit; auto|].
      apply Re.lang_cat; [apply lang_opt_lit; auto|]. exact Hrest.
    + change (repeat (chr 42) 1 ++ name ++ [sp; chr 58])
        with ([chr 42] ++ [] ++ name ++ [sp; chr 58]).
      apply Re.lang_cat; [apply lang_opt_lit; auto|].
      apply Re.lang_cat; [apply lang_opt_lit; auto|]. exact Hrest.
    + change (repeat (chr 42) 2 ++ name ++ [sp; chr 58])
        with ([chr 42] ++ [chr 42] ++ name ++ [sp; chr 58]).
      apply Re.lang_cat; [apply lang_opt_lit; auto|].
      apply Re.lang_cat; [apply lang_opt_lit; auto|]. exact Hrest.
Qed.

Lemma is_variable_field_iff line indent :
  is_variable_field line indent = true <->
  exists k name sp rest,
    (k <= 2)%nat /\ name <> [] /\ forallb isword name = true
    /\ isspace sp = true
    /\ match rest with [] => True | c :: _ => isspace c = true end
    /\ line = indent ++ repeat (chr 42) k ++ name ++ sp :: chr 58 :: rest.
Proof.
  unfold is_variable_field, Re.match_dollar.
  rewrite !orb_true_iff, re_prefixmatch_lang, !ReFacts.fullmatch_lang.
  split.
  - intros [[p [t [-> H]]] | [H | H]].
    + inversion H as [| |r1 r2 core ws Hc Hws| | | |]; subst.
      apply variable_field_lang in Hc
        as [k [name [sp [Hk [Hne [Hn [Hsp ->]]]]]]].
      apply lang_plus_cls in Hws as [Hwne Hws].
      destruct ws as [|c ws]; [contradiction|].
      simpl in Hws. apply andb_true_iff in Hws as [Hc _].
      exists k, name, sp, ((c :: ws) ++ t).
      repeat split; try assumption.
      rewrite <- !app_assoc. reflexivity.
    + apply variable_field_lang in H
        as [k [name [sp [Hk [Hne [Hn [Hsp ->]]]]]]].
      exists k, name, sp, []. repeat split; assumption.
    + inversion H as [| |r1 r2 core nl Hc Hnl| | | |]; subst.
      apply variable_field_lang in Hc
        as [k [name [sp [Hk [Hne [Hn [Hsp ->]]]]]]].
      apply lang_lit in Hnl. subst nl.
      exists k, name, sp, [chr 10].
      repeat split; try assumption.
      rewrite <- !app_assoc. reflexivity.
  - intros [k [name [sp [rest [Hk [Hne [Hn [Hsp [Hrest ->]]]]]]]]].
    assert (Hcore : Re.lang (variable_field_regex indent)
                      (indent ++ repeat (chr 42) k ++ name ++ [sp; chr 58])).
    { apply variable_field_lang. exists k, name, sp. auto. }
    destruct rest as [|c rest].
    + right. left. exact Hcore.
    + left.
      exists ((indent ++ repeat (chr 42) k ++ name ++ [sp; chr 58]) ++ [c]),
        rest.
      split; [rewrite <- !app_assoc; reflexivity|].
      apply Re.lang_cat; [exact Hcore|].
      apply lang_plus_cls. split; [discriminate|].
      simpl. rewrite Hrest. reflexivity.
Qed.

Lemma isword_not_space c : isword c = true -> isspace c = false.
Proof.
  unfold isword, isalpha, isdigit, isspace. intros H.
  destruct ((ord c =? 32)%nat || ((9 <=? ord c)%nat && (ord c <=? 13)%nat))
    eqn:E; [|reflexivity].
  exfalso.
  destruct (65 <=? ord c)%nat eqn:E1, (ord c <=? 90)%nat eqn:E2,
    (97 <=? ord c)%nat eqn:E3, (ord c <=? 122)%nat eqn:E4,
    (48 <=? ord c)%nat eqn:E5, (ord c <=? 57)%nat eqn:E6,
    (ord c =? 95)%nat eqn:E7; try discriminate H;
  destruct (ord c =? 32)%nat eqn:E8, (9 <=? ord c)%nat eqn:E9,
    (ord c <=? 13)%nat eqn:E10; try discriminate E;
  rewrite ?Nat.leb_le, ?Nat.leb_gt, ?Nat.eqb_eq, ?Nat.eqb_neq in *; lia.
Qed.

Lemma is_empty_forall line :
  is_empty line = true -> forallb isspace line = true.
Proof. intros H. apply rstrip_nil, is_empty_rstrip, H. Qed.

Lemma is_variable_field_blank line indent :
  is_empty line = true -> is_variable_field line indent = false.
Proof.
  intros He. destruct (is_variable_field line indent) eqn:E; [|reflexivity].
  exfalso. apply is_variable_field_iff in E
    as [k [name [sp [rest [_ [Hne [Hn [_ [_ ->]]]]]]]]].
  apply is_empty_forall in He.
  rewrite !forallb_app in He.
  apply andb_true_iff in He as [_ He].
  apply andb_true_iff in He as [_ He].
  apply andb_true_iff in He as [He _].
  destruct name as [|w name]; [contradiction|].
  simpl in Hn, He.
  apply andb_true_iff in Hn as [Hw _]. apply andb_true_iff in He as [Hs _].
  apply isword_not_space in Hw. congruence.
Qed.

(** X19.  With an indent made of whitespace, [is_variable_field] accepts
    exactly the lines that start with the indent itself, then at most two
    stars, a non-empty name of word characters, one whitespace character
    and a colon, the colon being the end of the line or followed by
    whitespace. *)
Theorem is_variable_field_spec : forall line indent : str,
  forallb isspace indent = true ->
  (is_variable_field line indent = true <->
   exists k name sp rest,
     (k <= 2)%nat /\ name <> [] /\ forallb isword name = true
     /\ isspace sp = true
     /\ match rest with [] => True | c :: _ => isspace c = true end
     /\ line = indent ++ repeat (chr 42) k ++ name ++ sp :: chr 58 :: rest).
Proof. intros line indent _. apply is_variable_field_iff. Qed.

Lemma is_variable_field_spec_witness :
  is_variable_field (lit "    **kwargs : dict") (lit "    ") = true.
Proof.
  apply (@is_variable_field_spec (lit "    **kwargs : dict") (lit "    "));
    [reflexivity|].
  exists 2%nat, (lit "kwargs"), (chr 32), (lit " dict").
  repeat split; try reflexivity; try lia; discriminate.
Defined.

Lemma is_method_field_iff line indent :
  is_method_field line indent = true <->
  exists name args rest,
    name <> [] /\ forallb isword name = true
    /\ forallb (fun c => negb (is_char (chr 10) c)) args = true
    /\ line = indent ++ name ++ chr 40 :: args ++ chr 41 :: rest.
Proof.
  unfold is_method_field.
  rewrite re_prefixmatch_lang. unfold Re.Dot, Re.Space. split.
  - intros [p [t [-> H]]].
    inversion H as [| |r1 r2 i x Hi Hx| | | |]; subst.
    inversion Hx as [| |r1 r2 name y Hn Hy| | | |]; subst.
    inversion Hy as [| |r1 r2 o z Ho Hz| | | |]; subst.
    inversion Hz as [| |r1 r2 args w Ha Hw| | | |]; subst.
    inversion Hw as [| |r1 r2 c ws Hc Hws| | | |]; subst.
    apply lang_text in Hi. subst i.
    apply lang_plus_cls in Hn as [Hne Hn].
    apply lang_lit in Ho, Hc. subst o c.
    apply ReFacts.star_cls in Ha.
    exists name, args, (ws ++ t). repeat split; try assumption.
    rewrite <- !app_assoc. reflexivity.
  - intros [name [args [rest [Hne [Hn [Ha ->]]]]]].
    exists (indent ++ name ++ [chr 40] ++ args ++ [chr 41] ++ []), rest.
    split; [rewrite <- !app_assoc; reflexivity|].
    apply Re.lang_cat; [apply lang_text; reflexivity|].
    apply Re.lang_cat; [apply lang_plus_cls; auto|].
    apply Re.lang_cat; [apply lang_lit; reflexivity|].
    apply Re.lang_cat; [apply ReFacts.star_cls, Ha|].
    apply Re.lang_cat; [apply lang_lit; reflexivity|].
    constructor.
Qed.

Lemma is_method_field_blank line indent :
  is_empty line = true -> is_method_field line indent = false.
Proof.
  intros He. destruct (is_method_field line indent) eqn:E; [|reflexivity].
  exfalso. apply is_method_field_iff in E
    as [name [args [rest [Hne [Hn [_ ->]]]]]].
  apply is_empty_forall in He.
  rewrite !forallb_app in He.
  apply andb_true_iff in He as [_ He].
  apply andb_true_iff in He as [He _].
  destruct name as [|w name]; [contradiction|]. simpl in Hn, He.
  apply andb_true_iff in Hn as [Hw _]. apply andb_true_iff in He as [Hs _].
  apply isword_not_space in Hw. congruence.
Qed.

(** X20.  With an indent made of whitespace, [is_method_field] accepts
    exactly the lines that start with the indent itself, then a non-empty
    name of word characters, an opening parenthesis and, before a newline,
    a closing one; what follows the closing parenthesis is not looked
    at. *)
Theorem is_method_field_spec : forall line indent : str,
  forallb isspace indent = true ->
  (is_method_field line indent = true <->
   exists name args rest,
     name <> [] /\ forallb isword name = true
     /\ forallb (fun c => negb (is_char (chr 10) c)) args = true
     /\ line = indent ++ name ++ chr 40 :: args ++ chr 41 :: rest).
Proof. intros line indent _. apply is_method_field_iff. Qed.

Lemma is_method_field_spec_witness :
  is_method_field (lit "  move(self, x) -> None") (lit "  ") = true.
Proof.
  apply (@is_method_field_spec (lit "  move(self, x) -> None") (lit "  "));
    [reflexivity|].
  exists (lit "move"), (lit "self, x"), (lit " -> None").
  repeat split; try reflexivity; discriminate.
Defined.

(** ** [parse_field] *)

Lemma rstrip_nonspace_cons c s :
  isspace c = false -> rstrip (c :: s) = c :: rstrip s.
Proof.
  intros H. rewrite rstrip_cons, H. destruct (rstrip s); reflexivity.
Qed.

Lemma rstrip_app_nonempty s t :
  rstrip t <> [] -> rstrip (s ++ t) = s ++ rstrip t.
Proof.
  intros Hne. induction s as [|c s IH]; [reflexivity|].
  change ((c :: s) ++ t) with (c :: (s ++ t)).
  rewrite rstrip_cons, IH.
  destruct (s ++ rstrip t) eqn:E; [|simpl; rewrite E; reflexivity].
  apply app_eq_nil in E as [_ E]. contradiction.
Qed.

Lemma strip_space_cons c s : isspace c = true -> strip (c :: s) = strip s.
Proof.
  intros H. unfold strip. rewrite <- !rstrip_lstrip. simpl. rewrite H.
  reflexivity.
Qed.

Lemma strip_rstrip s : strip (rstrip s) = strip s.
Proof. unfold strip. rewrite rstrip_idem. reflexivity. Qed.

(** [split_colon] on a whitespace-free name followed by [" :"]. *)
Lemma split_colon_name t y :
  forallb nonspace t = true ->
  split_colon (t ++ lit " :" ++ y)
  = Some (t, match y with
             | c2 :: rest' => if isspace c2 then rest' else y
             | [] => []
             end).
Proof.
  induction t as [|a t IH]; intros H.
  - reflexivity.
  - simpl in H. apply andb_true_iff in H as [Ha Ht].
    unfold nonspace in Ha. apply negb_true_iff in Ha.
    change ((a :: t) ++ lit " :" ++ y) with (a :: (t ++ lit " :" ++ y)).
    destruct (t ++ lit " :" ++ y) as [|c1 rest] eqn:E.
    + apply app_eq_nil in E as [_ E]. discriminate E.
    + rewrite split_colon_cons, Ha. cbn [andb].
      rewrite (IH Ht). reflexivity.
Qed.

Lemma len_gt_1_cons A (x : A) rest :
  (1 <? len (x :: rest))%Z = match rest with [] => false | _ :: _ => true end.
Proof.
  unfold len. destruct rest; [reflexivity|].
  apply Z.ltb_lt. simpl length. lia.
Qed.

Lemma parse_field_cons line0 rest :
  exists name type,
    parse_field (line0 :: rest)
    = Val (strip name, strip type,
           match rest with [] => [lit ""] | _ :: _ => map rstrip rest end)
    /\ (contains (lit " :") (strip line0) = false ->
        name = strip line0 /\ type = lit "").
Proof.
  unfold parse_field. rewrite len_gt_1_cons.
  destruct (contains (lit " :") (strip line0)) eqn:E.
  - destruct (split_colon_some _ E) as [a [b ->]].
    exists a, b. split; [|discriminate].
    destruct rest; reflexivity.
  - exists (strip line0), (lit ""). split; [|auto].
    destruct rest; reflexivity.
Qed.

(** X21.  [parse_field] raises only on the empty block, and then
    [IndexError]: the unpacking of the split never fails.  On a block with
    a first line it returns a name and a type that are stripped, and as the
    description the lines after the first without their trailing
    whitespace, or the list of one empty string when there are none; a
    first line without [" :"] is, stripped, the name, and the type is
    empty. *)
Theorem parse_field_spec : forall lines : list str,
  match parse_field lines with
  | Err e => lines = [] /\ e = IndexError
  | Val (name, type, desc) =>
      exists line0 rest,
        lines = line0 :: rest
        /\ strip name = name /\ strip type = type
        /\ desc = match rest with
                  | [] => [lit ""]
                  | _ :: _ => map rstrip rest
                  end
        /\ (contains (lit " :") (strip line0) = false ->
            name = strip line0 /\ type = lit "")
  end.
Proof.
  intros [|line0 rest]; [split; reflexivity|].
  destruct (parse_field_cons line0 rest) as [name [type [-> Hno]]].
  exists line0, rest. rewrite !strip_idem.
  repeat split; try reflexivity.
  - destruct (Hno H) as [-> _]. apply strip_idem.
  - destruct (Hno H) as [_ ->]. reflexivity.
Qed.

(** X22.  A first line made of a name without whitespace, [" :"] and any
    text, with or without indentation, is parsed into the name and the
    stripped text: this covers the documented forms [<name> : <type>] and
    [<name> :]. *)
Theorem parse_field_name_type : forall (w name tail : str) (rest : list str),
  forallb isspace w = true ->
  token name = true ->
  parse_field ((w ++ name ++ lit " :" ++ tail) :: rest)
  = Val (name, strip tail,
         match rest with [] => [lit ""] | _ :: _ => map rstrip rest end).
Proof.
  intros w name tail rest Hw Hname.
  assert (Hr : rstrip (w ++ name ++ lit " :" ++ tail)
               = w ++ name ++ lit " :" ++ rstrip tail).
  { change (lit " :" ++ tail) with ([chr 32] ++ chr 58 :: tail).
    rewrite !app_assoc.
    rewrite rstrip_app_nonempty;
      rewrite rstrip_nonspace_cons by reflexivity; [|discriminate].
    rewrite <- !app_assoc. reflexivity. }
  assert (Hh : strip (w ++ name ++ lit " :" ++ tail)
               = name ++ lit " :" ++ rstrip tail).
  { unfold strip. rewrite Hr, lstrip_spaces_app by exact Hw.
    apply lstrip_token_app, Hname. }
  unfold parse_field. rewrite len_gt_1_cons, Hh.
  replace (contains (lit " :") (name ++ lit " :" ++ rstrip tail)) with true
    by (symmetry; apply contains_app_r, contains_app_l; reflexivity).
  rewrite split_colon_name by (apply token_nonspaces, Hname).
  rewrite (strip_token _ Hname).
  assert (Ht : strip match rstrip tail with
                     | [] => []
                     | c2 :: rest' =>
                         if isspace c2 then rest' else rstrip tail
                     end = strip tail).
  { rewrite <- (strip_rstrip tail).
    destruct (rstrip tail) as [|c2 r]; [reflexivity|].
    destruct (isspace c2) eqn:E; [|reflexivity].
    symmetry. apply strip_space_cons, E. }
  destruct rest; cbn [map tl]; do 3 f_equal; exact Ht.
Qed.

Lemma parse_field_name_type_witness :
  parse_field [lit "    x : int, optional  "; lit "        The abscissa.  "]
  = Val (lit "x", lit "int, optional", [lit "        The abscissa."]).
Proof.
  apply (@parse_field_name_type (lit "    ") (lit "x")
           (lit " int, optional  ") [lit "        The abscissa.  "]);
    reflexivity.
Defined.

(** ** [extract_fields] *)

Lemma cut_length A (l : list A) n j :
  (n + j <= length l)%nat ->
  length (firstn n l ++ skipn (n + j) l) = (length l - j)%nat.
Proof.
  intros H. rewrite length_app, length_firstn, length_skipn. lia.
Qed.

Lemma cut_cut A (l : list A) n j k :
  (n <= length l)%nat ->
  firstn n (firstn n l ++ skipn (n + j) l)
  ++ skipn (n + k) (firstn n l ++ skipn (n + j) l)
  = firstn n l ++ skipn (n + (j + k)) l.
Proof.
  intros H.
  assert (Hf : length (firstn n l) = n) by (rewrite length_firstn; lia).
  rewrite firstn_app, skipn_app, Hf.
  rewrite (firstn_all2 (firstn n l)) by lia.
  rewrite (skipn_all2 (firstn n l)) by lia.
  replace (n - n)%nat with 0%nat by lia.
  replace (n + k - n)%nat with k by lia.
  cbn [firstn app]. rewrite app_nil_r, skipn_skipn.
  replace (k + (n + j))%nat with (n + (j + k))%nat by lia. reflexivity.
Qed.

Section ExtractFields.

Variable is_field : str -> str -> bool.
Variable indent : str.
Hypothesis blank_rejected :
  forall line, is_empty line = true -> is_field line indent = false.

Lemma extract_loop_run : forall fuel l n hs params,
  (n <= length l)%nat -> (length l - n < fuel)%nat ->
  exists new k,
    run (extract_loop is_field indent fuel params)
      (mkBaseDoc l (Z.of_nat n) hs)
    = Ok (params ++ new)
         (mkBaseDoc (firstn n l ++ skipn (n + k) l) (Z.of_nat n) hs)
    /\ (length new <= k)%nat
    /\ (n + k <= length l)%nat
    /\ ((length l - k <= n)%nat
        \/ (is_field (nth n (firstn n l ++ skipn (n + k) l) (lit ""))
              indent = false
            /\ is_field (nth (S n) (firstn n l ++ skipn (n + k) l) (lit ""))
                 indent = false)).
Proof.
  induction fuel as [|fuel IH]; intros l n hs params Hn Hfuel; [lia|].
  cbn [extract_loop].
  rewrite (run_bind_ok _ (run_eol _)). cbn [docstring index]. unfold len.
  destruct (Nat.eq_dec n (length l)) as [->|Hne].
  - replace (Z.of_nat (length l) <=? Z.of_nat (length l))%Z with true
      by (symmetry; apply Z.leb_le; lia).
    rewrite run_ret. exists [], 0%nat.
    rewrite app_nil_r, Nat.add_0_r, firstn_skipn.
    repeat split; simpl; lia.
  - replace (Z.of_nat (length l) <=? Z.of_nat n)%Z with false
      by (symmetry; apply Z.leb_gt; lia).
    rewrite (run_bind_ok _ (run_peek _ _)).
    change 0%Z with (Z.of_nat 0). rewrite line_at_nat, Nat.add_0_r.
    set (p0 := nth n l (lit "")). set (p1 := nth (S n) l (lit "")).
    set (d := mkBaseDoc l (Z.of_nat n) hs).
    assert (Hgo : run (if is_field p0 indent then ret true
                       else bind (peek 1) (fun q => ret (is_field q indent)))
                    d
                  = Ok (is_field p0 indent || is_field p1 indent) d).
    { destruct (is_field p0 indent); [reflexivity|].
      rewrite (run_bind_ok _ (run_peek _ _)), run_ret.
      unfold d. change 1%Z with (Z.of_nat 1).
      rewrite line_at_nat, Nat.add_1_r. reflexivity. }
    rewrite (run_bind_ok _ Hgo).
    destruct (is_field p0 indent || is_field p1 indent) eqn:Ego;
      cbn [negb].
    + rewrite (run_bind_ok _ (run_peek _ _)). unfold d.
      change 0%Z with (Z.of_nat 0). rewrite line_at_nat, Nat.add_0_r.
      fold p0. fold d.
      set (b := if is_empty p0 then 1%nat else 0%nat).
      set (l1 := firstn n l ++ skipn (n + b) l).
      assert (Hrm : run (if is_empty p0
                         then bind get_index (fun i => remove_lines i 1)
                         else ret tt) d
                    = Ok tt (mkBaseDoc l1 (Z.of_nat n) hs)).
      { unfold l1, b. destruct (is_empty p0).
        - rewrite (run_bind_ok _ (run_get_index _)), run_remove_lines.
          unfold d. cbn [docstring index headers].
          change 1%Z with (Z.of_nat 1). rewrite del_slice_nat.
          reflexivity.
        - rewrite run_ret, Nat.add_0_r, firstn_skipn. reflexivity. }
      assert (Hb : (n + b < length l)%nat).
      { unfold b. destruct (is_empty p0) eqn:Ee; [|lia].
        rewrite (blank_rejected _ Ee) in Ego. cbn [orb] in Ego.
        destruct (Nat.lt_ge_cases (n + 1) (length l)) as [H|H]; [exact H|].
        exfalso. unfold p1 in Ego.
        rewrite nth_overflow in Ego by lia.
        rewrite blank_rejected in Ego by reflexivity. discriminate Ego. }
      assert (Hl1 : length l1 = (length l - b)%nat)
        by (apply cut_length; lia).
      rewrite (run_bind_ok _ Hrm).
      destruct (nth_error l1 n) as [header|] eqn:Eh;
        [|apply nth_error_None in Eh; lia].
      rewrite (run_bind_ok _ (@get_next_block_run l1 n hs header Eh)).
      set (c := length (continuation (get_indent header ++ lit " ")
                          (skipn (S n) l1))).
      assert (Hc : (S n + c <= length l1)%nat).
      { pose proof (continuation_length (get_indent header ++ lit " ")
                      (skipn (S n) l1)) as H.
        rewrite length_skipn in H. unfold c. lia. }
      set (l2 := firstn n l1 ++ skipn (S n + c) l1).
      assert (El2 : l2 = firstn n l ++ skipn (n + (b + (1 + c))) l).
      { unfold l2, l1. replace (S n + c)%nat with (n + (1 + c))%nat by lia.
        apply cut_cut. lia. }
      destruct (parse_field_cons header
                  (map rstrip (continuation (get_indent header ++ lit " ")
                                 (skipn (S n) l1))))
        as [name [type [Hp _]]].
      rewrite Hp. cbn [lift].
      rewrite (run_bind_ok _ (run_ret _ _)).
      assert (Hl2 : length l2 = (length l - (b + (1 + c)))%nat).
      { rewrite El2. apply cut_length. lia. }
      destruct (IH l2 n hs
                  (params ++
                   [(strip name, strip type,
                     match map rstrip
                             (continuation (get_indent header ++ lit " ")
                                (skipn (S n) l1)) with
                     | [] => [lit ""]
                     | _ :: _ =>
                         map rstrip
                           (map rstrip
                              (continuation
                                 (get_indent header ++ lit " ")
                                 (skipn (S n) l1)))
                     end)]))
        as [new [k [Hr [Hnew [Hk Hexit]]]]]; [lia | lia |].
      rewrite Hr.
      assert (Efin : firstn n l2 ++ skipn (n + k) l2
                     = firstn n l ++ skipn (n + (b + (1 + c) + k)) l).
      { rewrite El2. apply cut_cut. lia. }
      rewrite Efin in *.
      eexists (_ :: new), (b + (1 + c) + k)%nat.
      rewrite <- app_assoc. cbn [app].
      split; [reflexivity|].
      split; [simpl; lia|].
      split; [lia|].
      destruct Hexit as [Hexit|Hexit]; [left; lia | right; exact Hexit].
    + rewrite run_ret. exists [], 0%nat.
      rewrite app_nil_r, Nat.add_0_r, firstn_skipn.
      apply orb_false_iff in Ego.
      repeat split; simpl; try lia. right. exact Ego.
Qed.

End ExtractFields.

Lemma extract_fields_run is_field indent d :
  (forall line, is_empty line = true -> is_field line indent = false) ->
  cursor_inv d ->
  exists fields k,
    let n := Z.to_nat (index d) in
    let l' := firstn n (docstring d) ++ skipn (n + k) (docstring d) in
    run (extract_loop is_field indent (S (length (docstring d))) []) d
    = Ok fields (mkBaseDoc l' (index d) (headers d))
    /\ (length fields <= k)%nat
    /\ (n + k <= length (docstring d))%nat
    /\ ((length l' <= n)%nat
        \/ (is_field (nth n l' (lit "")) indent = false
            /\ is_field (nth (S n) l' (lit "")) indent = false)).
Proof.
  intros Hblank [H0 Hle]. destruct d as [l i hs].
  cbn [docstring index headers] in *. unfold len in Hle.
  pose proof (Z2Nat.id i H0) as Hi. set (n := Z.to_nat i) in *.
  destruct (@extract_loop_run is_field indent Hblank (S (length l)) l n hs [])
    as [new [k [Hr [Hnew [Hk Hexit]]]]]; [lia | lia |].
  rewrite Hi in Hr. exists new, k. cbv zeta.
  split; [exact Hr|]. split; [exact Hnew|]. split; [exact Hk|].
  destruct Hexit as [Hexit|Hexit]; [left | right; exact Hexit].
  rewrite cut_length by exact Hk. exact Hexit.
Qed.

(** X23.  [extract_fields] with a checking function that accepts no blank
    line, called with the cursor inside the buffer or at its end, raises
    nothing and comes to an end: it takes a run of lines out of the buffer
    at the cursor, which it leaves where it was, and returns at most as
    many fields as it took lines; it stops at the end of the buffer or
    where neither the line at the cursor nor the next one is a field. *)
Theorem extract_fields_spec :
  forall (check : str -> str -> bool) (indent : str) (d : BaseDoc),
  (forall line, is_empty line = true -> check line indent = false) ->
  cursor_inv d ->
  exists fields k,
    let n := Z.to_nat (index d) in
    let l' := firstn n (docstring d) ++ skipn (n + k) (docstring d) in
    run (extract_fields indent (Some check)) d
    = Ok fields (mkBaseDoc l' (index d) (headers d))
    /\ (length fields <= k)%nat
    /\ (n + k <= length (docstring d))%nat
    /\ ((length l' <= n)%nat
        \/ (check (nth n l' (lit "")) indent = false
            /\ check (nth (S n) l' (lit "")) indent = false)).
Proof.
  intros check indent d Hblank Hinv. unfold extract_fields.
  rewrite (run_bind_ok _ (run_get_docstring _)).
  apply extract_fields_run; assumption.
Qed.

Lemma extract_fields_spec_witness :
  exists fields k,
    run (extract_fields (lit "") (Some is_method_field))
      (mkBaseDoc [lit "f(x)"; lit "    Apply."; lit ""; lit "g()"; lit "end"]
         0 [])
    = Ok fields
        (mkBaseDoc
           (skipn k [lit "f(x)"; lit "    Apply."; lit ""; lit "g()";
                     lit "end"]) 0 [])
    /\ (length fields <= k)%nat.
Proof.
  destruct (@extract_fields_spec is_method_field (lit "")
              (mkBaseDoc [lit "f(x)"; lit "    Apply."; lit ""; lit "g()";
                          lit "end"] 0 []))
    as [fields [k [Hr [Hf _]]]].
  - intros line. apply is_method_field_blank.
  - unfold cursor_inv. vm_compute. split; discriminate.
  - exists fields, k. split; [exact Hr | exact Hf].
Defined.

(** X24.  [extract_fields] without a checking function, with an indent
    made of whitespace and the cursor inside the buffer or at its end,
    raises nothing and comes to an end, with the same effect: blank lines
    are no variable fields. *)
Theorem extract_fields_default : forall (indent : str) (d : BaseDoc),
  forallb isspace indent = true ->
  cursor_inv d ->
  exists fields k,
    let n := Z.to_nat (index d) in
    let l' := firstn n (docstring d) ++ skipn (n + k) (docstring d) in
    run (extract_fields indent None) d
    = Ok fields (mkBaseDoc l' (index d) (headers d))
    /\ (length fields <= k)%nat
    /\ (n + k <= length (docstring d))%nat
    /\ ((length l' <= n)%nat
        \/ (is_variable_field (nth n l' (lit "")) indent = false
            /\ is_variable_field (nth (S n) l' (lit "")) indent = false)).
Proof.
  intros indent d _ Hinv. unfold extract_fields.
  rewrite (run_bind_ok _ (run_get_docstring _)).
  apply extract_fields_run; [|exact Hinv].
  intros line. apply is_variable_field_blank.
Qed.

Lemma extract_fields_default_witness :
  exists fields k,
    run (extract_fields (lit "") None)
      (mkBaseDoc [lit "x : int"; lit "    The abscissa."; lit "";
                  lit "y : int"; lit ""; lit "Notes"] 0 [])
    = Ok fields
        (mkBaseDoc
           (skipn k [lit "x : int"; lit "    The abscissa."; lit "";
                     lit "y : int"; lit ""; lit "Notes"]) 0 [])
    /\ (length fields <= k)%nat.
Proof.
  destruct (@extract_fields_default (lit "")
              (mkBaseDoc [lit "x : int"; lit "    The abscissa."; lit "";
                          lit "y : int"; lit ""; lit "Notes"] 0 []))
    as [fields [k [Hr [Hf _]]]].
  - reflexivity.
  - unfold cursor_inv. vm_compute. split; discriminate.
  - exists fields, k. split; [exact Hr | exact Hf].
Defined.

Lemma get_next_block_run_eol d :
  (len (docstring d) <= index d)%Z -> run get_next_block d = Raise IndexError.
Proof.
  intros H. unfold get_next_block.
  rewrite (run_bind_ok _ (run_get_index _)), run_bind.
  replace (run read d) with (@Raise str IndexError); [reflexivity|].
  unfold run, read, bind, get_index, get_docstring. simpl.
  rewrite getitem_beyond by assumption. reflexivity.
Qed.

(** X25.  A checking function that accepts a blank line makes
    [extract_fields] raise [IndexError] when that line is the last of the
    buffer and the cursor is on it: the line is removed as space between
    fields, and [get_next_block] then reads past the end. *)
Theorem extract_fields_blank_field :
  forall (check : str -> str -> bool) (indent : str) (pre : list str)
         (blank : str) (hs : list (str * str)),
  is_empty blank = true ->
  check blank indent = true ->
  run (extract_fields indent (Some check))
    (mkBaseDoc (pre ++ [blank]) (len pre) hs)
  = Raise IndexError.
Proof.
  intros check indent pre blank hs He Hc. unfold extract_fields, len.
  rewrite (run_bind_ok _ (run_get_docstring _)). cbn [extract_loop].
  assert (Hline : line_at (mkBaseDoc (pre ++ [blank])
                             (Z.of_nat (length pre)) hs) 0 = blank).
  { change 0%Z with (Z.of_nat 0).
    rewrite line_at_nat, Nat.add_0_r, app_nth2, Nat.sub_diag by lia.
    reflexivity. }
  rewrite (run_bind_ok _ (run_eol _)). cbn [docstring index]. unfold len.
  replace (Z.of_nat (length (pre ++ [blank])) <=? Z.of_nat (length pre))%Z
    with false
    by (symmetry; apply Z.leb_gt; rewrite length_app; simpl; lia).
  rewrite (run_bind_ok _ (run_peek _ _)), Hline, Hc.
  rewrite (run_bind_ok _ (run_ret _ _)). cbn [negb].
  rewrite (run_bind_ok _ (run_peek _ _)), Hline, He.
  rewrite run_bind.
  rewrite (run_bind_ok _ (run_get_index _)), run_remove_lines.
  cbn [docstring index headers].
  rewrite run_bind, get_next_block_run_eol; [reflexivity|].
  cbn [docstring index].
  change 1%Z with (Z.of_nat 1). rewrite del_slice_nat.
  unfold len. rewrite length_app, length_firstn, length_skipn, length_app.
  simpl length. lia.
Qed.

Lemma extract_fields_blank_field_witness :
  run (extract_fields (lit "") (Some (fun _ _ => true)))
    (mkBaseDoc [lit "x : int"; lit "  "] 1 [])
  = Raise IndexError.
Proof.
  apply (@extract_fields_blank_field (fun _ _ => true) (lit "")
           [lit "x : int"] (lit "  ") []); reflexivity.
Defined.

(** ** [OrDefinitionItem.is_item] *)

Lemma lang_upto2_lit c p :
  Re.lang (Re.Upto2 (Re.Lit c)) p <-> exists k, (k <= 2)%nat /\ p = repeat c k.
Proof.
  unfold Re.Upto2. unfold Re.Opt at 1. split.
  - intros H. inversion H as [| | |r1 r2 s H1|r1 r2 s H1| |]; subst.
    + inversion H1. exists 0%nat. split; [lia|reflexivity].
    + inversion H1 as [| |r1 r2 a b Ha Hb| | | |]; subst.
      apply lang_lit in Ha. apply lang_opt_lit in Hb. subst a.
      destruct Hb as [-> | ->].
      * exists 1%nat. split; [lia|reflexivity].
      * exists 2%nat. split; [lia|reflexivity].
  - intros [k [Hk ->]]. destruct k as [|[|[|k]]]; [| | |lia].
    + apply Re.lang_alt_l. constructor.
    + apply Re.lang_alt_r. change (repeat c 1) with ([c] ++ []).
      apply Re.lang_cat; [apply lang_lit | apply lang_opt_lit]; auto.
    + apply Re.lang_alt_r. change (repeat c 2) with ([c] ++ [c]).
      apply Re.lang_cat; [apply lang_lit | apply lang_opt_lit]; auto.
Qed.

Lemma dotted_words_first s :
  Re.lang OrDefinitionItem.dotted_words s ->
  exists c r, s = c :: r /\ isspace c = true.
Proof.
  unfold OrDefinitionItem.dotted_words. intros H.
  inversion H as [| |r1 r2 a b Ha Hb| | | |]; subst.
  inversion Ha as [|q c Hc| | | | |]; subst.
  exists c, b. split; [reflexivity | exact Hc].
Qed.

(** The strings of [definition_regex]: stars, a name, whitespace, a colon
    and the optional group, which begins with whitespace. *)
Lemma definition_regex_shape s :
  Re.lang OrDefinitionItem.definition_regex s ->
  exists k name sp g,
    (k <= 2)%nat /\ name <> [] /\ forallb isword name = true
    /\ isspace sp = true
    /\ match g with [] => True | c :: _ => isspace c = true end
    /\ s = repeat (chr 42) k ++ name ++ sp :: chr 58 :: g.
Proof.
  unfold OrDefinitionItem.definition_regex. intros H.
  inversion H as [| |r1 r2 a x Ha Hx| | | |]; subst.
  inversion Hx as [| |r1 r2 name y Hn Hy| | | |]; subst.
  inversion Hy as [| |r1 r2 s0 z Hs Hz| | | |]; subst.
  inversion Hz as [| |r1 r2 c g Hc Hg| | | |]; subst.
  apply lang_upto2_lit in Ha as [k [Hk ->]].
  apply lang_plus_cls in Hn as [Hne Hn].
  inversion Hs as [|q sp Hsp| | | | |]; subst.
  apply lang_lit in Hc. subst c.
  exists k, name, sp, g. repeat split; try assumption.
  unfold Re.Opt in Hg.
  inversion Hg as [| | |r1 r2 s H1|r1 r2 s H1| |]; subst.
  - inversion H1. exact I.
  - inversion H1 as [| | |r1 r2 s H2|r1 r2 s H2| |]; subst.
    + inversion H2 as [|q c Hc| | | | |]; subst. exact Hc.
    + inversion H2 as [| | |r1 r2 s H3|r1 r2 s H3| |]; subst.
      * destruct (dotted_words_first H3) as [c [r [-> Hc]]]. exact Hc.
      * inversion H3 as [| |r1 r2 d e Hd He| | | |]; subst.
        destruct (dotted_words_first Hd) as [c [r [-> Hc]]]. exact Hc.
Qed.

(** X26.  Every line that [OrDefinitionItem.is_item] accepts is a variable
    field for [is_variable_field] with the empty indent: it begins with at
    most two stars, a name of word characters, one whitespace character and
    a colon.  A term alone, without [" :"], is no item. *)
Theorem is_item_variable_field : forall line : str,
  OrDefinitionItem.is_item line = true ->
  is_variable_field line (lit "") = true.
Proof.
  intros line H. apply is_variable_field_iff.
  unfold OrDefinitionItem.is_item, Re.match_dollar in H.
  rewrite orb_true_iff, !ReFacts.fullmatch_lang in H.
  destruct H as [H|H].
  - destruct (definition_regex_shape H)
      as [k [name [sp [g [Hk [Hne [Hn [Hsp [Hg ->]]]]]]]]].
    exists k, name, sp, g. repeat split; assumption.
  - inversion H as [| |r1 r2 s nl Hs Hnl| | | |]; subst.
    apply lang_lit in Hnl. subst nl.
    destruct (definition_regex_shape Hs)
      as [k [name [sp [g [Hk [Hne [Hn [Hsp [Hg ->]]]]]]]]].
    exists k, name, sp, (g ++ [chr 10]). repeat split; try assumption.
    + destruct g; [reflexivity | exact Hg].
    + cbn [lit list_ascii_of_string app]. rewrite <- !app_assoc.
      reflexivity.
Qed.

Lemma is_item_variable_field_witness :
  is_variable_field (lit "x : int or float") (lit "") = true.
Proof.
  apply (@is_item_variable_field (lit "x : int or float")).
  reflexivity.
Defined.

Lemma lang_dotted_words c :
  c <> [] -> forallb OrDefinitionItem.word_or_dot c = true ->
  Re.lang OrDefinitionItem.dotted_words (chr 32 :: c).
Proof.
  intros Hne Hc. unfold OrDefinitionItem.dotted_words.
  change (chr 32 :: c) with ([chr 32] ++ c).
  apply Re.lang_cat; [constructor; reflexivity|].
  rewrite <- (app_nil_r c).
  apply Re.lang_cat; [apply lang_plus_cls; auto|].
  apply Re.lang_alt_l. constructor.
Qed.

Lemma lang_definition_regex k name g :
  (k <= 2)%nat -> name <> [] -> forallb isword name = true ->
  g = [] \/ Re.lang
              (Re.Alt Re.Space
                 (Re.Alt OrDefinitionItem.dotted_words
                    (Re.Cat OrDefinitionItem.dotted_words
                       (Re.Cat Re.Space
                          (Re.Cat (Re.Lit (chr 111))
                             (Re.Cat (Re.Lit (chr 114))
                                OrDefinitionItem.dotted_words)))))) g ->
  Re.lang OrDefinitionItem.definition_regex
    (repeat (chr 42) k ++ name ++ lit " :" ++ g).
Proof.
  intros Hk Hne Hn Hg. unfold OrDefinitionItem.definition_regex.
  apply Re.lang_cat; [apply lang_upto2_lit; eauto|].
  apply Re.lang_cat; [apply lang_plus_cls; auto|].
  change (lit " :" ++ g) with ([chr 32] ++ [chr 58] ++ g).
  apply Re.lang_cat; [constructor; reflexivity|].
  apply Re.lang_cat; [apply lang_lit; reflexivity|].
  destruct Hg as [-> | Hg].
  - apply Re.lang_alt_l. constructor.
  - apply Re.lang_alt_r. exact Hg.
Qed.

(** X27.  [is_item] accepts the documented headers: a name of word
    characters, with at most two stars before it, followed by [" :"] alone,
    by [" : "] and a classifier of word characters and dots, or by two such
    classifiers with [" or "] between them. *)
Theorem is_item_documented : forall (k : nat) (name c1 c2 : str),
  (k <= 2)%nat ->
  name <> [] -> forallb isword name = true ->
  c1 <> [] -> forallb OrDefinitionItem.word_or_dot c1 = true ->
  c2 <> [] -> forallb OrDefinitionItem.word_or_dot c2 = true ->
  OrDefinitionItem.is_item (repeat (chr 42) k ++ name ++ lit " :") = true
  /\ OrDefinitionItem.is_item
       (repeat (chr 42) k ++ name ++ lit " : " ++ c1) = true
  /\ OrDefinitionItem.is_item
       (repeat (chr 42) k ++ name ++ lit " : " ++ c1 ++ lit " or " ++ c2)
     = true.
Proof.
  intros k name c1 c2 Hk Hne Hn Hne1 Hc1 Hne2 Hc2.
  unfold OrDefinitionItem.is_item, Re.match_dollar.
  rewrite !orb_true_iff, !ReFacts.fullmatch_lang.
  split; [|split]; left.
  - rewrite <- (app_nil_r (lit " :")).
    apply lang_definition_regex; auto.
  - change (lit " : " ++ c1) with (lit " :" ++ chr 32 :: c1).
    apply lang_definition_regex; auto. right.
    apply Re.lang_alt_r, Re.lang_alt_l, lang_dotted_words; assumption.
  - change (lit " : " ++ c1 ++ lit " or " ++ c2)
      with (lit " :" ++ chr 32 :: (c1 ++ lit " or " ++ c2)).
    apply lang_definition_regex; auto. right.
    apply Re.lang_alt_r, Re.lang_alt_r.
    change (chr 32 :: c1 ++ lit " or " ++ c2)
      with ((chr 32 :: c1)
            ++ [chr 32] ++ [chr 111] ++ [chr 114] ++ chr 32 :: c2).
    apply Re.lang_cat; [apply lang_dotted_words; assumption|].
    apply Re.lang_cat; [constructor; reflexivity|].
    apply Re.lang_cat; [apply lang_lit; reflexivity|].
    apply Re.lang_cat; [apply lang_lit; reflexivity|].
    apply lang_dotted_words; assumption.
Qed.

Lemma is_item_documented_witness :
  OrDefinitionItem.is_item (lit "**kwargs :") = true
  /\ OrDefinitionItem.is_item (lit "**kwargs : numpy.ndarray") = true
  /\ OrDefinitionItem.is_item (lit "**kwargs : numpy.ndarray or list")
     = true.
Proof.
  apply (@is_item_documented 2 (lit "kwargs") (lit "numpy.ndarray")
           (lit "list")); try reflexivity; try lia; discriminate.
Defined.

Lemma span_unique (P : ascii -> bool) : forall x1 x2 y1 y2 : str,
  forallb P x1 = true -> forallb P x2 = true ->
  match y1 with [] => True | c :: _ => P c = false end ->
  match y2 with [] => True | c :: _ => P c = false end ->
  x1 ++ y1 = x2 ++ y2 -> x1 = x2 /\ y1 = y2.
Proof.
  induction x1 as [|a x1 IH]; intros [|b x2] y1 y2 H1 H2 G1 G2 E;
    simpl in *.
  - auto.
  - subst y1. apply andb_true_iff in H2 as [Hb _]. congruence.
  - subst y2. apply andb_true_iff in H1 as [Ha _]. congruence.
  - injection E as -> E.
    apply andb_true_iff in H1 as [_ H1]. apply andb_true_iff in H2 as [_ H2].
    destruct (IH x2 y1 y2 H1 H2 G1 G2 E) as [-> ->]. auto.
Qed.

Lemma isspace_not_word_or_dot c :
  isspace c = true -> OrDefinitionItem.word_or_dot c = false.
Proof.
  intros H. unfold OrDefinitionItem.word_or_dot.
  destruct (isword c) eqn:E.
  - apply isword_not_space in E. congruence.
  - destruct (is_char (chr 46) c) eqn:E2; [|reflexivity].
    apply is_char_true in E2. subst c. discriminate H.
Qed.

Lemma isword_not_star c : isword c = true -> is_char (chr 42) c = false.
Proof.
  intros H. destruct (is_char (chr 42) c) eqn:E; [|reflexivity].
  apply is_char_true in E. subst c. discriminate H.
Qed.

Lemma forallb_repeat (P : ascii -> bool) c k :
  P c = true -> forallb P (repeat c k) = true.
Proof.
  intros H. induction k as [|k IH]; simpl; [reflexivity|].
  rewrite H, IH. reflexivity.
Qed.

Lemma dotted_words_shape d :
  Re.lang OrDefinitionItem.dotted_words d ->
  exists sp w sig,
    d = sp :: w ++ sig /\ isspace sp = true
    /\ forallb OrDefinitionItem.word_or_dot w = true
    /\ (sig = [] \/ exists r, sig = chr 40 :: r).
Proof.
  unfold OrDefinitionItem.dotted_words. intros H.
  inversion H as [| |r1 r2 a b Ha Hb| | | |]; subst.
  inversion Ha as [|q sp Hsp| | | | |]; subst.
  inversion Hb as [| |r1 r2 w sig Hw Hsig| | | |]; subst.
  apply lang_plus_cls in Hw as [_ Hw].
  exists sp, w, sig. repeat split; try assumption.
  unfold Re.Opt in Hsig.
  inversion Hsig as [| | |r1 r2 s H1|r1 r2 s H1| |]; subst.
  - inversion H1. left. reflexivity.
  - inversion H1 as [| |r1 r2 o z Ho Hz| | | |]; subst.
    apply lang_lit in Ho. subst o. right. exists z. reflexivity.
Qed.

(** A run of classifier characters followed by [" or "] cannot be read as
    a classifier with its signature that ends the line. *)
Lemma classifier_then_or w sig e c rest :
  forallb OrDefinitionItem.word_or_dot w = true ->
  forallb OrDefinitionItem.word_or_dot c = true ->
  (sig = [] \/ exists r, sig = chr 40 :: r) ->
  (e = [] \/ e = [chr 10]) ->
  w ++ sig ++ e = c ++ chr 32 :: rest -> False.
Proof.
  intros Hw Hc Hsig He E.
  apply (span_unique OrDefinitionItem.word_or_dot) in E;
    try assumption; try reflexivity.
  - destruct E as [_ E].
    destruct Hsig as [-> | [r ->]]; [|discriminate E].
    destruct He as [-> | ->]; discriminate E.
  - destruct Hsig as [-> | [r ->]]; [|reflexivity].
    destruct He as [-> | ->]; [exact I | reflexivity].
Qed.

Lemma is_item_third_classifier_lang k name c1 c2 c3 s e :
  forallb isword name = true -> name <> [] ->
  forallb OrDefinitionItem.word_or_dot c1 = true -> c1 <> [] ->
  forallb OrDefinitionItem.word_or_dot c2 = true ->
  (e = [] \/ e = [chr 10]) ->
  Re.lang OrDefinitionItem.definition_regex s ->
  s ++ e = repeat (chr 42) k ++ name
           ++ chr 32 :: chr 58 :: chr 32 :: c1
           ++ chr 32 :: chr 111 :: chr 114 :: chr 32 :: c2
           ++ chr 32 :: chr 111 :: chr 114 :: chr 32 :: c3 ->
  False.
Proof.
  intros Hn Hne H1 Hne1 H2 He H E.
  unfold OrDefinitionItem.definition_regex in H.
  inversion H as [| |r1 r2 a x Ha Hx| | | |]; subst.
  inversion Hx as [| |r1 r2 n y Hnn Hy| | | |]; subst.
  inversion Hy as [| |r1 r2 s0 z Hs Hz| | | |]; subst.
  inversion Hz as [| |r1 r2 c g Hc Hg| | | |]; subst.
  apply lang_upto2_lit in Ha as [j [Hj ->]].
  apply lang_plus_cls in Hnn as [Hnne Hnn].
  inversion Hs as [|q sp Hsp| | | | |]; subst.
  apply lang_lit in Hc. subst c.
  rewrite <- !app_assoc in E.
  apply (span_unique (is_char (chr 42))) in E;
    [| apply forallb_repeat, is_char_refl
     | apply forallb_repeat, is_char_refl
     | destruct n as [|c n]; [contradiction|];
       simpl in Hnn; apply andb_true_iff in Hnn as [Hc _];
       apply isword_not_star, Hc
     | destruct name as [|c name]; [contradiction|];
       simpl in Hn; apply andb_true_iff in Hn as [Hc _];
       apply isword_not_star, Hc ].
  destruct E as [_ E].
  apply (span_unique isword) in E; try assumption;
    [| simpl; destruct (isword sp) eqn:Ew; [|reflexivity];
       apply isword_not_space in Ew; congruence
     | reflexivity ].
  destruct E as [_ E]. simpl in E. injection E as _ E.
  unfold Re.Opt in Hg.
  inversion Hg as [| | |r1 r2 s H0|r1 r2 s H0| |]; subst.
  - inversion H0; subst. simpl in E.
    destruct He as [-> | ->]; discriminate E.
  - inversion H0 as [| | |r1 r2 s H3|r1 r2 s H3| |]; subst.
    + inversion H3 as [|q c Hc| | | | |]; subst.
      simpl in E. injection E as _ E.
      destruct c1 as [|x c1]; [contradiction|].
      destruct He as [-> | ->]; [discriminate E|].
      simpl in E. injection E as _ E. destruct c1; discriminate E.
    + inversion H3 as [| | |r1 r2 s H4|r1 r2 s H4| |]; subst.
      * destruct (dotted_words_shape H4)
          as [sp1 [w [sig [-> [_ [Hw Hsig]]]]]].
        simpl in E. injection E as _ E. rewrite <- app_assoc in E.
        exact (@classifier_then_or _ _ _ _ _ Hw H1 Hsig He E).
      * inversion H4 as [| |r1 r2 d1 t1 Hd1 Ht1| | | |]; subst.
        inversion Ht1 as [| |r1 r2 s2 t2 Hs2 Ht2| | | |]; subst.
        inversion Ht2 as [| |r1 r2 o t3 Ho Ht3| | | |]; subst.
        inversion Ht3 as [| |r1 r2 r d2 Hr Hd2| | | |]; subst.
        inversion Hs2 as [|q sp2 Hsp2| | | | |]; subst.
        apply lang_lit in Ho, Hr. subst o r.
        destruct (dotted_words_shape Hd1)
          as [sp1 [w [sig [-> [_ [Hw Hsig]]]]]].
        destruct (dotted_words_shape Hd2)
          as [sp3 [w2 [sig2 [-> [_ [Hw2 Hsig2]]]]]].
        simpl in E. injection E as _ E. rewrite <- !app_assoc in E.
        apply (span_unique OrDefinitionItem.word_or_dot) in E;
          try assumption;
          [| destruct Hsig as [-> | [r ->]];
             [apply isspace_not_word_or_dot, Hsp2 | reflexivity]
           | reflexivity ].
        destruct E as [_ E].
        destruct Hsig as [-> | [r ->]]; [|discriminate E].
        cbn [app] in E. injection E as _ _ E. rewrite <- app_assoc in E.
        exact (@classifier_then_or _ _ _ _ _ Hw2 H2 Hsig2 He E).
Qed.

(** X28.  A header made of a name of word characters, [" : "], two
    classifiers of word characters and dots with [" or "] between them, and
    a second [" or "] is no item for [is_item], whatever follows the second
    [" or "].  Classifiers with a signature are not covered: the [.*] of a
    signature can take in a further [" or "]. *)
Theorem is_item_third_classifier : forall (k : nat) (name c1 c2 c3 : str),
  name <> [] -> forallb isword name = true ->
  c1 <> [] -> forallb OrDefinitionItem.word_or_dot c1 = true ->
  forallb OrDefinitionItem.word_or_dot c2 = true ->
  OrDefinitionItem.is_item
    (repeat (chr 42) k ++ name ++ lit " : " ++ c1 ++ lit " or " ++ c2
     ++ lit " or " ++ c3) = false.
Proof.
  intros k name c1 c2 c3 Hne Hn Hne1 H1 H2.
  destruct (OrDefinitionItem.is_item _) eqn:E; [|reflexivity].
  exfalso. unfold OrDefinitionItem.is_item, Re.match_dollar in E.
  rewrite orb_true_iff, !ReFacts.fullmatch_lang in E.
  destruct E as [E|E].
  - apply (@is_item_third_classifier_lang k name c1 c2 c3
             (repeat (chr 42) k ++ name ++ lit " : " ++ c1 ++ lit " or "
              ++ c2 ++ lit " or " ++ c3) []); auto.
    apply app_nil_r.
  - inversion E as [| |r1 r2 s nl Hs Hnl Es| | | |]; subst.
    apply lang_lit in Hnl. subst nl.
    apply (@is_item_third_classifier_lang k name c1 c2 c3 s [chr 10]); auto.
Qed.

Lemma is_item_third_classifier_witness :
  OrDefinitionItem.is_item (lit "x : int or float or None") = false.
Proof.
  apply (@is_item_third_classifier 0 (lit "x") (lit "int") (lit "float")
           (lit "None")); try reflexivity; discriminate.
Defined.

(** ** Headers that [is_section] can and cannot recognize *)

Lemma isalpha_isword c : isalpha c = true -> isword c = true.
Proof. unfold isword. intros ->. reflexivity. Qed.

Lemma isalpha_nonspaces h :
  forallb isalpha h = true -> forallb nonspace h = true.
Proof.
  induction h as [|c h IH]; simpl; [reflexivity|]. intros H.
  apply andb_true_iff in H as [Hc Hh].
  apply isalpha_isword, isword_not_space in Hc.
  rewrite (IH Hh). unfold nonspace. rewrite Hc. reflexivity.
Qed.

Lemma underline_sub_alpha repl h : forall prev,
  forallb isalpha h = true ->
  underline_sub repl prev h = repeat repl (length h).
Proof.
  induction h as [|c h IH]; intros prev H; [reflexivity|].
  simpl in H. apply andb_true_iff in H as [Hc Hh].
  cbn [underline_sub length repeat]. rewrite Hc, (IH _ Hh). reflexivity.
Qed.

Lemma underline_sub_indent repl w h : forall prev,
  forallb isspace w = true -> word_before prev = false ->
  forallb isalpha h = true ->
  underline_sub repl prev (w ++ h) = w ++ repeat repl (length h).
Proof.
  induction w as [|c w IH]; intros prev Hw Hp Hh.
  - apply underline_sub_alpha, Hh.
  - simpl in Hw. apply andb_true_iff in Hw as [Hc Hw].
    cbn [app underline_sub]. rewrite Hp, andb_false_r.
    assert (Ew : isword c = false).
    { destruct (isword c) eqn:E; [|reflexivity].
      apply isword_not_space in E. congruence. }
    assert (Ea : isalpha c = false).
    { destruct (isalpha c) eqn:E; [|reflexivity].
      apply isalpha_isword in E. congruence. }
    assert (Eb : is_char (chr 92) c = false).
    { destruct (is_char (chr 92) c) eqn:E; [|reflexivity].
      apply is_char_true in E. subst c. discriminate Hc. }
    rewrite Ea, Eb. cbn [orb]. rewrite (IH (Some c) Hw Ew Hh). reflexivity.
Qed.

(** X29.  A header made of letters, indented or not, over a line with the
    same indent and as many [-] or as many [=] as the header has letters is
    recognized, whatever whitespace ends the two lines, and the header is
    returned without the whitespace around it. *)
Theorem section_header_letters : forall (w h t1 t2 : str) (c : ascii),
  forallb isspace w = true ->
  forallb isspace t1 = true -> forallb isspace t2 = true ->
  h <> [] -> forallb isalpha h = true ->
  c = chr 45 \/ c = chr 61 ->
  section_header (w ++ h ++ t1) (w ++ repeat c (length h) ++ t2) = Some h.
Proof.
  intros w h t1 t2 c Hw Ht1 Ht2 Hne Hh Hc.
  assert (Htok : token h = true).
  { destruct h; [contradiction|]. unfold token.
    apply isalpha_nonspaces, Hh. }
  assert (Hcn : nonspace c = true) by (destruct Hc; subst c; reflexivity).
  assert (Hu : token (repeat c (length h)) = true).
  { destruct h as [|a h]; [contradiction|]. cbn [length repeat token].
    change (c :: repeat c (length h)) with (repeat c (S (length h))).
    apply forallb_repeat, Hcn. }
  unfold section_header, Re.match_Z.
  replace (Re.fullmatch underline_regex (w ++ repeat c (length h) ++ t2))
    with true.
  2:{ symmetry. apply underline_regex_single_token.
      exists w, (repeat c (length h)), t2. auto. }
  assert (Hr2 : rstrip (w ++ repeat c (length h) ++ t2)
                = w ++ repeat c (length h)).
  { rewrite app_assoc, rstrip_app_spaces by exact Ht2.
    apply rstrip_app_fixed; [apply token_nonnil, Hu|].
    apply rstrip_nonspaces, token_nonspaces, Hu. }
  assert (Hr1 : rstrip (w ++ h ++ t1) = w ++ h).
  { rewrite app_assoc, rstrip_app_spaces by exact Ht1.
    apply rstrip_app_fixed; [exact Hne|].
    apply rstrip_nonspaces, token_nonspaces, Htok. }
  rewrite Hr1, Hr2.
  rewrite !underline_sub_indent by (assumption || reflexivity).
  rewrite (@strip_padded w h t1 Hw Ht1 Htok).
  destruct Hc as [-> | ->].
  - replace (str_eqb (w ++ repeat (chr 45) (length h))
               (w ++ repeat (chr 45) (length h))) with true
      by (symmetry; apply str_eqb_true; reflexivity).
    reflexivity.
  - replace (str_eqb (w ++ repeat (chr 61) (length h))
               (w ++ repeat (chr 61) (length h))) with true
      by (symmetry; apply str_eqb_true; reflexivity).
    rewrite orb_true_r. reflexivity.
Qed.

Lemma section_header_letters_witness :
  section_header (lit "    Notes  ") (lit "    -----") = Some (lit "Notes").
Proof.
  apply (@section_header_letters (lit "    ") (lit "Notes") (lit "  ")
           (lit "") (chr 45));
    try reflexivity; [discriminate | left; reflexivity].
Defined.

(** X30.  A character of the header that is neither a letter, a backslash
    nor whitespace (a digit, an underscore, a punctuation mark) stands for
    itself in the expected underline: when the line under the header has
    another character at its place, the header is not recognized. *)
Theorem section_header_other_char :
  forall (header line2 : str) (i : nat) (x : ascii),
  nth_error (rstrip header) i = Some x ->
  isalpha x = false -> x <> chr 92 -> isspace x = false ->
  nth_error (rstrip line2) i <> Some x ->
  section_header header line2 = None.
Proof.
  intros header line2 i x Hx Ha Hb Hs Hu.
  destruct (section_header_spec header line2) as [[[_ H] _]|[_ H]];
    [exfalso | exact H].
  assert (Eb : is_char (chr 92) x = false).
  { destruct (is_char (chr 92) x) eqn:E; [|reflexivity].
    apply is_char_true in E. congruence. }
  destruct H as [[_ H]|[_ H]]; specialize (H i x Hx);
    rewrite Ha, Eb, Hs in H; cbn [orb andb] in H; contradiction.
Qed.

Lemma section_header_other_char_witness :
  section_header (lit "Example 1") (lit "---------") = None.
Proof.
  apply (@section_header_other_char (lit "Example 1") (lit "---------")
           8 (chr 49)); try reflexivity; discriminate.
Defined.
